(** * A shallow embedding of the tptmp relay server (node-tptmp)

    The development follows the three source files:
    - [client.js]  (class [Client]: handshake, opcode loop, disconnect),
    - [room.js]    (class [Room]: send, requestSync, join, part),
    - [server.js]  (class [TPTMPServer]: accept, join, part, disconnect).

    JavaScript objects live in a store indexed by references, so that
    [Set] membership is by object identity while [client.id] is a
    separate, reusable number.  Synchronous code runs in a state and
    exception monad over that store; everything the process does to the
    outside world (socket writes, socket ends, emitted events) is
    appended to a trace. *)

From Stdlib Require Import ZArith Lia Ascii String.
From stdpp Require Import base gmap list strings numbers pretty.

Local Open Scope Z_scope.

(** ** Values *)

(** References to [Client] objects, [Room] objects and sockets. *)
Abbreviation cref := nat (only parsing).
Abbreviation rref := nat (only parsing).
Abbreviation sock := nat (only parsing).

(** The JavaScript values that are ever stored in [Room.op]. *)
Inductive jsval :=
| JNull
| JUndefined
| JNum (z : Z)
| JClient (c : cref).

Global Instance jsval_eq_dec : EqDecision jsval.
Proof. solve_decision. Defined.

(** A property holding a number or left unassigned ([undefined]). *)
Definition num_val (o : option Z) : jsval :=
  match o with Some z => JNum z | None => JUndefined end.

(** [a === b] *)
Definition strict_eq (a b : jsval) : bool := bool_decide (a = b).

(** An element of the array given to [Buffer.from]: numbers are stored
    modulo 256, [undefined] is stored as 0. *)
Definition to_uint8 (o : option Z) : Z :=
  match o with Some z => z `mod` 256 | None => 0 end.

(** [Buffer.from([...])] on an array of numbers. *)
Definition Buffer_from (l : list Z) : list Z := (λ z, z `mod` 256) <$> l.

(** ** Strings and bytes *)

(** What a socket delivers. *)
Definition is_byte (z : Z) : Prop := 0 ≤ z < 256.

Definition byte_of_ascii (a : ascii) : Z := Z.of_N (N_of_ascii a).
Definition ascii_of_byte (z : Z) : ascii := ascii_of_N (Z.to_N z).

(** [Buffer.from(str)] and writing a string to a socket.  Every string
    that reaches these two in the program is made of characters below
    128, for which UTF-8 is the identity on codes. *)
Fixpoint bytes_of_string (s : string) : list Z :=
  match s with
  | EmptyString => []
  | String a s' => byte_of_ascii a :: bytes_of_string s'
  end.

(** [buf.toString()].  Bytes below 128 decode to the character of the same
    code.  A byte from 128 up is decoded by Node to a character outside
    ASCII; here it stays a character of code 128 or more.  Both are
    rejected alike by the two regular expressions below, which are tested
    before any length. *)
Fixpoint toString (b : list Z) : string :=
  match b with
  | [] => EmptyString
  | z :: b' => String (ascii_of_byte z) (toString b')
  end.

Definition str_length (s : string) : Z := Z.of_nat (String.length s).

(** [[\w-_]]: letters, digits, underscore and the dash. *)
Definition is_name_char (a : ascii) : bool :=
  let n := byte_of_ascii a in
  (65 <=? n) && (n <=? 90) || (97 <=? n) && (n <=? 122)
  || (48 <=? n) && (n <=? 57) || (n =? 95) || (n =? 45).

(** [[ -~]]: the printable characters. *)
Definition is_printable (a : ascii) : bool :=
  let n := byte_of_ascii a in (32 <=? n) && (n <=? 126).

Fixpoint string_forall (p : ascii → bool) (s : string) : bool :=
  match s with
  | EmptyString => true
  | String a s' => p a && string_forall p s'
  end.

(** [s.match(/^[\w-_]+$/)] *)
Definition match_name (s : string) : bool :=
  match s with
  | EmptyString => false
  | _ => string_forall is_name_char s
  end.

(** [s.match(/^[ -~]*$/)] *)
Definition match_printable (s : string) : bool := string_forall is_printable s.

(** A number or [undefined] inside a template literal. *)
Definition show_num (o : option Z) : string :=
  match o with Some z => pretty z | None => "undefined" end.

(** A string or [null] inside a template literal. *)
Definition show_str (o : option string) : string :=
  match o with Some s => s | None => "null" end.

(** ** Objects *)

(** [Client] (constructor, client.js lines 11-46).  [cid] is the [id]
    property, which the constructor leaves unassigned when no id is free. *)
Record Client := mkClient {
  socket : sock;
  connected : bool;
  nick : option string;
  version : list (option Z);
  room : option rref;
  brush : Z;
  brushSize : list Z;
  brushSelection : gmap Z (list Z);
  replaceMode : list Z;
  deco : list Z;
  isChat : bool;
  cid : option Z;
  _initial : bool
}.

(** [Room] (room.js lines 10-15).  [clients] is a [Set]: no duplicates,
    iterated in insertion order. *)
Record Room := mkRoom {
  name : string;
  clients : list cref;
  op : jsval
}.

(** Events given to [emit], by emitter. *)
Inductive client_event :=
| CDisconnect (reason : string)
| CIdentified
| CJoin (r : string)
| CPart
| CKicked (source : cref) (reason : string).

Inductive room_event :=
| RJoin (c : cref)
| RPart (c : cref)
| RDelete.

Inductive server_event :=
| SDisconnect (c : cref) (reason : string)
| SNewClient (c : cref)
| SChat (c : cref) (message : string)
| SJoin (c : cref) (r : rref)
| SPart (c : cref) (r : option rref)
| SRoomCreate (r : rref)
| SRoomDelete (r : rref).

(** What the process does to the outside world. *)
Inductive effect :=
| SocketWrite (s : sock) (data : list Z)
| SocketEnd (s : sock)
| SetTimeout (s : sock) (ms : Z)
| ClientEmit (c : cref) (e : client_event)
| RoomEmit (r : rref) (e : room_event)
| ServerEmit (e : server_event).

Global Instance client_event_eq_dec : EqDecision client_event.
Proof. solve_decision. Defined.
Global Instance room_event_eq_dec : EqDecision room_event.
Proof. solve_decision. Defined.
Global Instance server_event_eq_dec : EqDecision server_event.
Proof. solve_decision. Defined.
Global Instance effect_eq_dec : EqDecision effect.
Proof. solve_decision. Defined.

(** The store: the objects, the two tables of [TPTMPServer]
    ([this.clients], a [Map] from id to client, and [this.rooms], a [Map]
    from name to room) and the trace, oldest effect first. *)
Record State := mkState {
  client_heap : gmap cref Client;
  room_heap : gmap rref Room;
  server_clients : gmap (option Z) cref;
  server_rooms : gmap string rref;
  trace : list effect
}.

(** The fields a fresh [Client] gets from its constructor. *)
Definition new_Client (s : sock) (i : option Z) : Client :=
  {| socket := s; connected := true; nick := None; version := [];
     room := None; brush := 0; brushSize := [4; 4];
     brushSelection := {[ 0 := [0; 1]; 1 := [64; 0]; 2 := [128; 0]; 3 := [192; 0] ]};
     replaceMode := [48]; deco := [0; 0; 0; 0]; isChat := false;
     cid := i; _initial := true |}.

Definition new_Room (n : string) : Room :=
  {| name := n; clients := []; op := JNull |}.

Global Instance Client_inhabited : Inhabited Client := populate (new_Client 0%nat None).
Global Instance Room_inhabited : Inhabited Room := populate (new_Room EmptyString).

(** Field updates. *)
Definition set_connected (v : bool) (c : Client) : Client :=
  mkClient (socket c) v (nick c) (version c) (room c) (brush c) (brushSize c)
    (brushSelection c) (replaceMode c) (deco c) (isChat c) (cid c) (_initial c).
Definition set_nick (v : option string) (c : Client) : Client :=
  mkClient (socket c) (connected c) v (version c) (room c) (brush c) (brushSize c)
    (brushSelection c) (replaceMode c) (deco c) (isChat c) (cid c) (_initial c).
Definition set_version (v : list (option Z)) (c : Client) : Client :=
  mkClient (socket c) (connected c) (nick c) v (room c) (brush c) (brushSize c)
    (brushSelection c) (replaceMode c) (deco c) (isChat c) (cid c) (_initial c).
Definition set_room (v : option rref) (c : Client) : Client :=
  mkClient (socket c) (connected c) (nick c) (version c) v (brush c) (brushSize c)
    (brushSelection c) (replaceMode c) (deco c) (isChat c) (cid c) (_initial c).
Definition set_brush (v : Z) (c : Client) : Client :=
  mkClient (socket c) (connected c) (nick c) (version c) (room c) v (brushSize c)
    (brushSelection c) (replaceMode c) (deco c) (isChat c) (cid c) (_initial c).
Definition set_brushSize (v : list Z) (c : Client) : Client :=
  mkClient (socket c) (connected c) (nick c) (version c) (room c) (brush c) v
    (brushSelection c) (replaceMode c) (deco c) (isChat c) (cid c) (_initial c).
Definition set_brushSelection (v : gmap Z (list Z)) (c : Client) : Client :=
  mkClient (socket c) (connected c) (nick c) (version c) (room c) (brush c) (brushSize c)
    v (replaceMode c) (deco c) (isChat c) (cid c) (_initial c).
Definition set_replaceMode (v : list Z) (c : Client) : Client :=
  mkClient (socket c) (connected c) (nick c) (version c) (room c) (brush c) (brushSize c)
    (brushSelection c) v (deco c) (isChat c) (cid c) (_initial c).
Definition set_deco (v : list Z) (c : Client) : Client :=
  mkClient (socket c) (connected c) (nick c) (version c) (room c) (brush c) (brushSize c)
    (brushSelection c) (replaceMode c) v (isChat c) (cid c) (_initial c).
Definition set_isChat (v : bool) (c : Client) : Client :=
  mkClient (socket c) (connected c) (nick c) (version c) (room c) (brush c) (brushSize c)
    (brushSelection c) (replaceMode c) (deco c) v (cid c) (_initial c).
Definition set_initial (v : bool) (c : Client) : Client :=
  mkClient (socket c) (connected c) (nick c) (version c) (room c) (brush c) (brushSize c)
    (brushSelection c) (replaceMode c) (deco c) (isChat c) (cid c) v.

Definition set_clients (v : list cref) (r : Room) : Room := mkRoom (name r) v (op r).
Definition set_op (v : jsval) (r : Room) : Room := mkRoom (name r) (clients r) v.

(** [Set] operations on the insertion-ordered member list. *)
Definition Set_has (c : cref) (l : list cref) : bool := bool_decide (c ∈ l).
Definition Set_add (c : cref) (l : list cref) : list cref :=
  if Set_has c l then l else l ++ [c].
Definition Set_delete (c : cref) (l : list cref) : list cref :=
  filter (λ x, x ≠ c) l.
(** [set.values().next().value] *)
Definition Set_first (l : list cref) : jsval :=
  match l with [] => JUndefined | c :: _ => JClient c end.

(** ** The monad of synchronous code *)

Inductive js_error := TypeError (what : string).

Inductive res (A : Type) :=
| Ok (a : A) (σ : State)
| Throw (e : js_error) (σ : State).
Arguments Ok {A} a σ.
Arguments Throw {A} e σ.

Definition M (A : Type) : Type := State → res A.

Definition ret {A} (a : A) : M A := λ σ, Ok a σ.
Definition bind {A B} (m : M A) (k : A → M B) : M B :=
  λ σ, match m σ with Ok a σ' => k a σ' | Throw e σ' => Throw e σ' end.
Definition throw {A} (e : js_error) : M A := λ σ, Throw e σ.

Declare Scope js_scope.
Delimit Scope js_scope with js.
Notation "x <- m ;; k" := (bind m (λ x, k))
  (at level 100, m at next level, right associativity) : js_scope.
Notation "m ;;; k" := (bind m (λ _, k))
  (at level 100, right associativity) : js_scope.
Local Open Scope js_scope.

(** The state a computation leaves behind, whether it returned or threw. *)
Definition state_of {A} (r : res A) : State :=
  match r with Ok _ σ => σ | Throw _ σ => σ end.

(** Reading the store.  A reference the program holds is always in the
    store; the total lookup only spares a case that never occurs, and a
    field update of a reference out of the store changes nothing. *)
Definition get_state : M State := λ σ, Ok σ σ.
Definition the_client (c : cref) : M Client := λ σ, Ok (client_heap σ !!! c) σ.
Definition the_room (r : rref) : M Room := λ σ, Ok (room_heap σ !!! r) σ.

Definition update_client (c : cref) (f : Client → Client) : M unit :=
  λ σ, Ok () (mkState (alter f c (client_heap σ)) (room_heap σ)
                (server_clients σ) (server_rooms σ) (trace σ)).
Definition update_room (r : rref) (f : Room → Room) : M unit :=
  λ σ, Ok () (mkState (client_heap σ) (alter f r (room_heap σ))
                (server_clients σ) (server_rooms σ) (trace σ)).
Definition do_effect (e : effect) : M unit :=
  λ σ, Ok () (mkState (client_heap σ) (room_heap σ)
                (server_clients σ) (server_rooms σ) (trace σ ++ [e])).

(** [for (let x of l) body] *)
Fixpoint for_of {A} (l : list A) (body : A → M unit) : M unit :=
  match l with
  | [] => ret ()
  | x :: l' => body x ;;; for_of l' body
  end.

(** [socket.write(data)] and [socket.end()] *)
Definition socket_write (s : sock) (data : list Z) : M unit := do_effect (SocketWrite s data).
Definition socket_end (s : sock) : M unit := do_effect (SocketEnd s).

(** [Buffer.from(x)] where [x] is a string or [null]: [null] is refused. *)
Definition Buffer_from_string (o : option string) : M (list Z) :=
  match o with
  | Some s => ret (bytes_of_string s)
  | None => throw (TypeError "The first argument must be of type string or an instance of Buffer")
  end.

(** ** room.js *)

(** [Room.send(buf, except = {})], lines 21-26.  [except] is [None] for the
    default [{}], whose [id] is [undefined]. *)
Definition except_id (except : option cref) : M jsval :=
  match except with
  | None => ret JUndefined
  | Some e => x <- the_client e ;; ret (num_val (cid x))
  end.

Definition Room_send (r : rref) (buf : list Z) (except : option cref) : M unit :=
  R <- the_room r ;;
  for_of (clients R) (λ m,
    client <- the_client m ;;
    eid <- except_id except ;;
    if strict_eq (num_val (cid client)) eid then ret ()
    else socket_write (socket client) buf).

(** [Room.requestSync(client)], lines 31-39: the loop returns at the first
    member that is not in chat mode and has another id. *)
Fixpoint requestSync_loop (l : list cref) (client : cref) : M unit :=
  match l with
  | [] => ret ()
  | m :: l' =>
      M_ <- the_client m ;;
      C <- the_client client ;;
      if isChat M_ then requestSync_loop l' client
      else if strict_eq (num_val (cid C)) (num_val (cid M_)) then requestSync_loop l' client
      else socket_write (socket M_) (Buffer_from [128; to_uint8 (cid C)])
  end.

Definition Room_requestSync (r : rref) (client : cref) : M unit :=
  R <- the_room r ;;
  if bool_decide (length (clients R) = 0%nat) then ret ()
  else requestSync_loop (clients R) client.

(** The frames of lines 55-65 for one member [m], written to socket [s]. *)
Definition spread_selection (M_ : Client) (i : Z) : M (list Z) :=
  match brushSelection M_ !! i with
  | Some sel => ret sel
  | None => throw (TypeError "undefined is not iterable")
  end.

Definition replay_member (s : sock) (m : cref) : M unit :=
  M_ <- the_client m ;;
  for_of (seqZ 0 (brush M_)) (λ _,
    socket_write s (Buffer_from [35; to_uint8 (cid M_)])) ;;;
  socket_write s (Buffer_from ([34; to_uint8 (cid M_)] ++ brushSize M_)) ;;;
  for_of (seqZ 0 4) (λ i,
    sel <- spread_selection M_ i ;;
    socket_write s (Buffer_from ([37; to_uint8 (cid M_)] ++ sel))) ;;;
  socket_write s (Buffer_from ([38; to_uint8 (cid M_)] ++ replaceMode M_)) ;;;
  socket_write s (Buffer_from ([65; to_uint8 (cid M_)] ++ deco M_)).

(** [Room.join(client)], lines 45-71. *)
Definition Room_join (r : rref) (client : cref) : M unit :=
  R <- the_room r ;;
  if Set_has client (clients R) then ret () else
  C <- the_client client ;;
  (if bool_decide (length (clients R) = 0%nat)
   then update_room r (set_op (num_val (cid C))) else ret ()) ;;;
  do_effect (RoomEmit r (RJoin client)) ;;;
  socket_write (socket C) (Buffer_from [16; Z.of_nat (length (clients R))]) ;;;
  for_of (clients R) (λ m,
    M_ <- the_client m ;;
    nm <- Buffer_from_string (nick M_) ;;
    socket_write (socket C) (Buffer_from ([to_uint8 (cid M_)] ++ nm ++ [0]))) ;;;
  for_of (clients R) (replay_member (socket C)) ;;;
  nc <- Buffer_from_string (nick C) ;;
  Room_send r (Buffer_from ([17; to_uint8 (cid C)] ++ nc ++ [0])) (Some client) ;;;
  Room_requestSync r client ;;;
  update_room r (λ R', set_clients (Set_add client (clients R')) R').

(** [Room.part(client)], lines 77-82. *)
Definition Room_part (r : rref) (client : cref) : M unit :=
  do_effect (RoomEmit r (RPart client)) ;;;
  update_room r (λ R, set_clients (Set_delete client (clients R)) R) ;;;
  R <- the_room r ;;
  C <- the_client client ;;
  (if strict_eq (op R) (num_val (cid C))
   then update_room r (set_op (Set_first (clients R))) else ret ()) ;;;
  Room_send r (Buffer_from [18; to_uint8 (cid C)]) (Some client).

(** ** server.js *)

(** The NUL character that frames the error strings written to a socket. *)
Definition NUL : string := String (ascii_of_byte 0) EmptyString.

Definition set_server_clients (f : gmap (option Z) cref → gmap (option Z) cref) : M unit :=
  λ σ, Ok () (mkState (client_heap σ) (room_heap σ)
                (f (server_clients σ)) (server_rooms σ) (trace σ)).
Definition set_server_rooms (f : gmap string rref → gmap string rref) : M unit :=
  λ σ, Ok () (mkState (client_heap σ) (room_heap σ)
                (server_clients σ) (f (server_rooms σ)) (trace σ)).

(** [new Room(server, name)]: a reference not yet in the store. *)
Definition Room_new (n : string) : M rref :=
  λ σ, let r := fresh (dom (room_heap σ)) in
       Ok r (mkState (client_heap σ) (<[r := new_Room n]> (room_heap σ))
               (server_clients σ) (server_rooms σ) (trace σ)).

(** [TPTMPServer.join(client, r)], lines 61-71. *)
Definition Server_join (client : cref) (r : string) : M rref :=
  σ <- get_state ;;
  room <- match server_rooms σ !! r with
          | Some room => ret room
          | None =>
              room <- Room_new r ;;
              set_server_rooms (insert r room) ;;;
              do_effect (ServerEmit (SRoomCreate room)) ;;;
              ret room
          end ;;
  Room_join room client ;;;
  do_effect (ServerEmit (SJoin client room)) ;;;
  ret room.

(** [TPTMPServer.part(client, room)], lines 78-86.  [room] is [None] when
    the caller passes [null]. *)
Definition Server_part (client : cref) (room : option rref) : M unit :=
  do_effect (ServerEmit (SPart client room)) ;;;
  match room with
  | None => throw (TypeError "Cannot read properties of null (reading 'part')")
  | Some r =>
      Room_part r client ;;;
      R <- the_room r ;;
      if bool_decide (length (clients R) = 0%nat) then
        do_effect (RoomEmit r RDelete) ;;;
        do_effect (ServerEmit (SRoomDelete r)) ;;;
        set_server_rooms (delete (name R))
      else ret ()
  end.

(** [TPTMPServer.disconnect(client, reason)], lines 93-96. *)
Definition Server_disconnect (client : cref) (reason : string) : M unit :=
  do_effect (ServerEmit (SDisconnect client reason)) ;;;
  C <- the_client client ;;
  set_server_clients (delete (cid C)).

(** ** client.js: the constructor and the methods *)

(** Lines 30-35: the lowest [i] below 256 that is not a key of
    [server.clients]. *)
Definition find_id (table : gmap (option Z) cref) : option Z :=
  List.find (λ i, bool_decide (table !! Some i = None)) (seqZ 0 256).

(** [new Client(server, socket)], lines 11-46.  The call of [dataHandler]
    that ends the constructor only starts the first read. *)
Definition Client_new (s : sock) : M cref :=
  λ σ, let client := fresh (dom (client_heap σ)) in
       Ok client
          (mkState (<[client := new_Client s (find_id (server_clients σ))]> (client_heap σ))
             (room_heap σ) (server_clients σ) (server_rooms σ)
             (trace σ ++ [SetTimeout s 90000])).

(** [TPTMPServer._connectionHandler(socket)], lines 45-53. *)
Definition Server_connectionHandler (s : sock) : M unit :=
  σ <- get_state ;;
  if bool_decide (255 ≤ size (server_clients σ))%nat then
    socket_write s (bytes_of_string
      (NUL +:+ "Server is full (" +:+ pretty (size (server_clients σ)) +:+ "/255)" +:+ NUL)) ;;;
    socket_end s
  else
    client <- Client_new s ;;
    C <- the_client client ;;
    set_server_clients (insert (cid C) client).

(** [Client.serverMessage(message, r = 127, g = 255, b = 255)], lines 449-451. *)
Definition Client_serverMessage (c : cref) (message : string) (r g b : Z) : M unit :=
  C <- the_client c ;;
  socket_write (socket C) (Buffer_from ([22] ++ bytes_of_string message ++ [0; r; g; b])).

(** [Client.sendToRoom(message, includeSelf = false)], lines 457-459. *)
Definition Client_sendToRoom (c : cref) (message : list Z) (includeSelf : bool) : M unit :=
  C <- the_client c ;;
  match room C with
  | Some r => Room_send r message (if includeSelf then None else Some c)
  | None => ret ()
  end.

(** [Client.join(r)], lines 416-420. *)
Definition Client_join (c : cref) (r : string) : M unit :=
  room <- Server_join c r ;;
  update_client c (set_room (Some room)) ;;;
  do_effect (ClientEmit c (CJoin r)).

(** [Client.part()], lines 426-430. *)
Definition Client_part (c : cref) : M unit :=
  do_effect (ClientEmit c CPart) ;;;
  C <- the_client c ;;
  Server_part c (room C) ;;;
  update_client c (set_room None).

(** [Client.disconnect(reason = 'Lost connection')], lines 406-411. *)
Definition Client_disconnect (c : cref) (reason : option string) : M unit :=
  let reason := default "Lost connection" reason in
  do_effect (ClientEmit c (CDisconnect reason)) ;;;
  Server_disconnect c reason ;;;
  C <- the_client c ;;
  socket_end (socket C) ;;;
  C <- the_client c ;;
  match room C with
  | Some _ => Client_part c
  | None => ret ()
  end.

(** [Client.kick(source, reason = 'No reason given')], lines 436-441. *)
Definition Client_kick (c source : cref) (reason : option string) : M unit :=
  let reason := default "No reason given" reason in
  S <- the_client source ;;
  let message := "You were kicked by " +:+ show_str (nick S) +:+ " (" +:+ reason +:+ ")" in
  Client_serverMessage c message 255 50 50 ;;;
  do_effect (ClientEmit c (CKicked source reason)) ;;;
  S <- the_client source ;;
  Client_disconnect c (Some ("Kicked by " +:+ show_str (nick S) +:+ " (" +:+ reason +:+ ")")).

(** The socket listeners installed at lines 42-45. *)
Definition on_timeout (c : cref) : M unit := Client_disconnect c (Some "Ping timeout").
Definition on_error (c : cref) (message : string) : M unit := Client_disconnect c (Some message).
Definition on_end (c : cref) : M unit := Client_disconnect c (Some "Client left").
Definition on_close (c : cref) : M unit := update_client c (set_connected false).

(** ** client.js: reading from the socket *)

(** What a read does with the bytes that have arrived on the socket: it
    resolves with a value and leaves the rest, or it stays pending on the
    next ['readable'] event. *)
Inductive read_res (A : Type) :=
| Got (a : A) (rest : list Z)
| Wait.
Arguments Got {A} a rest.
Arguments Wait {A}.

Definition Reader (A : Type) : Type := list Z → read_res A.

Definition rret {A} (a : A) : Reader A := λ inp, Got a inp.
Definition rbind {A B} (m : Reader A) (k : A → Reader B) : Reader B :=
  λ inp, match m inp with Got a rest => k a rest | Wait => Wait end.

Notation "x <~ m ;; k" := (rbind m (λ x, k))
  (at level 100, m at next level, right associativity) : js_scope.

(** [socket.read(n)] of a Node stream on the bytes [inp] that are
    buffered.  A call with [n] not positive consumes nothing and returns
    [null].  With at least [n] bytes buffered it returns the first [n].
    With fewer, it returns [null] while the peer has not ended the stream;
    once it has ([ended]), it returns the bytes that are left, fewer than
    [n], or [null] when none is left. *)
Definition socket_read (ended : bool) (n : Z) (inp : list Z) : option (list Z * list Z) :=
  if n <=? 0 then None
  else if n <=? Z.of_nat (length inp)
       then Some (take (Z.to_nat n) inp, drop (Z.to_nat n) inp)
       else if ended && negb (bool_decide (inp = [])) then Some (inp, [])
       else None.

(** [Client.readBytes(n)], lines 75-87: the promise resolves the first
    time [socket.read(n)] returns a buffer.  On a stream that has ended
    the buffer can be shorter than [n]. *)
Definition readBytes (ended : bool) (n : Z) : Reader (list Z) :=
  λ inp, match socket_read ended n inp with
         | Some (d, rest) => Got d rest
         | None => Wait
         end.

(** [Client.readUntilNull()], lines 52-69: bytes are read one at a time
    into [data] until a zero byte, which is consumed and not returned.  A
    read of one byte returns a byte exactly when one is buffered, whether
    the stream has ended or not. *)
Fixpoint readUntilNull_loop (data : list Z) (inp : list Z) : read_res (list Z) :=
  match inp with
  | [] => Wait
  | d :: rest => if d =? 0 then Got data rest else readUntilNull_loop (data ++ [d]) rest
  end.

Definition readUntilNull : Reader (list Z) := readUntilNull_loop [].

(** ** client.js: [dataHandler] *)

(** What [dataHandler] reads from the module [./constants]: the version
    window, the script version and the opcodes allowed in a
    sync-properties reply. *)
Record Constants := mkConstants {
  MAJOR_MIN : Z;
  MINOR_MIN : Z;
  MAJOR_MAX : Z;
  MINOR_MAX : Z;
  SCRIPT : Z;
  VALID_130 : list Z
}.

(** Comparisons of a byte that may be missing from the buffer
    ([undefined]) with a number: every comparison with [undefined] is
    false, so [!==] is true. *)
Definition js_lt (a : option Z) (b : Z) : bool :=
  match a with Some x => x <? b | None => false end.
Definition js_gt (a : option Z) (b : Z) : bool :=
  match a with Some x => b <? x | None => false end.
Definition js_eq (a : option Z) (b : Z) : bool :=
  match a with Some x => x =? b | None => false end.

(** [(data[i] << 16) + (data[j] << 8) + data[k]] on bytes. *)
Definition be24 (a b c : Z) : Z := Z.shiftl a 16 + Z.shiftl b 8 + c.

Section Session.

Variable constants : Constants.

(** [server.hooks]: three predicates supplied by the host. *)
Variable hooks_connect : Client → bool.
Variable hooks_join : Client → string → bool.
Variable hooks_message : Client → string → bool.

(** Line 135-142: some entry of [server.clients] other than this client's
    own id has the nick. *)
Definition nick_taken (σ : State) (c : cref) (n : string) : bool :=
  existsb (λ kv : option Z * cref,
             bool_decide (nick (client_heap σ !!! kv.2) = Some n)
             && negb (strict_eq (num_val kv.1) (num_val (cid (client_heap σ !!! c)))))
          (map_to_list (server_clients σ)).

(** Lines 95-147, after [buf] has been read.  The result says whether the
    function goes on to the main loop. *)
Definition handshake (c : cref) (buf : list Z) : M bool :=
  update_client c (set_initial false) ;;;
  update_client c (set_version [buf !! 0%nat; buf !! 1%nat; buf !! 2%nat]) ;;;
  let major := buf !! 0%nat in
  let minor := buf !! 1%nat in
  let scriptVer := buf !! 2%nat in
  C <- the_client c ;;
  if js_lt major (MAJOR_MIN constants)
     || js_eq major (MAJOR_MIN constants) && js_lt minor (MINOR_MIN constants)
  then
    socket_write (socket C) (bytes_of_string
      (NUL +:+ "Client out of date (expected at least " +:+ pretty (MAJOR_MIN constants)
           +:+ "." +:+ pretty (MINOR_MIN constants) +:+ ")" +:+ NUL)) ;;;
    Client_disconnect c (Some ("Old version: " +:+ show_num major +:+ "." +:+ show_num minor)) ;;;
    ret false
  else if js_gt major (MAJOR_MAX constants)
     || js_eq major (MAJOR_MAX constants) && js_gt minor (MINOR_MAX constants)
  then
    socket_write (socket C) (bytes_of_string
      (NUL +:+ "Client too new (expected at most " +:+ pretty (MAJOR_MAX constants)
           +:+ "." +:+ pretty (MINOR_MAX constants) +:+ ")" +:+ NUL)) ;;;
    Client_disconnect c (Some ("New version: " +:+ show_num major +:+ "." +:+ show_num minor)) ;;;
    ret false
  else if negb (js_eq scriptVer (SCRIPT constants))
  then
    (* [this.constants] is not a property of a [Client]: building the
       argument of [write] reads [SCRIPT] from [undefined] *)
    throw (TypeError "Cannot read properties of undefined (reading 'SCRIPT')")
  else
    let nick_ := toString (drop 3 buf) in
    update_client c (set_nick (Some nick_)) ;;;
    if negb (match_name nick_) then
      socket_write (socket C) (bytes_of_string (NUL +:+ "Bad nickname" +:+ NUL)) ;;;
      Client_disconnect c (Some "Invalid nickname") ;;;
      ret false
    else if 32 <? str_length nick_ then
      socket_write (socket C) (bytes_of_string (NUL +:+ "Nick too long" +:+ NUL)) ;;;
      update_client c (set_nick (Some (String.substring 0 64 nick_))) ;;;
      Client_disconnect c (Some ("Nick was too long (" +:+ pretty (str_length nick_) +:+ ")")) ;;;
      ret false
    else
      σ <- get_state ;;
      if nick_taken σ c nick_ then
        socket_write (socket C)
          (bytes_of_string (NUL +:+ "This nick is already on the server" +:+ NUL)) ;;;
        Client_disconnect c (Some ("Nick taken (" +:+ nick_ +:+ ")")) ;;;
        ret false
      else
        socket_write (socket C) [1] ;;;
        do_effect (ClientEmit c CIdentified) ;;;
        do_effect (ServerEmit (SNewClient c)) ;;;
        C' <- the_client c ;;
        if negb (hooks_connect C') then ret false
        else Client_join c "null" ;;; ret true.

(** The rows of the switch that only forward: [[cmd, this.id, ...data]]
    goes to the room, the sender excluded. *)
Definition relay (c : cref) (cmd : Z) (data : list Z) : M unit :=
  C <- the_client c ;;
  Client_sendToRoom c (Buffer_from ([cmd; to_uint8 (cid C)] ++ data)) false.

(** [this.room.send(buf, this)] of lines 175 and 190, which reads [send]
    from [this.room] without a test. *)
Definition room_send_unchecked (c : cref) (buf : list Z) : M unit :=
  C <- the_client c ;;
  match room C with
  | Some r => Room_send r buf (Some c)
  | None => throw (TypeError "Cannot read properties of null (reading 'send')")
  end.

(** Cases 19 and 20, after the message has been read. *)
Definition chat (c : cref) (cmd : Z) (shown : string → string) (message : string) : M unit :=
  if negb (match_printable message) then
    Client_serverMessage c "Invalid characters in message" 127 255 255
  else if 200 <? str_length message then
    Client_serverMessage c "Message too long" 127 255 255
  else
    C <- the_client c ;;
    if negb (hooks_message C message) then ret ()
    else
      do_effect (ServerEmit (SChat c (shown message))) ;;;
      C <- the_client c ;;
      room_send_unchecked c
        (Buffer_from ([cmd; to_uint8 (cid C)] ++ bytes_of_string message ++ [0])).

(** Lines 210-215: the first member with the nick is kicked. *)
Definition kick_first (c : cref) (members : list cref) (nick_ : string)
    (reason : string) : M unit :=
  σ <- get_state ;;
  match List.find (λ m, bool_decide (nick (client_heap σ !!! m) = Some nick_)) members with
  | Some m => Client_kick m c (if decide (reason = EmptyString) then None else Some reason)
  | None => ret ()
  end.

(** Case 21, after the nick and the reason have been read. *)
Definition kick_command (c : cref) (nick_ reason : string) : M unit :=
  if negb (match_printable reason) then
    Client_serverMessage c "Invalid characters in kick reason" 127 255 255
  else if 200 <? str_length reason then
    Client_serverMessage c "Kick reason too long" 127 255 255
  else
    C <- the_client c ;;
    match room C with
    | None => throw (TypeError "Cannot read properties of null (reading 'name')")
    | Some r =>
        R <- the_room r ;;
        if bool_decide (name R = "null") then
          Client_serverMessage c "You can't kick people from the lobby" 127 255 255
        else if negb (strict_eq (op R) (num_val (cid C))) then
          Client_serverMessage c "You can't kick people from here" 127 255 255
        else kick_first c (clients R) nick_ reason
    end.

(** Case 37, after [data] has been read: two bytes, or one byte when
    the stream ended behind it ([data[1]] is then [undefined], which
    [!==] 195). *)
Definition select_element (c : cref) (data : list Z) : M unit :=
  let button := (data !!! 0%nat) / 64 in
  if negb (js_eq (data !! 0%nat) 194) && negb (js_eq (data !! 1%nat) 195) then
    update_client c (λ C, set_brushSelection (<[button + 1 := data]> (brushSelection C)) C) ;;;
    relay c 37 data
  else
    update_client c (set_isChat true).

(** Case 128, after the header and the stamp have been read. *)
Definition sync_reply (data stamp : list Z) : M unit :=
  σ <- get_state ;;
  match server_clients σ !! Some (data !!! 0%nat) with
  | None => ret ()
  | Some client =>
      T <- the_client client ;;
      socket_write (socket T) (Buffer_from ([129] ++ drop 1 data ++ stamp))
  end.

(** Case 130, after [data] has been read: three bytes, or fewer when the
    stream ended behind them.  A missing [data[1]] is [undefined], which
    the list does not include; a missing [data[2]] is stored as 0 by
    [Buffer.from]. *)
Definition sync_properties_reply (c : cref) (data : list Z) : M unit :=
  σ <- get_state ;;
  match server_clients σ !! Some (data !!! 0%nat) with
  | None => ret ()
  | Some client =>
      match data !! 1%nat with
      | None => ret ()
      | Some command =>
          if negb (bool_decide (command ∈ VALID_130 constants)) then ret ()
          else
            T <- the_client client ;;
            C <- the_client c ;;
            socket_write (socket T)
              (Buffer_from [command; to_uint8 (cid C); to_uint8 (data !! 2%nat)])
      end
  end.

(** The switch of lines 152-399 on the opcode [cmd]: the reads of the
    case, then the synchronous rest of the case.  In every case all the
    reads come first, so a case that is still waiting for bytes has
    changed nothing.  [ended] says whether the peer has ended the stream
    behind the bytes at hand: a read that finds fewer bytes than it asks
    for then returns them (and leaves none, so that a second read of the
    case, whatever size the first gave it, stays pending), where on an
    open stream it waits. *)
Definition dispatch (ended : bool) (c : cref) (cmd : Z) : Reader (M unit) :=
  match cmd with
  | 16 =>
      r <~ readUntilNull ;;
      let r := toString r in
      rret (if negb (match_name r) || (32 <? str_length r) then
              Client_serverMessage c "Invalid room name" 127 255 255
            else
              C <- the_client c ;;
              if negb (hooks_join C r) then ret ()
              else Client_part c ;;; Client_join c r)
  | 19 =>
      message <~ readUntilNull ;;
      rret (chat c 19 (λ m, m) (toString message))
  | 20 =>
      message <~ readUntilNull ;;
      rret (chat c 20 (λ m, "* " +:+ m) (toString message))
  | 21 =>
      nick_ <~ readUntilNull ;;
      reason <~ readUntilNull ;;
      rret (kick_command c (toString nick_) (toString reason))
  | 2 => rret (ret ())
  | 32 => data <~ readBytes ended 3 ;; rret (relay c 32 data)
  | 33 => data <~ readBytes ended 1 ;; rret (relay c 33 data)
  | 34 =>
      data <~ readBytes ended 2 ;;
      rret (update_client c (set_brushSize data) ;;; relay c 34 data)
  | 35 =>
      rret (update_client c (λ C, set_brush (brush C `mod` 3 + 1) C) ;;; relay c 35 [])
  | 36 => data <~ readBytes ended 1 ;; rret (relay c 36 data)
  | 37 => data <~ readBytes ended 2 ;; rret (select_element c data)
  | 38 =>
      data <~ readBytes ended 1 ;;
      rret (update_client c (set_replaceMode data) ;;; relay c 38 data)
  | 48 => data <~ readBytes ended 1 ;; rret (relay c 48 data)
  | 49 => data <~ readBytes ended 1 ;; rret (relay c 49 data)
  | 50 => rret (relay c 50 [])
  | 51 => data <~ readBytes ended 1 ;; rret (relay c 51 data)
  | 52 => data <~ readBytes ended 1 ;; rret (relay c 52 data)
  | 53 => data <~ readBytes ended 1 ;; rret (relay c 53 data)
  | 54 => data <~ readBytes ended 1 ;; rret (relay c 54 data)
  | 55 => data <~ readBytes ended 1 ;; rret (relay c 55 data)
  | 56 => data <~ readBytes ended 1 ;; rret (relay c 56 data)
  | 57 => data <~ readBytes ended 1 ;; rret (relay c 57 data)
  | 58 => data <~ readBytes ended 1 ;; rret (relay c 58 data)
  | 59 => data <~ readBytes ended 1 ;; rret (relay c 59 data)
  | 60 => rret (relay c 60 [])
  | 61 => rret (relay c 61 [])
  | 62 => rret (relay c 62 [])
  | 63 => rret (relay c 63 [])
  | 64 => data <~ readBytes ended 3 ;; rret (relay c 64 data)
  | 65 =>
      data <~ readBytes ended 4 ;;
      rret (update_client c (set_deco data) ;;; relay c 65 data)
  | 66 =>
      data <~ readBytes ended 6 ;;
      let location := take 3 data in
      let size := be24 (data !!! 3%nat) (data !!! 4%nat) (data !!! 5%nat) in
      stamp <~ readBytes ended size ;;
      rret (C <- the_client c ;;
            Client_sendToRoom c
              (Buffer_from ([66; to_uint8 (cid C)] ++ location
                            ++ [data !!! 3%nat; data !!! 4%nat; data !!! 5%nat] ++ stamp))
              false)
  | 67 => data <~ readBytes ended 6 ;; rret (relay c 67 data)
  | 68 => data <~ readBytes ended 1 ;; rret (relay c 68 data)
  | 69 => data <~ readBytes ended 3 ;; rret (relay c 69 data)
  | 70 => rret (relay c 70 [])
  | 128 =>
      data <~ readBytes ended 4 ;;
      let size := be24 (data !!! 1%nat) (data !!! 2%nat) (data !!! 3%nat) in
      stamp <~ readBytes ended size ;;
      rret (sync_reply data stamp)
  | 130 => data <~ readBytes ended 3 ;; rret (sync_properties_reply c data)
  | _ => rret (ret ())
  end.

(** One turn of the loop of lines 150-400, on a stream that is open or
    has ended. *)
Definition iteration_on (ended : bool) (c : cref) : Reader (M unit) :=
  cmd <~ readBytes ended 1 ;;
  dispatch ended c (cmd !!! 0%nat).

(** A turn while the stream is open. *)
Definition iteration (c : cref) : Reader (M unit) := iteration_on false c.

(** How a run of the loop over the bytes at hand ends: suspended in a
    read with [inp] not yet consumed by a finished turn, ended by an
    exception (the promise of [dataHandler] is rejected), or left because
    [this.connected] is false. *)
Inductive session :=
| Suspended (inp : list Z) (σ : State)
| Rejected (e : js_error) (σ : State)
| Left (σ : State).

(** Lines 150-400, over bytes that have arrived on a stream that is still
    open.  Each turn consumes at least the opcode byte, so [fuel] larger
    than the number of bytes never runs out. *)
Fixpoint main_loop (fuel : nat) (c : cref) (inp : list Z) (σ : State) : option session :=
  match fuel with
  | O => None
  | S fuel' =>
      if connected (client_heap σ !!! c) then
        match iteration c inp with
        | Wait => Some (Suspended inp σ)
        | Got act rest =>
            match act σ with
            | Ok _ σ' => main_loop fuel' c rest σ'
            | Throw e σ' => Some (Rejected e σ')
            end
        end
      else Some (Left σ)
  end.

(** ** The server as a transition system *)

(** Every way the store changes: a connection arrives, the handshake
    record of a client has been read, a client's loop takes one turn (on
    an open stream or on the last bytes of one that has ended), or a
    socket of a client fires one of its events. *)
Inductive step : State → State → Prop :=
| step_connection σ s :
    step σ (state_of (Server_connectionHandler s σ))
| step_handshake σ c buf :
    is_Some (client_heap σ !! c) →
    Forall is_byte buf →
    step σ (state_of (handshake c buf σ))
| step_iteration σ c ended inp act rest :
    is_Some (client_heap σ !! c) →
    Forall is_byte inp →
    iteration_on ended c inp = Got act rest →
    step σ (state_of (act σ))
| step_timeout σ c :
    is_Some (client_heap σ !! c) →
    step σ (state_of (on_timeout c σ))
| step_error σ c message :
    is_Some (client_heap σ !! c) →
    step σ (state_of (on_error c message σ))
| step_end σ c :
    is_Some (client_heap σ !! c) →
    step σ (state_of (on_end c σ))
| step_close σ c :
    is_Some (client_heap σ !! c) →
    step σ (state_of (on_close c σ)).

(** The store of a server that has just been constructed (server.js lines
    16-30). *)
Definition initial_state : State := mkState ∅ ∅ ∅ ∅ [].

Inductive reachable : State → Prop :=
| reachable_initial : reachable initial_state
| reachable_step σ σ' : reachable σ → step σ σ' → reachable σ'.

End Session.

(** ** Vocabulary of the statements *)

(** The store with more effects at the end of its trace, and the store
    with another table of clients or of rooms. *)
Definition add_trace (σ : State) (es : list effect) : State :=
  mkState (client_heap σ) (room_heap σ) (server_clients σ) (server_rooms σ)
    (trace σ ++ es).

Definition with_clients (σ : State) (h : gmap nat Client) : State :=
  mkState h (room_heap σ) (server_clients σ) (server_rooms σ) (trace σ).

Definition with_rooms (σ : State) (h : gmap nat Room) : State :=
  mkState (client_heap σ) h (server_clients σ) (server_rooms σ) (trace σ).

(** [m], run in [σ] with any effects already appended, returns after
    appending [W] and nothing else. *)
Definition emits (m : M unit) (σ : State) (W : list effect) : Prop :=
  ∀ es, m (add_trace σ es) = Ok () (add_trace σ (es ++ W)).

(** The ids of the members of a room. *)
Definition member_ids (σ : State) (R : Room) : list jsval :=
  (λ m, num_val (cid (client_heap σ !!! m))) <$> clients R.

(** The members [Room.send] writes to: those whose id is not the id of
    [except]. *)
Definition except_val (σ : State) (except : option cref) : jsval :=
  match except with
  | None => JUndefined
  | Some e => num_val (cid (client_heap σ !!! e))
  end.

Definition send_targets (σ : State) (members : list cref) (except : option cref) : list cref :=
  filter (λ m, num_val (cid (client_heap σ !!! m)) ≠ except_val σ except) members.

Definition send_writes (σ : State) (members : list cref) (buf : list Z)
    (except : option cref) : list effect :=
  (λ m, SocketWrite (socket (client_heap σ !!! m)) buf) <$> send_targets σ members except.

(** What [sendToRoom] writes for client [c]. *)
Definition room_writes (σ : State) (c : cref) (message : list Z) : list effect :=
  match room (client_heap σ !!! c) with
  | Some r => send_writes σ (clients (room_heap σ !!! r)) message (Some c)
  | None => []
  end.

(** The room [R] after [Room.part(c)]. *)
Definition parted_room (σ : State) (c : cref) (R : Room) : Room :=
  let members := Set_delete c (clients R) in
  mkRoom (name R) members
    (if strict_eq (op R) (num_val (cid (client_heap σ !!! c)))
     then Set_first members else op R).

(** The store after case 35 for client [c]. *)
Definition shape_changed (σ : State) (c : cref) : State :=
  let σ' := with_clients σ
      (alter (λ C, set_brush (brush C `mod` 3 + 1) C) c (client_heap σ)) in
  add_trace σ' (room_writes σ' c (Buffer_from [35; to_uint8 (cid (client_heap σ' !!! c))])).

(** The frame of [serverMessage] with the default colour. *)
Definition server_message_frame (message : string) : list Z :=
  [22] ++ bytes_of_string message ++ [0; 127; 255; 255].

(** The three effects every call of [disconnect] causes. *)
Definition disconnect_effects (σ : State) (c : cref) (reason : option string) : list effect :=
  [ClientEmit c (CDisconnect (default "Lost connection" reason));
   ServerEmit (SDisconnect c (default "Lost connection" reason));
   SocketEnd (socket (client_heap σ !!! c))].

(** The ['disconnect'] events of clients and of the server in a trace. *)
Definition is_client_disconnect (e : effect) : bool :=
  match e with ClientEmit _ (CDisconnect _) => true | _ => false end.
Definition is_server_disconnect (e : effect) : bool :=
  match e with ServerEmit (SDisconnect _ _) => true | _ => false end.
Definition count_effects (p : effect → bool) (t : list effect) : nat :=
  length (List.filter p t).

(** The lifecycle of a client in a trace: the ['disconnect'] events, the
    end of a socket, and the ['part'] events of clients, of the server and
    of rooms. *)
Definition is_socket_end (e : effect) : bool :=
  match e with SocketEnd _ => true | _ => false end.
Definition is_part (e : effect) : bool :=
  match e with
  | ClientEmit _ CPart | ServerEmit (SPart _ _) | RoomEmit _ (RPart _) => true
  | _ => false
  end.
Definition is_lifecycle (e : effect) : bool :=
  is_client_disconnect e || is_server_disconnect e || is_socket_end e || is_part e.

(** The ['part'] events of a client that leaves the room it is in, if it
    is in one. *)
Definition part_events (σ : State) (c : cref) : list effect :=
  match room (client_heap σ !!! c) with
  | Some r => [ClientEmit c CPart; ServerEmit (SPart c (Some r)); RoomEmit r (RPart c)]
  | None => []
  end.

(** [(major, minor)] lies in the configured window. *)
Definition in_window (constants : Constants) (major minor : Z) : Prop :=
  (MAJOR_MIN constants < major ∨ major = MAJOR_MIN constants ∧ MINOR_MIN constants ≤ minor)
  ∧ (major < MAJOR_MAX constants ∨ major = MAJOR_MAX constants ∧ minor ≤ MINOR_MAX constants).

(** The member [requestSync] asks, if any, and what it is sent. *)
Definition sync_target (σ : State) (members : list cref) (client : cref) : option cref :=
  List.find (λ m, negb (isChat (client_heap σ !!! m))
                  && negb (strict_eq (num_val (cid (client_heap σ !!! client)))
                                     (num_val (cid (client_heap σ !!! m))))) members.

Definition sync_writes (σ : State) (members : list cref) (client : cref) : list effect :=
  match sync_target σ members client with
  | Some m => [SocketWrite (socket (client_heap σ !!! m))
                 (Buffer_from [128; to_uint8 (cid (client_heap σ !!! client))])]
  | None => []
  end.

(** The frames of the join replay. *)
Definition nick_bytes (C : Client) : list Z :=
  match nick C with Some s => bytes_of_string s | None => [] end.

Definition roster_frame (M_ : Client) : list Z :=
  Buffer_from ([to_uint8 (cid M_)] ++ nick_bytes M_ ++ [0]).

Definition selection_frame (M_ : Client) (i : Z) : list Z :=
  Buffer_from ([37; to_uint8 (cid M_)] ++ default [] (brushSelection M_ !! i)).

Definition state_frames (M_ : Client) : list (list Z) :=
  replicate (Z.to_nat (brush M_)) (Buffer_from [35; to_uint8 (cid M_)])
  ++ [Buffer_from ([34; to_uint8 (cid M_)] ++ brushSize M_)]
  ++ (selection_frame M_ <$> [0; 1; 2; 3])
  ++ [Buffer_from ([38; to_uint8 (cid M_)] ++ replaceMode M_);
      Buffer_from ([65; to_uint8 (cid M_)] ++ deco M_)].

Definition join_frame (C : Client) : list Z :=
  Buffer_from ([17; to_uint8 (cid C)] ++ nick_bytes C ++ [0]).

(** A member that can be replayed: it has a nick and its four selections. *)
Definition replayable (M_ : Client) : Prop :=
  is_Some (nick M_) ∧ Forall (λ i, is_Some (brushSelection M_ !! i)) [0; 1; 2; 3].

(** Everything [Room.join] emits for a joiner [c] outside the room, in
    order. *)
Definition join_effects (σ : State) (r c : cref) : list effect :=
  let R := room_heap σ !!! r in
  let C := client_heap σ !!! c in
  [RoomEmit r (RJoin c)]
  ++ [SocketWrite (socket C) (Buffer_from [16; Z.of_nat (length (clients R))])]
  ++ ((λ m, SocketWrite (socket C) (roster_frame (client_heap σ !!! m))) <$> clients R)
  ++ (clients R ≫= λ m, SocketWrite (socket C) <$> state_frames (client_heap σ !!! m))
  ++ send_writes σ (clients R) (join_frame C) (Some c)
  ++ sync_writes σ (clients R) c.

(** The room [R] after [Room.join(c)] of a client outside it. *)
Definition joined_room (σ : State) (c : cref) (R : Room) : Room :=
  mkRoom (name R) (clients R ++ [c])
    (if bool_decide (length (clients R) = 0%nat)
     then num_val (cid (client_heap σ !!! c)) else op R).

(** The store after [v] has been stored at index [i] of the selections
    of [m]. *)
Definition store_selection (σ : State) (m : cref) (i : Z) (v : list Z) : State :=
  with_clients σ
    (alter (λ C, set_brushSelection (<[i := v]> (brushSelection C)) C) m (client_heap σ)).

(** Two clients that the join replay cannot tell apart. *)
Definition same_replay (C C' : Client) : Prop :=
  socket C' = socket C ∧ nick C' = nick C ∧ cid C' = cid C ∧ isChat C' = isChat C
  ∧ brush C' = brush C ∧ brushSize C' = brushSize C ∧ replaceMode C' = replaceMode C
  ∧ deco C' = deco C
  ∧ Forall (λ i, brushSelection C' !! i = brushSelection C !! i) [0; 1; 2; 3].

(** Every [Client] in the store still has its initial selection at index 0. *)
Definition first_selection_kept (σ : State) : Prop :=
  ∀ c C, client_heap σ !! c = Some C → brushSelection C !! 0 = Some [0; 1].

(** [m] keeps [first_selection_kept], whether it returns or throws. *)
Definition preserves {A} (m : M A) : Prop :=
  ∀ σ, first_selection_kept σ → first_selection_kept (state_of (m σ)).

(** Whatever action a reader yields on bytes keeps the invariant. *)
Definition reads_ok (m : Reader (M unit)) : Prop :=
  ∀ inp act rest, Forall is_byte inp → m inp = Got act rest → preserves act.

(** A reader leaves bytes, and no more of them than it was given. *)
Definition reads_shrink {A} (m : Reader A) : Prop :=
  ∀ inp a rest, Forall is_byte inp → m inp = Got a rest →
    (length rest ≤ length inp)%nat ∧ Forall is_byte rest.

(** ** A scenario *)

(** Modelled from the spec: the values of [./constants], a module the
    sources do not include, as in the first end-to-end scenario (window
    1.2 to 1.9, script version 0) with the smallest whitelist the spec
    allows for opcode 130. *)
Definition ex_constants : Constants := mkConstants 1 2 1 9 0 [34; 35; 37; 38; 65].
(** The default hooks of server.js line 6, which accept everything. *)
Definition accept (_ : Client) : bool := true.
Definition accept2 (_ : Client) (_ : string) : bool := true.

Definition ex_handshake : cref → list Z → M bool := handshake ex_constants accept.
Definition ex_iteration : cref → Reader (M unit) := iteration ex_constants accept2 accept2.
Definition ex_main_loop : nat → cref → list Z → State → option session :=
  main_loop ex_constants accept2 accept2.
Definition ex_reachable : State → Prop := reachable ex_constants accept accept2 accept2.

(** The store [m] leaves. *)
Definition run {A} (m : M A) (σ : State) : State := state_of (m σ).

(** A connection on socket 7 becomes client 0. *)
Definition σ_connected : State := run (Server_connectionHandler 7%nat) initial_state.

(** Client 0 identifies as alice and is in the lobby. *)
Definition σ_alice : State :=
  run (ex_handshake 0%nat ([1; 2; 0] ++ bytes_of_string "alice")) σ_connected.

(** A connection on socket 8 becomes client 1, bob, in the lobby too. *)
Definition σ_lobby : State :=
  run (ex_handshake 1%nat ([1; 2; 0] ++ bytes_of_string "bob"))
    (run (Server_connectionHandler 8%nat) σ_alice).

(** What the loop of a client leaves after the bytes [inp]. *)
Definition after_input (c : cref) (inp : list Z) (σ : State) : State :=
  match ex_main_loop (S (length inp)) c inp σ with
  | Some (Suspended _ σ') => σ'
  | Some (Rejected _ σ') => σ'
  | Some (Left σ') => σ'
  | None => σ
  end.

(** Alice moves to the room r1, changes her brush shape twice, sets her
    brush size to (5,5) and her decoration colour to (10,20,30,40). *)
Definition σ_r1 : State :=
  after_input 0%nat
    ([16] ++ bytes_of_string "r1" ++ [0; 35; 35; 34; 5; 5; 65; 10; 20; 30; 40]) σ_lobby.

(** 255 connections on socket 9, none of which has said anything yet. *)
Definition σ_full : State :=
  Nat.iter 255 (run (Server_connectionHandler 9%nat)) initial_state.

(** Bob follows alice into r1, where alice is the operator. *)
Definition σ_both : State :=
  after_input 1%nat ([16] ++ bytes_of_string "r1" ++ [0]) σ_r1.

(** Alice moves on to r2 and leaves bob alone in r1. *)
Definition σ_bob_alone : State :=
  after_input 0%nat ([16] ++ bytes_of_string "r2" ++ [0]) σ_both.

(** Another history.  Client 0, on socket 7, says nothing and runs into
    its timeout, which disconnects it. *)
Definition σ_timed_out : State := run (on_timeout 0%nat) σ_connected.

(** The next connection, on socket 8, becomes client 1 and is given the id
    0 again; it identifies as bob and is in the lobby. *)
Definition σ_reused : State :=
  run (ex_handshake 1%nat ([1; 2; 0] ++ bytes_of_string "bob"))
    (run (Server_connectionHandler 8%nat) σ_timed_out).

(** Now the peer of socket 7 closes its side: ['end'] disconnects client
    0 a second time. *)
Definition σ_evicted : State := run (on_end 0%nat) σ_reused.

(** A third connection, on socket 9, becomes client 2. *)
Definition σ_shared : State := run (Server_connectionHandler 9%nat) σ_evicted.

(** Client 2 identifies as carol.  This is the store in which its
    handshake calls [join('null')]: the fields of lines 97-133 are set and
    lines 143-145 have run. *)
Definition σ_joining : State :=
  add_trace
    (with_clients σ_shared
       (alter (set_nick (Some "carol")) 2%nat
          (alter (set_version [Some 1; Some 2; Some 0]) 2%nat
             (alter (set_initial false) 2%nat (client_heap σ_shared)))))
    [SocketWrite 9 [1]; ClientEmit 2 CIdentified; ServerEmit (SNewClient 2)].

(** ** Invariants of the reachable stores *)

(** [m] keeps the property [I] of stores, whether it returns or throws. *)
Definition keeps (I : State → Prop) {A} (m : M A) : Prop :=
  ∀ σ, I σ → I (state_of (m σ)).

(** Whatever action a reader yields on bytes keeps [I]. *)
Definition reads_keep (I : State → Prop) (m : Reader (M unit)) : Prop :=
  ∀ inp act rest, Forall is_byte inp → m inp = Got act rest → keeps I act.

(** The cap: the table of clients never holds more than 255 entries. *)
Definition under_cap (σ : State) : Prop := (size (server_clients σ) ≤ 255)%nat.

(** Every key of the table of clients is a number below 256, and the
    client stored under it is in the store and has that number as its id. *)
Definition table_keyed_by_id (σ : State) : Prop :=
  ∀ k c, server_clients σ !! k = Some c →
    ∃ i C, k = Some i ∧ is_byte i ∧ client_heap σ !! c = Some C ∧ cid C = Some i.

(** The mirror of a client is within bounds: the shape counter is within
    0..3, the size is one or two bytes, the selections are one or two
    bytes each, at indices within 0..4 with 0..3 all present, the replace
    mode is one byte and the decoration colour one to four.  A read that
    the end of the stream cuts short stores fewer bytes than the frame
    has, but never none. *)
Definition mirror_ok (C : Client) : Prop :=
  0 ≤ brush C ≤ 3
  ∧ (1 ≤ length (brushSize C) ≤ 2)%nat ∧ Forall is_byte (brushSize C)
  ∧ map_Forall (λ i sel, 0 ≤ i ≤ 4 ∧ (1 ≤ length sel ≤ 2)%nat ∧ Forall is_byte sel)
      (brushSelection C)
  ∧ Forall (λ i, is_Some (brushSelection C !! i)) [0; 1; 2; 3]
  ∧ length (replaceMode C) = 1%nat ∧ Forall is_byte (replaceMode C)
  ∧ (1 ≤ length (deco C) ≤ 4)%nat ∧ Forall is_byte (deco C).

Definition mirrors_ok (σ : State) : Prop :=
  ∀ c C, client_heap σ !! c = Some C → mirror_ok C.

(** Every member of every room is a client of the store that has a nick;
    and the same with a client [c] that has one too, which is what holds
    while [Room.join(c)] runs. *)
Definition members_named (σ : State) : Prop :=
  ∀ r R m, room_heap σ !! r = Some R → m ∈ clients R →
    ∃ C, client_heap σ !! m = Some C ∧ is_Some (nick C).

Definition named_with (c : cref) (σ : State) : Prop :=
  members_named σ ∧ ∃ C, client_heap σ !! c = Some C ∧ is_Some (nick C).

(** A reader that resolves on a buffer resolves alike when more bytes
    have arrived behind it. *)
Definition reads_stable {A} (m : Reader A) : Prop :=
  ∀ inp more a rest, m inp = Got a rest → m (inp ++ more) = Got a (rest ++ more).

(** The store after [Client.join(n)] has created the room [n]. *)
Definition created_room (σ : State) (c : cref) (n : string) : State :=
  let r := fresh (dom (room_heap σ)) in
  let C := client_heap σ !!! c in
  mkState (alter (set_room (Some r)) c (client_heap σ))
    (<[r := mkRoom n [c] (num_val (cid C))]> (room_heap σ))
    (server_clients σ)
    (<[n := r]> (server_rooms σ))
    (trace σ ++ [ServerEmit (SRoomCreate r); RoomEmit r (RJoin c);
                 SocketWrite (socket C) [16; 0];
                 ServerEmit (SJoin c r); ClientEmit c (CJoin n)]).

(** The store after [Client.part()] of a client [c] in room [r]. *)
Definition parted (σ : State) (c : cref) (r : rref) (R : Room) : State :=
  let empty := bool_decide (Set_delete c (clients R) = []) in
  mkState (alter (set_room None) c (client_heap σ))
    (<[r := parted_room σ c R]> (room_heap σ))
    (server_clients σ)
    (if empty then delete (name R) (server_rooms σ) else server_rooms σ)
    (trace σ ++
       [ClientEmit c CPart; ServerEmit (SPart c (Some r)); RoomEmit r (RPart c)]
       ++ send_writes σ (Set_delete c (clients R))
            (Buffer_from [18; to_uint8 (cid (client_heap σ !!! c))]) (Some c)
       ++ (if empty then [RoomEmit r RDelete; ServerEmit (SRoomDelete r)] else [])).

(** The store of the handshake once [_initial] and [version] are set. *)
Definition noted (σ : State) (c : cref) (v : list (option Z)) : State :=
  with_clients σ (alter (set_version v) c (alter (set_initial false) c (client_heap σ))).

(** The store with another nick for [c]. *)
Definition named (σ : State) (c : cref) (n : string) : State :=
  with_clients σ (alter (set_nick (Some n)) c (client_heap σ)).

(** The store after client [c], which is in no room, has been written
    the string [frame] and disconnected for [reason]. *)
Definition turned_away (σ : State) (c : cref) (frame reason : string) : State :=
  let C := client_heap σ !!! c in
  mkState (client_heap σ) (room_heap σ)
    (delete (cid C) (server_clients σ)) (server_rooms σ)
    (trace σ ++ [SocketWrite (socket C) (bytes_of_string frame);
                 ClientEmit c (CDisconnect reason);
                 ServerEmit (SDisconnect c reason);
                 SocketEnd (socket C)]).

(** The version is older than the window, or newer. *)
Definition too_old (constants : Constants) (major minor : Z) : Prop :=
  major < MAJOR_MIN constants
  ∨ major = MAJOR_MIN constants ∧ minor < MINOR_MIN constants.
Definition too_new (constants : Constants) (major minor : Z) : Prop :=
  MAJOR_MAX constants < major
  ∨ major = MAJOR_MAX constants ∧ MINOR_MAX constants < minor.

(** The store after the handshake has accepted the nick [n] of [c]. *)
Definition welcomed (σ : State) (c : cref) (v : list (option Z)) (n : string) : State :=
  let σ' := named (noted σ c v) c n in
  add_trace σ' [SocketWrite (socket (client_heap σ' !!! c)) [1];
                ClientEmit c CIdentified; ServerEmit (SNewClient c)].

(** Some other entry of the client table has the nick [n]. *)
Definition nick_in_use (σ : State) (c : cref) (n : string) : Prop :=
  ∃ k d, server_clients σ !! k = Some d ∧ k ≠ cid (client_heap σ !!! c) ∧ d ≠ c
         ∧ nick (client_heap σ !!! d) = Some n.
Definition nick_free (σ : State) (c : cref) (n : string) : Prop :=
  ∀ k d, server_clients σ !! k = Some d → k ≠ cid (client_heap σ !!! c) →
         d ≠ c ∧ nick (client_heap σ !!! d) ≠ Some n.

(** The opcodes the switch has a case for. *)
Definition known_opcodes : list Z :=
  [2; 16; 19; 20; 21; 32; 33; 34; 35; 36; 37; 38; 48; 49; 50; 51; 52; 53; 54; 55; 56;
   57; 58; 59; 60; 61; 62; 63; 64; 65; 66; 67; 68; 69; 70; 128; 130].

(** The opcodes whose case only forwards, each with the number of bytes
    its case reads. *)
Definition relay_arity : list (Z * Z) :=
  [(32, 3); (33, 1); (36, 1); (48, 1); (49, 1); (50, 0); (51, 1); (52, 1); (53, 1);
   (54, 1); (55, 1); (56, 1); (57, 1); (58, 1); (59, 1); (60, 0); (61, 0); (62, 0);
   (63, 0); (64, 3); (67, 6); (68, 1); (69, 3); (70, 0)].

(** The reason [kick] works with, and the store when [Client.kick] of
    [m] by [c] has come to the part that [disconnect] ends with. *)
Definition kick_reason (reason : string) : string :=
  if decide (reason = EmptyString) then "No reason given" else reason.

Definition kicked (σ : State) (c m : cref) (reason : string) : State :=
  let M_ := client_heap σ !!! m in
  let by_ := show_str (nick (client_heap σ !!! c)) +:+ " (" +:+ kick_reason reason +:+ ")" in
  mkState (client_heap σ) (room_heap σ)
    (delete (cid M_) (server_clients σ)) (server_rooms σ)
    (trace σ ++
       [SocketWrite (socket M_)
          (Buffer_from ([22] ++ bytes_of_string ("You were kicked by " +:+ by_)
                        ++ [0; 255; 50; 50]));
        ClientEmit m (CKicked c (kick_reason reason));
        ClientEmit m (CDisconnect ("Kicked by " +:+ by_));
        ServerEmit (SDisconnect m ("Kicked by " +:+ by_));
        SocketEnd (socket M_)]).

(** No two entries of the client table have the same nick. *)
Definition nicks_unique (σ : State) : Prop :=
  ∀ k1 k2 c1 c2 n,
    server_clients σ !! k1 = Some c1 → server_clients σ !! k2 = Some c2 →
    nick (client_heap σ !!! c1) = Some n → nick (client_heap σ !!! c2) = Some n →
    k1 = k2.

Definition registry_ok (σ : State) : Prop := table_keyed_by_id σ ∧ nicks_unique σ.

(** The same, but for the entries of client [c], whose nick is being
    examined. *)
Definition others_unique (c : cref) (σ : State) : Prop :=
  table_keyed_by_id σ
  ∧ ∀ k1 k2 c1 c2 n,
      server_clients σ !! k1 = Some c1 → server_clients σ !! k2 = Some c2 →
      c1 ≠ c → c2 ≠ c →
      nick (client_heap σ !!! c1) = Some n → nick (client_heap σ !!! c2) = Some n →
      k1 = k2.

(** ** More of the scenario *)

(** After alice, a connection on socket 8 becomes client 1, which has
    not said anything yet. *)
Definition σ_second : State := run (Server_connectionHandler 8%nat) σ_alice.

(** The stream of alice ends inside a brush-size frame: the turn of her
    loop is given the opcode and the one byte that is left. *)
Definition σ_cut : State :=
  match iteration_on ex_constants accept2 accept2 true 0%nat [34; 5] with
  | Got act _ => run act σ_lobby
  | Wait => σ_lobby
  end.

(** In r1 alice, the operator, kicks bob. *)
Definition σ_kicked : State :=
  after_input 0%nat
    ([21] ++ bytes_of_string "bob" ++ [0] ++ bytes_of_string "bye" ++ [0]) σ_both.

(** * Facts *)

(** ** The store and the monad *)

Lemma State_eta σ :
  mkState (client_heap σ) (room_heap σ) (server_clients σ) (server_rooms σ) (trace σ) = σ.
Proof. by destruct σ. Qed.

Lemma add_trace_nil σ : add_trace σ [] = σ.
Proof. unfold add_trace. rewrite app_nil_r. apply State_eta. Qed.

Lemma add_trace_app σ a b : add_trace (add_trace σ a) b = add_trace σ (a ++ b).
Proof. unfold add_trace; simpl. by rewrite app_assoc. Qed.

Lemma alter_lookup_insert {K A} `{Countable K} (f : A → A) (m : gmap K A) i x :
  m !! i = Some x → alter f i m = <[i := f x]> m.
Proof.
  intros Hx. apply map_eq. intros j. rewrite lookup_alter, lookup_insert.
  case_decide; subst; [by rewrite Hx|done].
Qed.

Lemma bind_singleton_fmap {A B} (f : A → B) (l : list A) :
  (l ≫= λ x, [f x]) = f <$> l.
Proof. induction l as [|x l IH]; [done|]. by rewrite bind_cons, IH. Qed.

Lemma num_val_inj a b : num_val a = num_val b → a = b.
Proof. destruct a, b; simpl; congruence. Qed.

(** [Buffer.from] is the identity on bytes. *)
Lemma Buffer_from_bytes l : Forall is_byte l → Buffer_from l = l.
Proof.
  intros Hl. unfold Buffer_from. induction Hl as [|x l Hx Hl IH]; [done|].
  cbn [fmap list_fmap]. unfold is_byte in Hx. rewrite Z.mod_small by lia.
  f_equal. apply IH.
Qed.

(** ** Computations that only append to the trace *)

Lemma emits_run m σ W : emits m σ W → m σ = Ok () (add_trace σ W).
Proof. intros H. specialize (H []). by rewrite add_trace_nil in H. Qed.

Lemma emits_ret σ : emits (ret ()) σ [].
Proof. intros es. unfold ret. by rewrite app_nil_r. Qed.

Lemma emits_do_effect σ e : emits (do_effect e) σ [e].
Proof. intros es. unfold do_effect, add_trace. cbn. by rewrite <- app_assoc. Qed.

Lemma emits_socket_write σ s data : emits (socket_write s data) σ [SocketWrite s data].
Proof. apply emits_do_effect. Qed.

Lemma emits_bind m k σ W1 W2 :
  emits m σ W1 → emits k σ W2 → emits (m ;;; k) σ (W1 ++ W2).
Proof.
  intros Hm Hk es. unfold bind. rewrite Hm, Hk. by rewrite app_assoc.
Qed.

Lemma emits_then {B} m (k : M B) σ W es :
  emits m σ W → (m ;;; k) (add_trace σ es) = k (add_trace σ (es ++ W)).
Proof. intros Hm. unfold bind. by rewrite Hm. Qed.

Lemma emits_the_client (k : Client → M unit) c σ W :
  emits (k (client_heap σ !!! c)) σ W → emits (C <- the_client c ;; k C) σ W.
Proof. intros Hk es. unfold bind, the_client. cbn [add_trace client_heap]. apply Hk. Qed.

Lemma emits_the_room (k : Room → M unit) r σ W :
  emits (k (room_heap σ !!! r)) σ W → emits (R <- the_room r ;; k R) σ W.
Proof. intros Hk es. unfold bind, the_room. cbn [add_trace room_heap]. apply Hk. Qed.

Lemma emits_for_of {A} (l : list A) (body : A → M unit) σ (W : A → list effect) :
  (∀ x, x ∈ l → emits (body x) σ (W x)) → emits (for_of l body) σ (l ≫= W).
Proof.
  induction l as [|x l IH]; intros Hbody.
  - apply emits_ret.
  - cbn [for_of]. rewrite bind_cons. apply emits_bind.
    + apply Hbody. left.
    + apply IH. intros y Hy. apply Hbody. by right.
Qed.

Lemma emits_repeat σ (l : list Z) s data :
  emits (for_of l (λ _, socket_write s data)) σ (replicate (length l) (SocketWrite s data)).
Proof.
  induction l as [|x l IH]; [apply emits_ret|].
  cbn [for_of length replicate].
  apply (emits_bind _ _ _ [_]); [apply emits_socket_write|apply IH].
Qed.

(** ** room.js *)

Lemma emits_except_id σ except (k : jsval → M unit) W :
  emits (k (except_val σ except)) σ W → emits (eid <- except_id except ;; k eid) σ W.
Proof.
  intros Hk es. unfold bind. destruct except as [e|]; cbn [except_id except_val] in *.
  - unfold bind, the_client, ret. cbn [add_trace client_heap]. apply Hk.
  - unfold ret. apply Hk.
Qed.

Lemma emits_Room_send σ r buf except :
  emits (Room_send r buf except) σ
    (send_writes σ (clients (room_heap σ !!! r)) buf except).
Proof.
  unfold Room_send. apply emits_the_room.
  unfold send_writes, send_targets. rewrite <- bind_singleton_fmap.
  induction (clients (room_heap σ !!! r)) as [|m l IH]; [apply emits_ret|].
  cbn [for_of]. rewrite filter_cons.
  assert (Hm : emits
    (client <- the_client m ;;
     eid <- except_id except ;;
     if strict_eq (num_val (cid client)) eid then ret ()
     else socket_write (socket client) buf) σ
    (if decide (num_val (cid (client_heap σ !!! m)) ≠ except_val σ except)
     then [SocketWrite (socket (client_heap σ !!! m)) buf] else [])).
  { apply emits_the_client, emits_except_id. unfold strict_eq.
    case_bool_decide.
    - rewrite decide_False by (intros ?; done). apply emits_ret.
    - rewrite decide_True by done. apply emits_socket_write. }
  case_decide; [rewrite bind_cons|rewrite <- (app_nil_l (_ ≫= _))];
    by apply emits_bind.
Qed.

Lemma Room_send_spec σ r buf except :
  Room_send r buf except σ
  = Ok () (add_trace σ (send_writes σ (clients (room_heap σ !!! r)) buf except)).
Proof. apply emits_run, emits_Room_send. Qed.

Lemma send_targets_all σ l c :
  Forall (λ m, cid (client_heap σ !!! m) ≠ cid (client_heap σ !!! c)) l →
  send_targets σ l (Some c) = l.
Proof.
  intros Hl. unfold send_targets. induction Hl as [|m l Hm Hl IH]; [done|].
  rewrite filter_cons, decide_True, IH; [done|].
  cbn [except_val]. intros Heq. by apply Hm, num_val_inj.
Qed.

Lemma emits_requestSync_loop σ l client :
  emits (requestSync_loop l client) σ (sync_writes σ l client).
Proof.
  induction l as [|m l IH].
  - apply emits_ret.
  - cbn [requestSync_loop]. do 2 apply emits_the_client.
    unfold sync_writes, sync_target. cbn [List.find].
    destruct (isChat (client_heap σ !!! m)); cbn [negb andb]; [apply IH|].
    destruct (strict_eq _ _); cbn [negb]; [apply IH|].
    apply emits_socket_write.
Qed.

Lemma emits_Room_requestSync σ r client :
  emits (Room_requestSync r client) σ
    (sync_writes σ (clients (room_heap σ !!! r)) client).
Proof.
  unfold Room_requestSync. apply emits_the_room.
  case_bool_decide as Hlen; [|apply emits_requestSync_loop].
  apply nil_length_inv in Hlen. rewrite Hlen. apply emits_ret.
Qed.

Lemma emits_replay_member σ s m :
  replayable (client_heap σ !!! m) →
  emits (replay_member s m) σ (SocketWrite s <$> state_frames (client_heap σ !!! m)).
Proof.
  intros [_ Hsel]. unfold replay_member. apply emits_the_client.
  set (M_ := client_heap σ !!! m) in *.
  unfold state_frames. rewrite !fmap_app.
  apply emits_bind.
  { rewrite fmap_replicate, <- (length_seqZ 0). apply emits_repeat. }
  apply emits_bind; [apply emits_socket_write|].
  apply emits_bind.
  { change (seqZ 0 4) with [0; 1; 2; 3].
    rewrite <- list_fmap_compose, <- bind_singleton_fmap.
    apply emits_for_of. intros i Hi. unfold spread_selection, selection_frame, compose.
    rewrite Forall_forall in Hsel.
    destruct (Hsel i Hi) as [sel ->]. apply emits_socket_write. }
  apply (emits_bind _ _ _ [_] [_]); apply emits_socket_write.
Qed.

Lemma Room_join_member σ r c :
  c ∈ clients (room_heap σ !!! r) → Room_join r c σ = Ok () σ.
Proof.
  intros Hc. unfold Room_join, bind, the_room, Set_has.
  by rewrite bool_decide_eq_true_2.
Qed.

Lemma Room_join_spec σ r c R :
  room_heap σ !! r = Some R →
  c ∉ clients R →
  is_Some (nick (client_heap σ !!! c)) →
  Forall (λ m, replayable (client_heap σ !!! m)) (clients R) →
  Room_join r c σ
  = Ok () (add_trace (with_rooms σ (<[r := joined_room σ c R]> (room_heap σ)))
             (join_effects σ r c)).
Proof.
  intros HR Hc [nc Hnc] Hmem. rewrite Forall_forall in Hmem.
  pose proof (lookup_total_correct _ _ _ HR) as HR'.
  unfold Room_join. unfold bind at 1. unfold the_room at 1. cbv beta iota.
  rewrite HR'. unfold Set_has. rewrite bool_decide_eq_false_2 by done.
  unfold bind at 1. unfold the_client at 1. cbv beta iota.
  set (C := client_heap σ !!! c) in *.
  set (op' := if bool_decide (length (clients R) = 0%nat)
              then num_val (cid C) else op R).
  set (σa := with_rooms σ (<[r := set_op op' R]> (room_heap σ))).
  assert (Hop : (if bool_decide (length (clients R) = 0%nat)
                 then update_room r (set_op (num_val (cid C))) else ret ()) σ
                = Ok () σa).
  { unfold σa, op'. case_bool_decide.
    - unfold update_room, with_rooms. by rewrite (alter_lookup_insert _ _ _ R).
    - unfold ret, with_rooms. replace (set_op (op R) R) with R by (by destruct R).
      rewrite insert_id by done. by rewrite State_eta. }
  unfold bind at 1. rewrite Hop.
  assert (HRa : room_heap σa !!! r = set_op op' R).
  { unfold σa. cbn [with_rooms room_heap]. apply lookup_total_insert_eq. }
  assert (H1 : emits (for_of (clients R) (λ m,
       M_ <- the_client m ;;
       nm <- Buffer_from_string (nick M_) ;;
       socket_write (socket C) (Buffer_from ([to_uint8 (cid M_)] ++ nm ++ [0])))) σa
     ((λ m, SocketWrite (socket C) (roster_frame (client_heap σ !!! m))) <$> clients R)).
  { rewrite <- bind_singleton_fmap.
    apply emits_for_of. intros m Hm. apply emits_the_client.
    change (client_heap σa) with (client_heap σ).
    destruct (Hmem m Hm) as [[n Hn] _]. unfold roster_frame, nick_bytes.
    rewrite Hn. apply emits_socket_write. }
  assert (H2 : emits (for_of (clients R) (replay_member (socket C))) σa
     (clients R ≫= λ m, SocketWrite (socket C) <$> state_frames (client_heap σ !!! m))).
  { apply emits_for_of. intros m Hm.
    apply (emits_replay_member σa). by apply Hmem. }
  pose proof (emits_Room_send σa r (join_frame C) (Some c)) as H3.
  pose proof (emits_Room_requestSync σa r c) as H4.
  rewrite HRa in H3, H4. cbn [clients set_op] in H3, H4.
  change (send_writes σa) with (send_writes σ) in H3.
  change (sync_writes σa) with (sync_writes σ) in H4.
  rewrite <- (add_trace_nil σa).
  rewrite (emits_then _ _ _ _ _ (emits_do_effect _ _)).
  rewrite (emits_then _ _ _ _ _ (emits_socket_write _ _ _)).
  rewrite (emits_then _ _ _ _ _ H1).
  rewrite (emits_then _ _ _ _ _ H2).
  rewrite Hnc.
  change (bind (Buffer_from_string (Some nc)) ?k) with (k (bytes_of_string nc)).
  cbv beta.
  replace (Buffer_from ([17; to_uint8 (cid C)] ++ bytes_of_string nc ++ [0]))
    with (join_frame C) by (unfold join_frame, nick_bytes; by rewrite Hnc).
  rewrite (emits_then _ _ _ _ _ H3).
  rewrite (emits_then _ _ _ _ _ H4).
  unfold update_room, add_trace, with_rooms, σa.
  cbn [client_heap room_heap server_clients server_rooms trace with_rooms].
  f_equal. f_equal.
  - rewrite alter_insert_eq. f_equal. unfold joined_room, set_op, set_clients, op'.
    cbn [clients name op]. f_equal. unfold Set_add, Set_has.
    by rewrite bool_decide_eq_false_2.
  - unfold join_effects. rewrite HR'. fold C. cbn [app].
    by rewrite <- !app_assoc.
Qed.

Lemma Room_part_spec σ r c R :
  room_heap σ !! r = Some R →
  Room_part r c σ =
    Ok () (add_trace
      (with_rooms σ (<[r := parted_room σ c R]> (room_heap σ)))
      ([RoomEmit r (RPart c)]
       ++ send_writes σ (Set_delete c (clients R))
            (Buffer_from [18; to_uint8 (cid (client_heap σ !!! c))]) (Some c))).
Proof.
  intros HR. unfold Room_part.
  unfold bind, do_effect, update_room, the_room, the_client; simpl.
  rewrite lookup_total_alter_eq, HR. simpl.
  destruct (strict_eq (op R) (num_val (cid (client_heap σ !!! c)))) eqn:Hop.
  - simpl. rewrite Room_send_spec. simpl.
    unfold add_trace, with_rooms; simpl. f_equal. f_equal.
    + rewrite (alter_lookup_insert _ _ _ (set_clients (Set_delete c (clients R)) R)).
      2:{ rewrite lookup_alter_eq, HR. done. }
      unfold parted_room. rewrite Hop. simpl.
      rewrite (alter_lookup_insert _ _ _ R) by done.
      by rewrite insert_insert_eq.
    + rewrite <- app_assoc. f_equal. f_equal.
      rewrite lookup_total_alter_eq, lookup_alter_eq, HR. simpl. done.
  - unfold ret. rewrite Room_send_spec. simpl.
    unfold add_trace, with_rooms; simpl. f_equal. f_equal.
    + rewrite (alter_lookup_insert _ _ _ R) by done.
      unfold parted_room. rewrite Hop. done.
    + rewrite <- app_assoc. f_equal. f_equal.
      rewrite lookup_total_alter_eq, HR. simpl. done.
Qed.

Lemma client_object_not_member_id σ R m : JClient m ∉ member_ids σ R.
Proof.
  unfold member_ids. intros (x & Hx & _)%list_elem_of_fmap.
  by destruct (cid (client_heap σ !!! x)).
Qed.

(** C1.  The code does not do what the claim says: when the operator parts
    and members remain, [Room.part] stores in [op] the first remaining
    [Client] object itself ([this.clients.values().next().value]), not
    its id.  The new [op] is therefore equal to no member's id, the first
    remaining member's included, and the invariant that [op] is the id of
    a member fails after such a part. *)
Theorem part_reelects_client_object (σ : State) (r c : nat) (R : Room) (m : nat)
    (rest : list nat) :
  room_heap σ !! r = Some R →
  c ∈ clients R →
  op R = num_val (cid (client_heap σ !!! c)) →
  Set_delete c (clients R) = m :: rest →
  ∃ σ', Room_part r c σ = Ok () σ'
        ∧ clients (room_heap σ' !!! r) = m :: rest
        ∧ op (room_heap σ' !!! r) = JClient m
        ∧ op (room_heap σ' !!! r) ≠ num_val (cid (client_heap σ' !!! m))
        ∧ op (room_heap σ' !!! r) ∉ member_ids σ' (room_heap σ' !!! r).
Proof.
  intros HR Hc Hop Hrest. eexists. split; [by apply Room_part_spec|].
  assert (Hop' : op (parted_room σ c R) = JClient m).
  { unfold parted_room. rewrite Hop. unfold strict_eq.
    rewrite bool_decide_eq_true_2 by done. by rewrite Hrest. }
  cbn [room_heap add_trace with_rooms client_heap].
  rewrite lookup_total_insert_eq, Hop'.
  split; [done|]. split; [done|]. split.
  - by destruct (cid (client_heap σ !!! m)).
  - apply client_object_not_member_id.
Qed.

(** ** client.js: the methods *)

Lemma Client_sendToRoom_spec σ c message :
  Client_sendToRoom c message false σ = Ok () (add_trace σ (room_writes σ c message)).
Proof.
  unfold Client_sendToRoom, room_writes, bind, the_client.
  destruct (room (client_heap σ !!! c)) as [r|].
  - apply Room_send_spec.
  - unfold ret. by rewrite add_trace_nil.
Qed.

Lemma Client_serverMessage_spec σ c message r g b :
  Client_serverMessage c message r g b σ
  = Ok () (add_trace σ [SocketWrite (socket (client_heap σ !!! c))
                          (Buffer_from ([22] ++ bytes_of_string message ++ [0; r; g; b]))]).
Proof. reflexivity. Qed.

Lemma Room_part_frame σ r c :
  ∃ σ', Room_part r c σ = Ok () σ'
        ∧ client_heap σ' = client_heap σ
        ∧ server_clients σ' = server_clients σ.
Proof.
  unfold Room_part, bind, do_effect, update_room, the_room, the_client.
  cbn [client_heap room_heap server_clients server_rooms trace].
  match goal with |- context [if ?b then _ else _] => destruct b end;
    cbn [ret]; rewrite Room_send_spec; eexists; done.
Qed.

Lemma Server_part_frame σ c r :
  ∃ σ', Server_part c (Some r) σ = Ok () σ'
        ∧ client_heap σ' = client_heap σ
        ∧ server_clients σ' = server_clients σ.
Proof.
  unfold Server_part. unfold bind at 1. unfold do_effect at 1. cbv beta iota.
  unfold bind at 1.
  match goal with |- context [Room_part r c ?s] =>
    destruct (Room_part_frame s r c) as (σ1 & -> & Hh & Hc) end.
  unfold bind at 1. unfold the_room at 1. cbv beta iota.
  case_bool_decide.
  - unfold bind, do_effect, set_server_rooms. eexists. split; [done|].
    cbn [client_heap server_clients]. done.
  - eexists. split; [done|]. done.
Qed.

Lemma Client_part_frame σ c r :
  room (client_heap σ !!! c) = Some r →
  ∃ σ', Client_part c σ = Ok () σ'
        ∧ client_heap σ' = alter (set_room None) c (client_heap σ)
        ∧ server_clients σ' = server_clients σ.
Proof.
  intros Hr. unfold Client_part. unfold bind at 1. unfold do_effect at 1. cbv beta iota.
  unfold bind at 1. unfold the_client at 1. cbv beta iota.
  cbn [client_heap]. rewrite Hr. unfold bind at 1.
  match goal with |- context [Server_part c (Some r) ?s] =>
    destruct (Server_part_frame s c r) as (σ1 & -> & Hh & Hc) end.
  unfold update_client. eexists. split; [done|].
  cbn [client_heap server_clients]. by rewrite Hh, Hc.
Qed.

Lemma room_after_part (h : gmap nat Client) c r :
  room (h !!! c) = Some r → room (alter (set_room None) c h !!! c) = None.
Proof.
  intros Hr. rewrite lookup_total_alter_eq.
  rewrite lookup_total_alt in Hr. by destruct (h !! c).
Qed.

Lemma fields_after_part (h : gmap nat Client) c :
  cid (alter (set_room None) c h !!! c) = cid (h !!! c)
  ∧ socket (alter (set_room None) c h !!! c) = socket (h !!! c).
Proof.
  rewrite lookup_total_alter_eq, lookup_total_alt. by destruct (h !! c).
Qed.

(** A first call of [disconnect] returns; afterwards the client has no
    room and its id is out of the table. *)
Lemma Client_disconnect_first σ c reason :
  ∃ σ1, Client_disconnect c reason σ = Ok () σ1
        ∧ room (client_heap σ1 !!! c) = None
        ∧ cid (client_heap σ1 !!! c) = cid (client_heap σ !!! c)
        ∧ socket (client_heap σ1 !!! c) = socket (client_heap σ !!! c)
        ∧ server_clients σ1 = delete (cid (client_heap σ !!! c)) (server_clients σ).
Proof.
  unfold Client_disconnect, Server_disconnect.
  unfold socket_end, bind, do_effect, the_client, set_server_clients.
  cbn [client_heap room_heap server_clients server_rooms trace].
  destruct (room (client_heap σ !!! c)) as [r|] eqn:Hr.
  - match goal with |- context [Client_part c ?s] =>
      destruct (Client_part_frame s c r) as (σ1 & -> & Hh & Hc); [done|] end.
    exists σ1. split; [done|]. rewrite Hh, Hc. cbn [client_heap server_clients].
    split; [by eapply room_after_part|].
    destruct (fields_after_part (client_heap σ) c) as [-> ->]. done.
  - eexists. split; [done|]. cbn [client_heap server_clients]. done.
Qed.

(** A call of [disconnect] on a client without a room and out of the
    table only emits. *)
Lemma Client_disconnect_again σ c reason :
  room (client_heap σ !!! c) = None →
  server_clients σ !! cid (client_heap σ !!! c) = None →
  Client_disconnect c reason σ = Ok () (add_trace σ (disconnect_effects σ c reason)).
Proof.
  intros Hr Hfree. unfold Client_disconnect, Server_disconnect.
  unfold socket_end, bind, do_effect, the_client, set_server_clients.
  cbn [client_heap room_heap server_clients server_rooms trace].
  rewrite Hr. unfold ret, add_trace, disconnect_effects.
  rewrite delete_id by done. by rewrite <- !app_assoc.
Qed.

(** The lifecycle events among what a part appends to the trace. *)
Lemma lifecycle_send_writes σ l buf except :
  List.filter is_lifecycle (send_writes σ l buf except) = [].
Proof.
  unfold send_writes. induction (send_targets σ l except) as [|m l' IH]; [done|].
  rewrite fmap_cons. cbn [List.filter is_lifecycle is_client_disconnect
    is_server_disconnect is_socket_end is_part orb]. exact IH.
Qed.

Lemma Room_part_trace σ r c :
  ∃ σ' W, Room_part r c σ = Ok () σ'
          ∧ client_heap σ' = client_heap σ
          ∧ server_clients σ' = server_clients σ
          ∧ trace σ' = trace σ ++ W
          ∧ List.filter is_lifecycle W = [RoomEmit r (RPart c)].
Proof.
  unfold Room_part, bind, do_effect, update_room, the_room, the_client.
  cbn [client_heap room_heap server_clients server_rooms trace].
  match goal with |- context [if ?b then _ else _] => destruct b end;
    cbn [ret]; rewrite Room_send_spec;
    eexists _, ([RoomEmit r (RPart c)] ++ send_writes _ _ _ _);
    (split; [reflexivity|]); (split; [reflexivity|]); (split; [reflexivity|]);
    (split; [cbn [add_trace trace]; by rewrite <- app_assoc|]);
    rewrite List.filter_app, lifecycle_send_writes; reflexivity.
Qed.

Lemma Server_part_trace σ c r :
  ∃ σ' W, Server_part c (Some r) σ = Ok () σ'
          ∧ client_heap σ' = client_heap σ
          ∧ server_clients σ' = server_clients σ
          ∧ trace σ' = trace σ ++ W
          ∧ List.filter is_lifecycle W
            = [ServerEmit (SPart c (Some r)); RoomEmit r (RPart c)].
Proof.
  unfold Server_part. unfold bind at 1. unfold do_effect at 1. cbv beta iota.
  unfold bind at 1.
  match goal with |- context [Room_part r c ?s] =>
    destruct (Room_part_trace s r c) as (σ1 & W & -> & Hh & Hc & Ht & HW) end.
  cbn [client_heap server_clients trace] in Hh, Hc, Ht.
  unfold bind at 1. unfold the_room at 1. cbv beta iota.
  case_bool_decide.
  - unfold bind, do_effect, set_server_rooms.
    eexists _, ([ServerEmit (SPart c (Some r))] ++ W
                ++ [RoomEmit r RDelete; ServerEmit (SRoomDelete r)]).
    split; [reflexivity|]. cbn [client_heap server_clients trace].
    split; [exact Hh|]. split; [exact Hc|]. split.
    + rewrite Ht. by rewrite <- !app_assoc.
    + rewrite !List.filter_app, HW. reflexivity.
  - eexists _, ([ServerEmit (SPart c (Some r))] ++ W).
    split; [reflexivity|]. split; [exact Hh|]. split; [exact Hc|]. split.
    + rewrite Ht. by rewrite <- !app_assoc.
    + rewrite List.filter_app, HW. reflexivity.
Qed.

Lemma Client_part_trace σ c r :
  room (client_heap σ !!! c) = Some r →
  ∃ σ' W, Client_part c σ = Ok () σ'
          ∧ client_heap σ' = alter (set_room None) c (client_heap σ)
          ∧ server_clients σ' = server_clients σ
          ∧ trace σ' = trace σ ++ W
          ∧ List.filter is_lifecycle W
            = [ClientEmit c CPart; ServerEmit (SPart c (Some r)); RoomEmit r (RPart c)].
Proof.
  intros Hr. unfold Client_part. unfold bind at 1. unfold do_effect at 1. cbv beta iota.
  unfold bind at 1. unfold the_client at 1. cbv beta iota.
  cbn [client_heap]. rewrite Hr. unfold bind at 1.
  match goal with |- context [Server_part c (Some r) ?s] =>
    destruct (Server_part_trace s c r) as (σ1 & W & -> & Hh & Hc & Ht & HW) end.
  cbn [client_heap server_clients trace] in Hh, Hc, Ht.
  unfold update_client. eexists _, ([ClientEmit c CPart] ++ W).
  split; [reflexivity|]. cbn [client_heap server_clients trace].
  rewrite Hh, Hc. split; [done|]. split; [done|]. split.
  - rewrite Ht. by rewrite <- !app_assoc.
  - rewrite List.filter_app, HW. reflexivity.
Qed.

(** What a call of [disconnect] appends to the trace: its three effects,
    then what the part appends if the client is in a room. *)
Lemma Client_disconnect_trace σ c reason :
  ∃ σ1 W, Client_disconnect c reason σ = Ok () σ1
          ∧ room (client_heap σ1 !!! c) = None
          ∧ cid (client_heap σ1 !!! c) = cid (client_heap σ !!! c)
          ∧ socket (client_heap σ1 !!! c) = socket (client_heap σ !!! c)
          ∧ server_clients σ1 = delete (cid (client_heap σ !!! c)) (server_clients σ)
          ∧ trace σ1 = trace σ ++ disconnect_effects σ c reason ++ W
          ∧ List.filter is_lifecycle W = part_events σ c.
Proof.
  unfold Client_disconnect, Server_disconnect.
  unfold socket_end, bind, do_effect, the_client, set_server_clients.
  cbn [client_heap room_heap server_clients server_rooms trace].
  unfold part_events, disconnect_effects.
  destruct (room (client_heap σ !!! c)) as [r|] eqn:Hr.
  - match goal with |- context [Client_part c ?s] =>
      destruct (Client_part_trace s c r) as (σ1 & W & -> & Hh & Hc & Ht & HW); [done|] end.
    cbn [client_heap server_clients trace] in Hh, Hc, Ht.
    exists σ1, W. split; [done|]. rewrite Hh, Hc.
    split; [by eapply room_after_part|].
    destruct (fields_after_part (client_heap σ) c) as [-> ->].
    split; [done|]. split; [done|]. split; [done|]. split; [|exact HW].
    rewrite Ht. by rewrite <- !app_assoc.
  - eexists _, []. split; [done|]. cbn [client_heap server_clients trace].
    split; [done|]. split; [done|]. split; [done|]. split; [done|]. split; [|done].
    by rewrite <- !app_assoc.
Qed.

Lemma count_effects_app p a b :
  count_effects p (a ++ b) = (count_effects p a + count_effects p b)%nat.
Proof. unfold count_effects. by rewrite List.filter_app, length_app. Qed.

(** Counting a kind of lifecycle event may skip everything else. *)
Lemma count_effects_lifecycle p t :
  (∀ e, p e = true → is_lifecycle e = true) →
  count_effects p t = count_effects p (List.filter is_lifecycle t).
Proof.
  intros Hp. unfold count_effects. induction t as [|e t IH]; [done|].
  cbn [List.filter]. destruct (is_lifecycle e) eqn:He.
  - cbn [List.filter]. destruct (p e); cbn [length]; by rewrite IH.
  - destruct (p e) eqn:Hpe; [|exact IH]. apply Hp in Hpe. congruence.
Qed.

Lemma count_effects_part σ c p :
  (∀ e, p e = true → is_lifecycle e = true) →
  (∀ e, p e = true → is_part e = false) →
  ∀ W, List.filter is_lifecycle W = part_events σ c → count_effects p W = 0%nat.
Proof.
  intros Hp Hpart W HW. rewrite (count_effects_lifecycle p W Hp), HW.
  unfold part_events, count_effects. destruct (room _) as [r|]; [|done].
  cbn [List.filter].
  destruct (p (ClientEmit c CPart)) eqn:H1; [by apply Hpart in H1|].
  destruct (p (ServerEmit (SPart c (Some r)))) eqn:H2; [by apply Hpart in H2|].
  destruct (p (RoomEmit r (RPart c))) eqn:H3; [by apply Hpart in H3|]. done.
Qed.


(** ** server.js: the cap *)

Lemma find_id_free (table : gmap (option Z) nat) :
  (size table < 256)%nat →
  ∃ i, find_id table = Some i ∧ 0 ≤ i < 256 ∧ table !! Some i = None.
Proof.
  intros Hsize. unfold find_id.
  destruct (List.find _ (seqZ 0 256)) as [i|] eqn:Hfind.
  - apply List.find_some in Hfind as [Hin Hfree].
    exists i. split; [done|]. split.
    + apply list_elem_of_In, elem_of_seqZ in Hin. lia.
    + by apply bool_decide_eq_true_1 in Hfree.
  - exfalso.
    assert (Hall : ∀ k, k ∈ (Some <$> seqZ 0 256 : list (option Z)) → k ∈ elements (dom table)).
    { intros k (i & -> & Hi)%list_elem_of_fmap.
      apply elem_of_elements, elem_of_dom.
      pose proof (List.find_none _ _ Hfind i (proj1 (list_elem_of_In _ _) Hi)) as Hf.
      apply bool_decide_eq_false_1 in Hf.
      by destruct (table !! Some i). }
    apply NoDup_submseteq in Hall.
    + apply submseteq_length in Hall.
      rewrite length_fmap, length_seqZ in Hall.
      change (length (elements (dom table))) with (size (dom table)) in Hall.
      rewrite size_dom in Hall. lia.
    + apply (NoDup_fmap_2 _). apply NoDup_seqZ.
Qed.

(** C7.  Below 255 clients a connection is admitted: a fresh [Client]
    with a free id is created and put in the table under that id, which
    grows by one (so a 255th client is accepted).  At 255 clients the
    socket is written the frame [0x00 "Server is full (255/255)" 0x00]
    and ended, and nothing else changes: no client is created. *)
Theorem connection_cap (σ : State) (s : nat) :
  ((size (server_clients σ) < 255)%nat →
     ∃ i σ',
       Server_connectionHandler s σ = Ok () σ'
       ∧ 0 ≤ i < 256
       ∧ server_clients σ !! Some i = None
       ∧ client_heap σ !! fresh (dom (client_heap σ)) = None
       ∧ client_heap σ' = <[fresh (dom (client_heap σ)) := new_Client s (Some i)]> (client_heap σ)
       ∧ server_clients σ' = <[Some i := fresh (dom (client_heap σ))]> (server_clients σ)
       ∧ size (server_clients σ') = S (size (server_clients σ))
       ∧ trace σ' = trace σ ++ [SetTimeout s 90000])
  ∧ (size (server_clients σ) = 255%nat →
     Server_connectionHandler s σ
     = Ok () (add_trace σ
         [SocketWrite s ([0] ++ bytes_of_string "Server is full (255/255)" ++ [0]);
          SocketEnd s])).
Proof.
  split; intros Hsize.
  - destruct (find_id_free (server_clients σ)) as (i & Hfind & Hi & Hfree); [lia|].
    exists i. eexists. split.
    + unfold Server_connectionHandler. unfold bind at 1. unfold get_state at 1.
      cbv beta iota. rewrite bool_decide_eq_false_2 by lia.
      unfold bind, Client_new, the_client, set_server_clients.
      cbn [client_heap server_clients room_heap server_rooms trace].
      rewrite lookup_total_insert_eq, Hfind. cbn [cid new_Client]. reflexivity.
    + cbn [client_heap server_clients trace].
      repeat split; try done; try lia.
      * apply not_elem_of_dom, is_fresh.
      * by apply map_size_insert_None.
  - unfold Server_connectionHandler. unfold bind at 1. unfold get_state at 1.
    cbv beta iota. rewrite bool_decide_eq_true_2 by lia. rewrite Hsize.
    replace (pretty 255%nat) with "255" by (by vm_compute).
    unfold bind, socket_write, socket_end, do_effect, add_trace.
    cbn [client_heap server_clients room_heap server_rooms trace].
    by rewrite <- app_assoc.
Qed.

(** ** client.js: reading *)

Lemma readBytes_app ended d rest :
  d ≠ [] → readBytes ended (Z.of_nat (length d)) (d ++ rest) = Got d rest.
Proof.
  intros Hd. unfold readBytes, socket_read.
  destruct d as [|x d]; [done|].
  rewrite (proj2 (Z.leb_gt _ _)) by (simpl; lia).
  rewrite (proj2 (Z.leb_le _ _)) by (rewrite length_app; lia).
  rewrite Nat2Z.id. by rewrite take_app_length, drop_app_length.
Qed.

Lemma readBytes_1 ended x rest : readBytes ended 1 (x :: rest) = Got [x] rest.
Proof. apply (readBytes_app ended [x]). done. Qed.

Lemma readBytes_2 ended a b rest :
  readBytes ended 2 (a :: b :: rest) = Got [a; b] rest.
Proof. apply (readBytes_app ended [a; b]). done. Qed.

Lemma readBytes_6 ended a b c d e f rest :
  readBytes ended 6 (a :: b :: c :: d :: e :: f :: rest) = Got [a; b; c; d; e; f] rest.
Proof. apply (readBytes_app ended [a; b; c; d; e; f]). done. Qed.

(** A read of zero bytes stays pending whatever has arrived. *)
Lemma readBytes_0 ended inp : readBytes ended 0 inp = Wait.
Proof. reflexivity. Qed.

Lemma readUntilNull_loop_app data d rest :
  Forall (λ x, x ≠ 0) d →
  readUntilNull_loop data (d ++ 0 :: rest) = Got (data ++ d) rest.
Proof.
  intros Hd. revert data. induction Hd as [|x d Hx Hd IH]; intros data.
  - simpl. by rewrite app_nil_r.
  - simpl. rewrite (proj2 (Z.eqb_neq x 0)) by done.
    rewrite IH. by rewrite <- app_assoc.
Qed.

Lemma readUntilNull_app d rest :
  Forall (λ x, x ≠ 0) d → readUntilNull (d ++ 0 :: rest) = Got d rest.
Proof. apply (readUntilNull_loop_app []). Qed.

(** What a read returns: bytes, at least one and at most [n] of them
    (exactly [n] on an open stream), and the bytes behind them. *)
Lemma socket_read_bytes ended n inp d rest :
  Forall is_byte inp → socket_read ended n inp = Some (d, rest) →
  Forall is_byte d ∧ Forall is_byte rest
  ∧ (1 ≤ length d ≤ Z.to_nat n)%nat
  ∧ (length d + length rest = length inp)%nat
  ∧ (ended = false → length d = Z.to_nat n).
Proof.
  intros Hinp. unfold socket_read.
  destruct (n <=? 0) eqn:Hn0; [done|]. apply Z.leb_gt in Hn0.
  destruct (n <=? Z.of_nat (length inp)) eqn:Hn.
  - apply Z.leb_le in Hn.
    intros [= <- <-]. split; [by apply Forall_take|]. split; [by apply Forall_drop|].
    rewrite length_take, length_drop. lia.
  - apply Z.leb_gt in Hn. destruct ended; cbn [andb]; [|done].
    case_bool_decide as Hnil; cbn [negb]; [done|].
    intros [= <- <-]. split; [done|]. split; [by apply Forall_nil|].
    destruct inp; [done|]. cbn [length] in *. lia.
Qed.

Lemma readUntilNull_loop_bytes : ∀ inp data d rest,
  Forall is_byte inp → readUntilNull_loop data inp = Got d rest → Forall is_byte rest.
Proof.
  induction inp as [|x inp IH]; intros data d rest Hinp; [done|].
  cbn [readUntilNull_loop]. apply Forall_cons in Hinp as [_ Hinp].
  destruct (x =? 0); [by intros [= _ <-]|]. by apply IH.
Qed.

(** ** The cycle of opcode 35 *)

Lemma mod_3_cases n : 0 ≤ n → n `mod` 3 = 0 ∨ n `mod` 3 = 1 ∨ n `mod` 3 = 2.
Proof. intros Hn. pose proof (Z.mod_pos_bound n 3). lia. Qed.

Lemma brush_cycle_value k :
  (1 ≤ k)%nat →
  Nat.iter k (λ b, b `mod` 3 + 1) 0 = (Z.of_nat k - 1) `mod` 3 + 1.
Proof.
  induction k as [|k IH]; [lia|]. intros _.
  destruct k as [|k]; [done|].
  rewrite Nat.iter_succ, IH by lia.
  replace (Z.of_nat (S (S k)) - 1) with (Z.of_nat (S k) - 1 + 1) by lia.
  set (n := Z.of_nat (S k) - 1). assert (Hn : 0 ≤ n) by lia.
  rewrite (Z.add_mod n 1 3) by lia.
  destruct (mod_3_cases n Hn) as [-> | [-> | ->]]; reflexivity.
Qed.

(** ** client.js: [dataHandler] *)

Section SessionFacts.

Variable constants : Constants.
Variable hooks_connect : Client → bool.
Variable hooks_join : Client → string → bool.
Variable hooks_message : Client → string → bool.

Lemma relay_spec σ c cmd data :
  relay c cmd data σ
  = Ok () (add_trace σ (room_writes σ c
             (Buffer_from ([cmd; to_uint8 (cid (client_heap σ !!! c))] ++ data)))).
Proof. unfold relay, bind, the_client. apply Client_sendToRoom_spec. Qed.

(** *** The opcodes met in the statements *)

Lemma iteration_stamp_empty c l0 l1 l2 rest :
  iteration constants hooks_join hooks_message c ([66; l0; l1; l2; 0; 0; 0] ++ rest) = Wait.
Proof.
  unfold iteration, iteration_on, rbind. cbn [app]. rewrite readBytes_1.
  change ([66] !!! 0%nat) with 66. unfold dispatch, rbind. cbv beta iota.
  rewrite readBytes_6. reflexivity.
Qed.

Lemma iteration_brush c rest :
  iteration constants hooks_join hooks_message c (35 :: rest)
  = Got (update_client c (λ C, set_brush (brush C `mod` 3 + 1) C) ;;; relay c 35 []) rest.
Proof. unfold iteration, iteration_on, rbind. rewrite readBytes_1. reflexivity. Qed.

Lemma iteration_select c a b rest :
  iteration constants hooks_join hooks_message c (37 :: a :: b :: rest) = Got (select_element c [a; b]) rest.
Proof.
  unfold iteration, iteration_on, rbind. rewrite readBytes_1.
  change ([37] !!! 0%nat) with 37. unfold dispatch, rbind. cbv beta iota.
  rewrite readBytes_2. reflexivity.
Qed.

Lemma iteration_kick c nick_ reason rest :
  Forall (λ x, x ≠ 0) nick_ →
  Forall (λ x, x ≠ 0) reason →
  iteration constants hooks_join hooks_message c (21 :: nick_ ++ 0 :: reason ++ 0 :: rest)
  = Got (kick_command c (toString nick_) (toString reason)) rest.
Proof.
  intros Hn Hr. unfold iteration, iteration_on, rbind. rewrite readBytes_1.
  change ([21] !!! 0%nat) with 21. unfold dispatch, rbind. cbv beta iota.
  rewrite readUntilNull_app by done. rewrite readUntilNull_app by done.
  reflexivity.
Qed.

(** *** Opcode 37 *)

Lemma select_element_chat σ c a b :
  a = 194 ∨ b = 195 →
  select_element c [a; b] σ
  = Ok () (with_clients σ (alter (set_isChat true) c (client_heap σ))).
Proof.
  intros Hab. unfold select_element.
  replace (negb (js_eq ([a; b] !! 0%nat) 194) && negb (js_eq ([a; b] !! 1%nat) 195))
    with false.
  - done.
  - change ([a; b] !! 0%nat) with (Some a). change ([a; b] !! 1%nat) with (Some b).
    cbn [js_eq].
    destruct Hab as [-> | ->]; simpl; [done|]. by rewrite andb_false_r.
Qed.

Lemma select_element_store σ c a b :
  a ≠ 194 → b ≠ 195 →
  select_element c [a; b] σ
  = let σ' := store_selection σ c (a / 64 + 1) [a; b] in
    Ok () (add_trace σ'
      (room_writes σ' c (Buffer_from [37; to_uint8 (cid (client_heap σ' !!! c)); a; b]))).
Proof.
  intros Ha Hb. unfold select_element.
  change ([a; b] !!! 0%nat) with a.
  change ([a; b] !! 0%nat) with (Some a). change ([a; b] !! 1%nat) with (Some b).
  cbn [js_eq].
  rewrite (proj2 (Z.eqb_neq a 194)), (proj2 (Z.eqb_neq b 195)) by done.
  cbn [negb andb]. cbv zeta.
  unfold bind at 1. unfold update_client at 1. cbv beta iota.
  rewrite relay_spec. done.
Qed.

(** C2.  The code does not do what the claim says: the test of case 37 is
    [data[0] !== 194 && data[1] !== 195], so the chat branch is taken as
    soon as one of the two bytes has its sentinel value.  For every
    payload with [a = 194] or [b = 195], for instance (194, 0), the
    session only sets [isChat]: no selection is stored and nothing is
    relayed. *)
Theorem select_element_chat_on_either_byte (σ : State) (c : nat) (a b : Z)
    (rest : list Z) :
  a = 194 ∨ b = 195 →
  ∃ act σ',
    iteration constants hooks_join hooks_message c (37 :: a :: b :: rest) = Got act rest
    ∧ act σ = Ok () σ'
    ∧ client_heap σ' = alter (set_isChat true) c (client_heap σ)
    ∧ trace σ' = trace σ.
Proof.
  intros Hab. eexists _, _. split; [apply iteration_select|].
  split; [by apply select_element_chat|]. done.
Qed.

(** *** Opcode 66 *)

(** C9.  The code does not do what the claim says: for a stamp with
    declared length 0 the session calls [readBytes(0)], whose
    [socket.read(0)] returns [null] at every ['readable'] event.  The turn
    never finishes, whatever bytes [rest] follow: nothing is relayed, the
    store is unchanged and the opcodes in [rest] are not processed. *)
Theorem stamp_of_length_zero_stalls (σ : State) (c : nat) (l0 l1 l2 : Z)
    (rest : list Z) (fuel : nat) :
  connected (client_heap σ !!! c) = true →
  iteration constants hooks_join hooks_message c ([66; l0; l1; l2; 0; 0; 0] ++ rest) = Wait
  ∧ main_loop constants hooks_join hooks_message (S fuel) c ([66; l0; l1; l2; 0; 0; 0] ++ rest) σ
    = Some (Suspended ([66; l0; l1; l2; 0; 0; 0] ++ rest) σ).
Proof.
  intros Hc. split; [apply iteration_stamp_empty|].
  cbn [main_loop]. rewrite Hc. by rewrite iteration_stamp_empty.
Qed.

(** *** Opcode 35 *)

Lemma shape_change_spec σ c :
  (update_client c (λ C, set_brush (brush C `mod` 3 + 1) C) ;;; relay c 35 []) σ
  = Ok () (shape_changed σ c).
Proof.
  unfold bind at 1. unfold update_client at 1. cbv beta iota.
  rewrite relay_spec. done.
Qed.

Lemma shape_changed_client σ c C :
  client_heap σ !! c = Some C →
  client_heap (shape_changed σ c) !! c = Some (set_brush (brush C `mod` 3 + 1) C).
Proof.
  intros HC. unfold shape_changed. cbn [add_trace with_clients client_heap].
  by rewrite lookup_alter_eq, HC.
Qed.

(** [k] turns of the loop on opcode 35. *)
Lemma main_loop_brush k : ∀ σ c C fuel,
  client_heap σ !! c = Some C →
  connected C = true →
  (k < fuel)%nat →
  ∃ σ' C',
    main_loop constants hooks_join hooks_message fuel c (replicate k 35) σ = Some (Suspended [] σ')
    ∧ client_heap σ' !! c = Some C'
    ∧ brush C' = Nat.iter k (λ b, b `mod` 3 + 1) (brush C).
Proof.
  clear hooks_connect. induction k as [|k IH]; intros σ c C fuel HC Hconn Hfuel.
  - destruct fuel as [|fuel]; [lia|]. exists σ, C. split; [|done].
    cbn [main_loop replicate]. rewrite (lookup_total_correct _ _ _ HC), Hconn.
    reflexivity.
  - destruct fuel as [|fuel]; [lia|].
    cbn [main_loop replicate]. rewrite (lookup_total_correct _ _ _ HC), Hconn.
    rewrite iteration_brush, shape_change_spec.
    destruct (IH (shape_changed σ c) c (set_brush (brush C `mod` 3 + 1) C) fuel)
      as (σ' & C' & Hrun & HC' & Hb); [by apply shape_changed_client|done|lia|].
    exists σ', C'. split; [done|]. split; [done|].
    rewrite Hb. cbn [brush set_brush]. by rewrite Nat.iter_succ_r.
Qed.

(** C6.  From [brush = 0], [k ≥ 1] turns of the loop on opcode 35 each
    perform [brush := brush % 3 + 1] and leave [brush] equal to
    [((k - 1) mod 3) + 1], one of 1, 2, 3 and never 0 again. *)
Theorem brush_shape_cycle (k : nat) (σ : State) (c : nat) (C : Client) :
  (1 ≤ k)%nat →
  client_heap σ !! c = Some C →
  connected C = true →
  brush C = 0 →
  ∃ σ' C',
    main_loop constants hooks_join hooks_message (S k) c (replicate k 35) σ = Some (Suspended [] σ')
    ∧ client_heap σ' !! c = Some C'
    ∧ brush C' = Nat.iter k (λ b, b `mod` 3 + 1) 0
    ∧ brush C' = (Z.of_nat k - 1) `mod` 3 + 1
    ∧ brush C' ∈ [1; 2; 3].
Proof.
  clear hooks_connect. intros Hk HC Hconn Hb.
  destruct (main_loop_brush k σ c C (S k) HC Hconn ltac:(lia))
    as (σ' & C' & Hrun & HC' & Hb').
  exists σ', C'. rewrite Hb in Hb'. split; [done|]. split; [done|]. split; [done|].
  rewrite Hb', brush_cycle_value by done. split; [done|].
  destruct (mod_3_cases (Z.of_nat k - 1) ltac:(lia)) as [-> | [-> | ->]]; set_solver.
Qed.

(** *** Opcode 21 *)

Lemma kick_command_lobby σ c nick_ reason r :
  match_printable reason = true →
  str_length reason ≤ 200 →
  room (client_heap σ !!! c) = Some r →
  name (room_heap σ !!! r) = "null" →
  kick_command c nick_ reason σ
  = Ok () (add_trace σ [SocketWrite (socket (client_heap σ !!! c))
             (server_message_frame "You can't kick people from the lobby")]).
Proof.
  intros Hp Hl Hr Hn. unfold kick_command. rewrite Hp.
  rewrite (proj2 (Z.ltb_ge _ _)) by done. cbn [negb].
  unfold bind, the_client, the_room. rewrite Hr, Hn.
  reflexivity.
Qed.

Lemma kick_command_not_op σ c nick_ reason r :
  match_printable reason = true →
  str_length reason ≤ 200 →
  room (client_heap σ !!! c) = Some r →
  name (room_heap σ !!! r) ≠ "null" →
  op (room_heap σ !!! r) ≠ num_val (cid (client_heap σ !!! c)) →
  kick_command c nick_ reason σ
  = Ok () (add_trace σ [SocketWrite (socket (client_heap σ !!! c))
             (server_message_frame "You can't kick people from here")]).
Proof.
  intros Hp Hl Hr Hn Hop. unfold kick_command. rewrite Hp.
  rewrite (proj2 (Z.ltb_ge _ _)) by done. cbn [negb].
  unfold bind, the_client, the_room. rewrite Hr.
  rewrite bool_decide_eq_false_2 by done.
  unfold strict_eq. rewrite bool_decide_eq_false_2 by done.
  reflexivity.
Qed.

(** C8.  A kick with a valid reason from a client whose room is the lobby
    or whose id is not the room's [op] only writes a [serverMessage] to
    that client (about the lobby when the room is the lobby, about "here"
    otherwise): nobody is kicked, no socket is ended and the tables, the
    rooms and the clients are unchanged. *)
Theorem kick_refused_without_authority (σ : State) (c : nat) (nick_ reason rest : list Z)
    (r : nat) :
  Forall (λ x, x ≠ 0) nick_ →
  Forall (λ x, x ≠ 0) reason →
  match_printable (toString reason) = true →
  str_length (toString reason) ≤ 200 →
  room (client_heap σ !!! c) = Some r →
  name (room_heap σ !!! r) = "null"
  ∨ op (room_heap σ !!! r) ≠ num_val (cid (client_heap σ !!! c)) →
  ∃ act message,
    iteration constants hooks_join hooks_message c (21 :: nick_ ++ 0 :: reason ++ 0 :: rest) = Got act rest
    ∧ act σ = Ok () (add_trace σ [SocketWrite (socket (client_heap σ !!! c))
                                    (server_message_frame message)])
    ∧ message = (if decide (name (room_heap σ !!! r) = "null")
                 then "You can't kick people from the lobby"
                 else "You can't kick people from here").
Proof.
  intros Hn Hr Hp Hl Hroom Hauth.
  eexists _, _. split; [by apply iteration_kick|]. split; [|done].
  destruct (decide (name (room_heap σ !!! r) = "null")) as [Hlobby|Hlobby].
  - by eapply kick_command_lobby.
  - destruct Hauth as [?|Hop]; [done|]. by eapply kick_command_not_op.
Qed.

(** *** The handshake *)

(** C3.  The code does not do what the claim says: in the script-mismatch
    branch the argument of [socket.write] reads [this.constants.SCRIPT],
    and a [Client] has no property [constants].  The handshake throws a
    [TypeError] before anything is written: the trace is unchanged (no
    error frame, no [disconnect]) and the client stays in the table. *)
Theorem script_mismatch_throws (σ : State) (c : nat) (major minor script : Z)
    (nick_ : list Z) :
  in_window constants major minor →
  script ≠ SCRIPT constants →
  ∃ σ',
    handshake constants hooks_connect c (major :: minor :: script :: nick_) σ
    = Throw (TypeError "Cannot read properties of undefined (reading 'SCRIPT')") σ'
    ∧ σ' = with_clients σ
             (alter (set_version [Some major; Some minor; Some script]) c
                (alter (set_initial false) c (client_heap σ)))
    ∧ trace σ' = trace σ
    ∧ server_clients σ' = server_clients σ.
Proof.
  intros [Hlo Hhi] Hs.
  assert (Hrun : handshake constants hooks_connect c (major :: minor :: script :: nick_) σ
    = Throw (TypeError "Cannot read properties of undefined (reading 'SCRIPT')")
        (with_clients σ
           (alter (set_version [Some major; Some minor; Some script]) c
              (alter (set_initial false) c (client_heap σ))))).
  { unfold handshake.
    unfold bind at 1. unfold update_client at 1. cbv beta iota.
    unfold bind at 1. unfold update_client at 1. cbv beta iota.
    cbn [lookup list_lookup]. cbv zeta.
    unfold bind at 1. unfold the_client at 1. cbv beta iota.
    cbn [js_lt js_gt js_eq].
    replace ((major <? MAJOR_MIN constants)
             || (major =? MAJOR_MIN constants) && (minor <? MINOR_MIN constants))
      with false by (symmetry; apply orb_false_intro;
                     [|apply andb_false_iff]; lia).
    replace ((MAJOR_MAX constants <? major)
             || (major =? MAJOR_MAX constants) && (MINOR_MAX constants <? minor))
      with false by (symmetry; apply orb_false_intro;
                     [|apply andb_false_iff]; lia).
    rewrite (proj2 (Z.eqb_neq _ _) Hs). reflexivity. }
  eexists. split; [exact Hrun|]. done.
Qed.

End SessionFacts.

(** ** The join replay *)

Lemma filter_all {A} (P : A → Prop) `{∀ x, Decision (P x)} (l : list A) :
  Forall P l → filter P l = l.
Proof.
  intros Hl. induction Hl as [|x l Hx Hl IH]; [done|].
  rewrite filter_cons, decide_True by done. by rewrite IH.
Qed.

Lemma send_writes_by_id σ l buf c :
  send_writes σ l buf (Some c)
  = (λ m, SocketWrite (socket (client_heap σ !!! m)) buf)
      <$> filter (λ m, cid (client_heap σ !!! m) ≠ cid (client_heap σ !!! c)) l.
Proof.
  unfold send_writes, send_targets. f_equal. apply list_filter_iff. intros m.
  cbn [except_val]. split.
  - intros Hne Heq. apply Hne. by rewrite Heq.
  - intros Hne Heq. by apply Hne, num_val_inj.
Qed.

(** C5, as amended.  [Room.join] of a client already in the room changes
    nothing.  For a room in the store whose members [M] have completed
    their handshake (each has a nick and its four selections), and a client
    [c] outside the room that has a nick, it returns after it has done, in
    this order: the [join] event; to [c] the frame [16, |M|], then one
    roster frame per member, then the state frames of each member (its
    [brush] frames [35], then [34], the four [37], [38] and [65]); then
    the frame [17, c.id, c.nick, 0] to the members of [M] whose id is not
    the id of [c], once each, and to nobody else; then the sync request,
    [128, c.id] to the first member that is not in chat mode and has
    another id than [c], if there is one.  Only then is [c] added, at the
    end of the member set; so the roster, built from [M], never names [c].
    A member with the id of [c] is not told of the join; when no member
    has the id of [c], every member is told once.  In a store the server
    can reach, the members of every room are as required here
    ([members_replayable]). *)
Theorem join_replay_before_add (σ : State) (r c : nat) (R : Room) :
  room_heap σ !! r = Some R →
  (c ∈ clients R → Room_join r c σ = Ok () σ)
  ∧ (c ∉ clients R →
     is_Some (nick (client_heap σ !!! c)) →
     Forall (λ m, replayable (client_heap σ !!! m)) (clients R) →
     ∃ σ',
       Room_join r c σ = Ok () σ'
       ∧ trace σ'
         = trace σ
           ++ [RoomEmit r (RJoin c);
               SocketWrite (socket (client_heap σ !!! c))
                 (Buffer_from [16; Z.of_nat (length (clients R))])]
           ++ ((λ m, SocketWrite (socket (client_heap σ !!! c))
                       (roster_frame (client_heap σ !!! m))) <$> clients R)
           ++ (clients R ≫= λ m, SocketWrite (socket (client_heap σ !!! c))
                                  <$> state_frames (client_heap σ !!! m))
           ++ ((λ m, SocketWrite (socket (client_heap σ !!! m))
                       (join_frame (client_heap σ !!! c)))
                 <$> filter (λ m, cid (client_heap σ !!! m) ≠ cid (client_heap σ !!! c))
                       (clients R))
           ++ sync_writes σ (clients R) c
       ∧ clients (room_heap σ' !!! r) = clients R ++ [c]
       ∧ client_heap σ' = client_heap σ
       ∧ (Forall (λ m, cid (client_heap σ !!! m) ≠ cid (client_heap σ !!! c)) (clients R) →
          filter (λ m, cid (client_heap σ !!! m) ≠ cid (client_heap σ !!! c)) (clients R)
          = clients R)).
Proof.
  intros HR. pose proof (lookup_total_correct _ _ _ HR) as HR'. split.
  - intros Hc. apply Room_join_member. by rewrite HR'.
  - intros Hc Hnick Hmem. eexists. split; [by apply Room_join_spec|].
    cbn [add_trace with_rooms trace room_heap client_heap].
    rewrite lookup_total_insert_eq. split; [|split; [done|split; [done|]]].
    + unfold join_effects. rewrite HR'. cbv zeta.
      by rewrite send_writes_by_id.
    + apply filter_all.
Qed.

(** ** Index 4 of the selections *)

Lemma store_selection_same_replay σ m v x :
  same_replay (client_heap σ !!! x) (client_heap (store_selection σ m 4 v) !!! x).
Proof.
  unfold store_selection. cbn [with_clients client_heap].
  rewrite lookup_total_alter, (lookup_total_alt (client_heap σ)).
  case_decide as Hmx; [subst x|].
  - destruct (client_heap σ !! m) as [C|]; simpl.
    + repeat split; try done.
      repeat (apply Forall_cons_2;
                [cbv beta; cbn [brushSelection set_brushSelection];
                 by rewrite lookup_insert_ne|]).
      by apply Forall_nil.
    + repeat split; try done. repeat (apply Forall_cons_2; [done|]). by apply Forall_nil.
  - repeat split; try done. repeat (apply Forall_cons_2; [done|]). by apply Forall_nil.
Qed.

Lemma same_replay_frames C C' :
  same_replay C C' →
  roster_frame C' = roster_frame C ∧ state_frames C' = state_frames C
  ∧ join_frame C' = join_frame C.
Proof.
  intros (Hs & Hn & Hi & Hc & Hb & Hbs & Hr & Hd & Hsel).
  unfold roster_frame, state_frames, join_frame, nick_bytes, selection_frame.
  rewrite Hn, Hi, Hb, Hbs, Hr, Hd.
  repeat (apply Forall_cons in Hsel as [? Hsel]).
  cbn [fmap list_fmap].
  by repeat match goal with
            | H : brushSelection C' !! _ = _ |- _ => rewrite H; clear H
            end.
Qed.

Lemma same_replay_replayable C C' : same_replay C C' → replayable C → replayable C'.
Proof.
  intros (_ & Hn & _ & _ & _ & _ & _ & _ & Hsel) [Hnick Hs]. split; [by rewrite Hn|].
  rewrite Forall_forall in Hsel, Hs. apply Forall_forall. intros i Hi.
  rewrite (Hsel i Hi). by apply Hs.
Qed.

Lemma join_effects_ignore_index_4 σ r c m v :
  join_effects (store_selection σ m 4 v) r c = join_effects σ r c.
Proof.
  unfold join_effects. change (room_heap (store_selection σ m 4 v)) with (room_heap σ).
  pose proof (store_selection_same_replay σ m v) as Hsame.
  set (σ4 := store_selection σ m 4 v) in *.
  cbv zeta.
  destruct (Hsame c) as (Hs & Hn & Hi & Hc & _).
  destruct (same_replay_frames _ _ (Hsame c)) as (_ & _ & Hjf).
  rewrite Hs, Hjf. f_equal. f_equal. f_equal.
  { apply list_fmap_ext. intros _ x _. f_equal.
    by destruct (same_replay_frames _ _ (Hsame x)) as (-> & _ & _). }
  f_equal.
  { induction (clients (room_heap σ !!! r)) as [|x l IH]; [done|].
    rewrite !bind_cons, IH.
    by destruct (same_replay_frames _ _ (Hsame x)) as (_ & -> & _). }
  f_equal.
  { unfold send_writes, send_targets. cbn [except_val]. rewrite Hi.
    induction (clients (room_heap σ !!! r)) as [|x l IH]; [done|].
    destruct (Hsame x) as (Hsx & _ & Hix & _).
    rewrite !filter_cons, Hix. case_decide; [|done].
    rewrite !fmap_cons, Hsx. f_equal. apply IH. }
  unfold sync_writes, sync_target. rewrite Hi.
  induction (clients (room_heap σ !!! r)) as [|x l IH]; [done|].
  destruct (Hsame x) as (Hsx & _ & Hix & Hcx & _).
  cbn [List.find]. rewrite Hcx, Hix.
  destruct (negb (isChat (client_heap σ !!! x)) && _); [by rewrite Hsx|apply IH].
Qed.

(** A join emits the same whether or not a member has a selection at
    index 4. *)
Lemma Room_join_ignores_index_4 σ r c R m v :
  room_heap σ !! r = Some R →
  c ∉ clients R →
  is_Some (nick (client_heap σ !!! c)) →
  Forall (λ m, replayable (client_heap σ !!! m)) (clients R) →
  ∃ σ1 σ2,
    Room_join r c σ = Ok () σ1
    ∧ Room_join r c (store_selection σ m 4 v) = Ok () σ2
    ∧ trace σ1 = trace σ ++ join_effects σ r c
    ∧ trace σ2 = trace σ ++ join_effects σ r c.
Proof.
  intros HR Hc Hnick Hmem. pose proof (store_selection_same_replay σ m v) as Hsame.
  eexists _, _. split; [by apply Room_join_spec|]. split.
  - apply Room_join_spec; [done|done| |].
    + destruct (Hsame c) as (_ & -> & _). done.
    + eapply Forall_impl; [exact Hmem|]. intros x. apply same_replay_replayable, Hsame.
  - split; [done|]. cbn [add_trace with_rooms trace].
    by rewrite join_effects_ignore_index_4.
Qed.

(** ** Index 0 of the selections *)

Create HintDb pres discriminated.

Lemma pres_ret {A} (a : A) : preserves (ret a).
Proof. by intros σ. Qed.
Lemma pres_throw {A} e : preserves (@throw A e).
Proof. by intros σ. Qed.
Lemma pres_bind {A B} (m : M A) (k : A → M B) :
  preserves m → (∀ a, preserves (k a)) → preserves (bind m k).
Proof.
  intros Hm Hk σ Hσ. unfold bind. specialize (Hm σ Hσ).
  destruct (m σ) as [a σ'|e σ']; [by apply Hk|done].
Qed.
Lemma pres_same_heap {A} (m : M A) :
  (∀ σ, client_heap (state_of (m σ)) = client_heap σ) → preserves m.
Proof. intros Hm σ Hσ c C. rewrite Hm. apply Hσ. Qed.
Lemma pres_get_state : preserves get_state.
Proof. by apply pres_same_heap. Qed.
Lemma pres_the_client c : preserves (the_client c).
Proof. by apply pres_same_heap. Qed.
Lemma pres_the_room r : preserves (the_room r).
Proof. by apply pres_same_heap. Qed.
Lemma pres_do_effect e : preserves (do_effect e).
Proof. by apply pres_same_heap. Qed.
Lemma pres_socket_write s d : preserves (socket_write s d).
Proof. by apply pres_same_heap. Qed.
Lemma pres_socket_end s : preserves (socket_end s).
Proof. by apply pres_same_heap. Qed.
Lemma pres_update_room r f : preserves (update_room r f).
Proof. by apply pres_same_heap. Qed.
Lemma pres_set_server_clients f : preserves (set_server_clients f).
Proof. by apply pres_same_heap. Qed.
Lemma pres_set_server_rooms f : preserves (set_server_rooms f).
Proof. by apply pres_same_heap. Qed.
Lemma pres_Room_new n : preserves (Room_new n).
Proof. by apply pres_same_heap. Qed.
Lemma pres_Buffer_from_string o : preserves (Buffer_from_string o).
Proof. destruct o; [apply pres_ret|apply pres_throw]. Qed.
Lemma pres_update_client c f :
  (∀ C, brushSelection C !! 0 = Some [0; 1] → brushSelection (f C) !! 0 = Some [0; 1]) →
  preserves (update_client c f).
Proof.
  intros Hf σ Hσ c' C'. cbn [update_client state_of client_heap].
  rewrite lookup_alter. case_decide as Hc; [|apply Hσ]. subst c'.
  destruct (client_heap σ !! c) as [C|] eqn:HC; [|done].
  intros [= <-]. apply Hf. by eapply Hσ.
Qed.
Lemma pres_for_of {A} (l : list A) (body : A → M unit) :
  (∀ x, preserves (body x)) → preserves (for_of l body).
Proof.
  intros Hb. induction l as [|x l IH]; [apply pres_ret|].
  cbn [for_of]. apply pres_bind; [apply Hb|by intros _].
Qed.

Global Hint Resolve pres_ret pres_throw pres_bind pres_get_state pres_the_client
  pres_the_room pres_do_effect pres_socket_write pres_socket_end pres_update_room
  pres_set_server_clients pres_set_server_rooms pres_Room_new pres_Buffer_from_string
  pres_for_of : pres.
Global Hint Extern 1 (preserves (update_client _ _)) =>
  (apply pres_update_client; intros ? ?; assumption) : pres.
Global Hint Extern 2 (preserves (match ?x with _ => _ end)) => destruct x : pres.
Global Hint Extern 2 (preserves (let _ := _ in _)) => cbv zeta : pres.

Ltac pres := eauto 100 with pres.

Lemma pres_except_id e : preserves (except_id e).
Proof. unfold except_id. pres. Qed.
Global Hint Resolve pres_except_id : pres.

Lemma pres_Room_send r buf e : preserves (Room_send r buf e).
Proof. unfold Room_send. pres. Qed.
Global Hint Resolve pres_Room_send : pres.

Lemma pres_requestSync_loop l c : preserves (requestSync_loop l c).
Proof. induction l as [|m l IH]; cbn [requestSync_loop]; pres. Qed.
Global Hint Resolve pres_requestSync_loop : pres.

Lemma pres_Room_requestSync r c : preserves (Room_requestSync r c).
Proof. unfold Room_requestSync. pres. Qed.
Global Hint Resolve pres_Room_requestSync : pres.

Lemma pres_spread_selection M_ i : preserves (spread_selection M_ i).
Proof. unfold spread_selection. pres. Qed.
Global Hint Resolve pres_spread_selection : pres.

Lemma pres_replay_member s m : preserves (replay_member s m).
Proof. unfold replay_member. pres. Qed.
Global Hint Resolve pres_replay_member : pres.

Lemma pres_Room_join r c : preserves (Room_join r c).
Proof. unfold Room_join. pres. Qed.
Lemma pres_Room_part r c : preserves (Room_part r c).
Proof. unfold Room_part. pres. Qed.
Global Hint Resolve pres_Room_join pres_Room_part : pres.

Lemma pres_Server_join c r : preserves (Server_join c r).
Proof. unfold Server_join. pres. Qed.
Lemma pres_Server_part c r : preserves (Server_part c r).
Proof. unfold Server_part. pres. Qed.
Lemma pres_Server_disconnect c r : preserves (Server_disconnect c r).
Proof. unfold Server_disconnect. pres. Qed.
Global Hint Resolve pres_Server_join pres_Server_part pres_Server_disconnect : pres.

Lemma pres_Client_new s : preserves (Client_new s).
Proof.
  intros σ Hσ c C. cbn [Client_new state_of client_heap].
  rewrite lookup_insert. case_decide; [|apply Hσ]. by intros [= <-].
Qed.
Global Hint Resolve pres_Client_new : pres.

Lemma pres_Server_connectionHandler s : preserves (Server_connectionHandler s).
Proof. unfold Server_connectionHandler. pres. Qed.
Lemma pres_Client_serverMessage c m r g b : preserves (Client_serverMessage c m r g b).
Proof. unfold Client_serverMessage. pres. Qed.
Lemma pres_Client_sendToRoom c m i : preserves (Client_sendToRoom c m i).
Proof. unfold Client_sendToRoom. pres. Qed.
Lemma pres_Client_join c r : preserves (Client_join c r).
Proof. unfold Client_join. pres. Qed.
Lemma pres_Client_part c : preserves (Client_part c).
Proof. unfold Client_part. pres. Qed.
Global Hint Resolve pres_Client_serverMessage pres_Client_sendToRoom pres_Client_join
  pres_Client_part : pres.

Lemma pres_Client_disconnect c r : preserves (Client_disconnect c r).
Proof. unfold Client_disconnect. pres. Qed.
Global Hint Resolve pres_Client_disconnect : pres.

Lemma pres_Client_kick c s r : preserves (Client_kick c s r).
Proof. unfold Client_kick. pres. Qed.
Global Hint Resolve pres_Client_kick : pres.

Lemma pres_on_close c : preserves (on_close c).
Proof. unfold on_close. pres. Qed.

Lemma pres_relay c cmd data : preserves (relay c cmd data).
Proof. unfold relay. pres. Qed.
Global Hint Resolve pres_relay : pres.

Lemma pres_room_send_unchecked c buf : preserves (room_send_unchecked c buf).
Proof. unfold room_send_unchecked. pres. Qed.
Global Hint Resolve pres_room_send_unchecked : pres.

Lemma pres_kick_first c members nick_ reason : preserves (kick_first c members nick_ reason).
Proof. unfold kick_first. pres. Qed.
Global Hint Resolve pres_kick_first : pres.

Lemma pres_kick_command c nick_ reason : preserves (kick_command c nick_ reason).
Proof. unfold kick_command. pres. Qed.

Lemma pres_sync_reply data stamp : preserves (sync_reply data stamp).
Proof. unfold sync_reply. pres. Qed.
Global Hint Resolve pres_kick_command pres_sync_reply : pres.

(** A byte [a] is stored at index [a / 64 + 1], which is never 0. *)
Lemma pres_select_element c a data :
  is_byte a → preserves (select_element c (a :: data)).
Proof.
  intros Ha. unfold select_element.
  change ((a :: data) !!! 0%nat) with a. cbv zeta.
  destruct (negb _ && negb _); [|pres].
  apply pres_bind; [|pres]. apply pres_update_client. intros C HC.
  cbn [brushSelection set_brushSelection]. rewrite lookup_insert_ne; [done|].
  unfold is_byte in Ha. pose proof (Z.div_pos a 64). lia.
Qed.

Lemma reads_ok_rret act : preserves act → reads_ok (rret act).
Proof. intros Hact inp act' rest _ [= <- _]. done. Qed.

Lemma reads_ok_readBytes ended n (k : list Z → Reader (M unit)) :
  (∀ d, Forall is_byte d → (1 ≤ length d)%nat → reads_ok (k d)) →
  reads_ok (rbind (readBytes ended n) k).
Proof.
  intros Hk inp act rest Hinp. unfold rbind, readBytes.
  destruct (socket_read ended n inp) as [[d inp']|] eqn:Hread; [|done].
  destruct (socket_read_bytes _ _ _ _ _ Hinp Hread) as (Hd & Hinp' & [Hlen _] & _).
  by apply Hk.
Qed.

Lemma reads_ok_readUntilNull (k : list Z → Reader (M unit)) :
  (∀ d, reads_ok (k d)) → reads_ok (rbind readUntilNull k).
Proof.
  intros Hk inp act rest Hinp. unfold rbind, readUntilNull.
  destruct (readUntilNull_loop [] inp) as [d inp'|] eqn:Hread; [|done].
  apply Hk. by eapply readUntilNull_loop_bytes.
Qed.

Ltac reads_ok_case :=
  lazy beta iota;
  repeat first
    [ apply reads_ok_readUntilNull; intros ?
    | apply reads_ok_readBytes; intros ? ? ? ];
  apply reads_ok_rret.

Section Invariant.

Variable constants : Constants.
Variable hooks_connect : Client → bool.
Variable hooks_join : Client → string → bool.
Variable hooks_message : Client → string → bool.

Lemma pres_handshake c buf : preserves (handshake constants hooks_connect c buf).
Proof. unfold handshake. pres. Qed.

Lemma pres_chat c cmd shown message : preserves (chat hooks_message c cmd shown message).
Proof. unfold chat. pres. Qed.

Lemma pres_sync_properties_reply c data :
  preserves (sync_properties_reply constants c data).
Proof. unfold sync_properties_reply. pres. Qed.

Hint Resolve pres_chat pres_sync_properties_reply : pres.

(** Every case of the switch, opcode by opcode. *)
Lemma reads_ok_dispatch ended c :
  Forall (λ x, reads_ok (dispatch constants hooks_join hooks_message ended c x))
    (seqZ 0 256).
Proof.
  let l := eval vm_compute in (seqZ 0 256) in change (seqZ 0 256) with l.
  repeat (apply Forall_cons_2;
          [unfold dispatch; reads_ok_case; try solve [pres]|]); [|by apply Forall_nil].
  match goal with d : list Z, Hd : Forall is_byte ?d', Hlen : (1 ≤ length ?d')%nat |- _ =>
    destruct d' as [|a d']; [cbn in Hlen; lia|];
    apply Forall_cons in Hd as [Ha _]; by apply pres_select_element end.
Qed.

Lemma reads_ok_dispatch_byte ended c x :
  is_byte x → reads_ok (dispatch constants hooks_join hooks_message ended c x).
Proof.
  intros Hx. pose proof (reads_ok_dispatch ended c) as Hall.
  rewrite Forall_forall in Hall. apply Hall.
  apply elem_of_seqZ. unfold is_byte in Hx. lia.
Qed.

Lemma reads_ok_iteration ended c :
  reads_ok (iteration_on constants hooks_join hooks_message ended c).
Proof.
  unfold iteration_on. apply reads_ok_readBytes. intros cmd Hcmd Hlen.
  destruct cmd as [|x cmd]; [cbn in Hlen; lia|].
  apply Forall_cons in Hcmd as [Hx _]. change ((x :: cmd) !!! 0%nat) with x.
  by apply reads_ok_dispatch_byte.
Qed.

(** *** The loop never runs out of fuel *)

Lemma reads_shrink_rret {A} (a : A) : reads_shrink (rret a).
Proof. intros inp a' rest Hinp [= _ <-]. done. Qed.

Lemma reads_shrink_readBytes {A} ended n (k : list Z → Reader A) :
  (∀ d, reads_shrink (k d)) → reads_shrink (rbind (readBytes ended n) k).
Proof.
  intros Hk inp a rest Hinp. unfold rbind, readBytes.
  destruct (socket_read ended n inp) as [[d inp']|] eqn:Hread; [|done].
  destruct (socket_read_bytes _ _ _ _ _ Hinp Hread) as (_ & Hinp' & _ & Hsum & _).
  intros Hrun. destruct (Hk d inp' a rest Hinp' Hrun) as [Hlen Hrest].
  split; [lia|done].
Qed.

Lemma readUntilNull_loop_length : ∀ inp data d rest,
  readUntilNull_loop data inp = Got d rest → (length rest ≤ length inp)%nat.
Proof.
  induction inp as [|x inp IH]; intros data d rest; [done|].
  cbn [readUntilNull_loop length].
  destruct (x =? 0); [intros [= _ <-]; lia|]. intros Hrun%IH. lia.
Qed.

Lemma reads_shrink_readUntilNull {A} (k : list Z → Reader A) :
  (∀ d, reads_shrink (k d)) → reads_shrink (rbind readUntilNull k).
Proof.
  intros Hk inp a rest Hinp. unfold rbind, readUntilNull.
  destruct (readUntilNull_loop [] inp) as [d inp'|] eqn:Hread; [|done].
  intros Hrun.
  destruct (Hk d inp' a rest (readUntilNull_loop_bytes _ _ _ _ Hinp Hread) Hrun)
    as [Hlen Hrest].
  split; [|done]. apply readUntilNull_loop_length in Hread. lia.
Qed.

Ltac reads_shrink_case :=
  lazy beta iota;
  repeat first
    [ apply reads_shrink_readUntilNull; intros ?
    | apply reads_shrink_readBytes; intros ? ];
  apply reads_shrink_rret.

Lemma reads_shrink_dispatch c :
  Forall (λ x, reads_shrink (dispatch constants hooks_join hooks_message false c x))
    (seqZ 0 256).
Proof.
  let l := eval vm_compute in (seqZ 0 256) in change (seqZ 0 256) with l.
  repeat (apply Forall_cons_2; [unfold dispatch; reads_shrink_case|]).
  by apply Forall_nil.
Qed.

(** A turn consumes at least the opcode byte. *)
Lemma iteration_consumes c inp act rest :
  Forall is_byte inp →
  iteration constants hooks_join hooks_message c inp = Got act rest →
  (length rest < length inp)%nat ∧ Forall is_byte rest.
Proof.
  intros Hinp. unfold iteration, iteration_on, rbind at 1, readBytes.
  destruct (socket_read false 1 inp) as [[cmd inp']|] eqn:Hread; [|done].
  destruct (socket_read_bytes _ _ _ _ _ Hinp Hread) as (Hcmd & Hinp' & [Hlen _] & Hsum & _).
  destruct cmd as [|x cmd]; [cbn in Hlen; lia|].
  apply Forall_cons in Hcmd as [Hx _]. change ((x :: cmd) !!! 0%nat) with x.
  pose proof (reads_shrink_dispatch c) as Hall. rewrite Forall_forall in Hall.
  intros Hrun. destruct (Hall x) with inp' act rest as [Hle Hrest]; [|done|done|].
  { apply elem_of_seqZ. unfold is_byte in Hx. lia. }
  split; [|done]. cbn [length] in Hsum. lia.
Qed.

Lemma main_loop_total fuel : ∀ c inp σ,
  Forall is_byte inp →
  (length inp < fuel)%nat →
  is_Some (main_loop constants hooks_join hooks_message fuel c inp σ).
Proof.
  induction fuel as [|fuel IH]; intros c inp σ Hinp Hfuel; [lia|].
  cbn [main_loop]. destruct (connected _); [|done].
  destruct (iteration _ _ _ _ inp) as [act rest|] eqn:Hit; [|done].
  destruct (iteration_consumes c inp act rest Hinp Hit) as [Hlen Hrest].
  destruct (act σ) as [? σ'|e σ']; [|done]. apply IH; [done|lia].
Qed.

Lemma first_selection_step σ σ' :
  step constants hooks_connect hooks_join hooks_message σ σ' →
  first_selection_kept σ → first_selection_kept σ'.
Proof.
  intros Hstep Hσ.
  destruct Hstep
    as [σ s|σ c buf _ _|σ c ended inp act rest _ Hinp Hact|σ c _|σ c message _|σ c _|σ c _].
  - by apply pres_Server_connectionHandler.
  - by apply pres_handshake.
  - by apply (reads_ok_iteration ended c inp act rest Hinp Hact).
  - unfold on_timeout. by apply pres_Client_disconnect.
  - unfold on_error. by apply pres_Client_disconnect.
  - unfold on_end. by apply pres_Client_disconnect.
  - by apply pres_on_close.
Qed.

Lemma first_selection_reachable σ :
  reachable constants hooks_connect hooks_join hooks_message σ → first_selection_kept σ.
Proof.
  induction 1 as [|σ σ' _ IH Hstep]; [done|]. by eapply first_selection_step.
Qed.

Lemma store_at_index_4 σ c C a b :
  client_heap σ !! c = Some C →
  is_byte a → 192 ≤ a → a ≠ 194 → b ≠ 195 →
  ∃ σ', select_element c [a; b] σ = Ok () σ'
        ∧ client_heap σ' !! c
          = Some (set_brushSelection (<[4 := [a; b]]> (brushSelection C)) C).
Proof.
  intros HC Ha Ha' Hna Hnb. eexists. split; [by apply select_element_store|].
  assert (Hidx : a / 64 + 1 = 4).
  { unfold is_byte in Ha. rewrite <- (Z.div_unique a 64 3 (a - 192)); lia. }
  cbv zeta. cbn [add_trace client_heap store_selection with_clients].
  by rewrite lookup_alter_eq, HC, Hidx.
Qed.


End Invariant.

(** * The statements on the scenario *)

Lemma part_reelects_client_object_witness :
  ∃ σ', Room_part 0%nat 0%nat σ_lobby = Ok () σ'
        ∧ clients (room_heap σ' !!! 0%nat) = [1%nat]
        ∧ op (room_heap σ' !!! 0%nat) = JClient 1
        ∧ op (room_heap σ' !!! 0%nat) ≠ num_val (cid (client_heap σ' !!! 1%nat))
        ∧ op (room_heap σ' !!! 0%nat) ∉ member_ids σ' (room_heap σ' !!! 0%nat).
Proof.
  apply (part_reelects_client_object σ_lobby 0%nat 0%nat
           (mkRoom "null" [0%nat; 1%nat] (JNum 0)) 1%nat []).
  - vm_compute. reflexivity.
  - left.
  - vm_compute. reflexivity.
  - vm_compute. reflexivity.
Defined.

(** In r1, after its operator alice has left, bob is the only member and
    still may not kick: [op] is a [Client] object, which [!==] any id. *)
Example reelected_operator_cannot_kick :
  room_heap σ_bob_alone !! 1%nat = Some (mkRoom "r1" [1%nat] (JClient 1))
  ∧ last (trace (after_input 1%nat
                   ([21] ++ bytes_of_string "carol" ++ [0] ++ bytes_of_string "bye" ++ [0])
                   σ_bob_alone))
    = Some (SocketWrite 8 (server_message_frame "You can't kick people from here")).
Proof. split; vm_compute; reflexivity. Qed.

Lemma select_element_chat_on_either_byte_witness :
  (194 = 194 ∨ 0 = 195)
  ∧ ∃ act σ',
      ex_iteration 0%nat [37; 194; 0] = Got act []
      ∧ act σ_alice = Ok () σ'
      ∧ client_heap σ' = alter (set_isChat true) 0%nat (client_heap σ_alice)
      ∧ trace σ' = trace σ_alice.
Proof.
  split; [by left|].
  apply (select_element_chat_on_either_byte ex_constants accept2 accept2
           σ_alice 0%nat 194 0 []).
  by left.
Defined.

Lemma script_mismatch_throws_witness :
  in_window ex_constants 1 5 ∧ 1 ≠ SCRIPT ex_constants
  ∧ ∃ σ',
      ex_handshake 0%nat ([1; 5; 1] ++ bytes_of_string "bob") σ_connected
      = Throw (TypeError "Cannot read properties of undefined (reading 'SCRIPT')") σ'
      ∧ σ' = with_clients σ_connected
               (alter (set_version [Some 1; Some 5; Some 1]) 0%nat
                  (alter (set_initial false) 0%nat (client_heap σ_connected)))
      ∧ trace σ' = trace σ_connected
      ∧ server_clients σ' = server_clients σ_connected.
Proof.
  assert (Hw : in_window ex_constants 1 5) by (unfold in_window; simpl; lia).
  assert (Hs : 1 ≠ SCRIPT ex_constants) by (simpl; lia).
  split; [exact Hw|]. split; [exact Hs|].
  exact (script_mismatch_throws ex_constants accept σ_connected 0%nat 1 5 1
           (bytes_of_string "bob") Hw Hs).
Defined.



(** A second call that comes later finds another store.  Client 0 timed
    out and its id 0 went to bob, client 1; the ['end'] of socket 7 then
    disconnects client 0 again, and the call deletes the entry under id 0,
    which is bob's: bob is still in the lobby with id 0 but no longer in
    the client table, and the next connection is given id 0 as well. *)
Example late_disconnect_evicts_successor :
  ex_reachable σ_shared
  ∧ server_clients σ_reused !! Some 0 = Some 1%nat
  ∧ server_clients σ_evicted !! Some 0 = None
  ∧ clients (room_heap σ_evicted !!! 0%nat) = [1%nat]
  ∧ room (client_heap σ_evicted !!! 1%nat) = Some 0%nat
  ∧ cid (client_heap σ_evicted !!! 1%nat) = Some 0
  ∧ server_clients σ_shared !! Some 0 = Some 2%nat
  ∧ cid (client_heap σ_shared !!! 2%nat) = Some 0.
Proof.
  split; [|repeat split; vm_compute; reflexivity].
  unfold σ_shared. eapply reachable_step; [|apply step_connection].
  unfold σ_evicted. eapply reachable_step; [|apply step_end; vm_compute; eauto].
  unfold σ_reused. eapply reachable_step;
    [|apply step_handshake; [vm_compute; eauto|repeat constructor; vm_compute; done]].
  eapply reachable_step; [|apply step_connection].
  unfold σ_timed_out. eapply reachable_step; [|apply step_timeout; vm_compute; eauto].
  unfold σ_connected. eapply reachable_step; [apply reachable_initial|apply step_connection].
Qed.

(** C5, as stated, fails in a store the server reaches.  Bob, client 1
    on socket 8, is in the lobby with id 0; carol, client 2 on socket 9,
    was given id 0 too (see [late_disconnect_evicts_successor]) and her
    handshake joins the lobby.  She is not a member and bob is the only
    one, yet nothing is written to bob's socket: [send] leaves out every
    member with the id of the joiner.  Bob is not told of the join. *)
Lemma join_skips_member_with_same_id :
  ex_reachable σ_shared
  ∧ ex_handshake 2%nat ([1; 2; 0] ++ bytes_of_string "carol") σ_shared
    = Ok true (run (Client_join 2%nat "null") σ_joining)
  ∧ server_rooms σ_joining !! "null" = Some 0%nat
  ∧ room_heap σ_joining !! 0%nat = Some (mkRoom "null" [1%nat] (JNum 0))
  ∧ (2%nat ∉ [1%nat])
  ∧ client_heap σ_joining !! 1%nat
    = Some (set_room (Some 0%nat) (set_nick (Some "bob")
              (set_version [Some 1; Some 2; Some 0] (set_initial false
                 (new_Client 8 (Some 0))))))
  ∧ cid (client_heap σ_joining !!! 2%nat) = Some 0
  ∧ ∃ σ',
      Room_join 0%nat 2%nat σ_joining = Ok () σ'
      ∧ trace σ'
        = trace σ_joining
          ++ [RoomEmit 0 (RJoin 2); SocketWrite 9 [16; 1];
              SocketWrite 9 ([0] ++ bytes_of_string "bob" ++ [0]);
              SocketWrite 9 [34; 0; 4; 4];
              SocketWrite 9 [37; 0; 0; 1]; SocketWrite 9 [37; 0; 64; 0];
              SocketWrite 9 [37; 0; 128; 0]; SocketWrite 9 [37; 0; 192; 0];
              SocketWrite 9 [38; 0; 48]; SocketWrite 9 [65; 0; 0; 0; 0; 0]]
      ∧ clients (room_heap σ' !!! 0%nat) = [1%nat; 2%nat]
      ∧ SocketWrite 8 ([17; 0] ++ bytes_of_string "carol" ++ [0]) ∉ trace σ'.
Proof.
  split.
  { unfold σ_shared. eapply reachable_step; [|apply step_connection].
    unfold σ_evicted. eapply reachable_step; [|apply step_end; vm_compute; eauto].
    unfold σ_reused. eapply reachable_step;
      [|apply step_handshake; [vm_compute; eauto|repeat constructor; vm_compute; done]].
    eapply reachable_step; [|apply step_connection].
    unfold σ_timed_out. eapply reachable_step; [|apply step_timeout; vm_compute; eauto].
    unfold σ_connected.
    eapply reachable_step; [apply reachable_initial|apply step_connection]. }
  split; [vm_compute; reflexivity|]. split; [vm_compute; reflexivity|].
  split; [vm_compute; reflexivity|].
  split; [by intros ?%list_elem_of_singleton|].
  split; [vm_compute; reflexivity|]. split; [vm_compute; reflexivity|].
  eexists. split; [vm_compute; reflexivity|].
  split; [vm_compute; reflexivity|]. split; [vm_compute; reflexivity|].
  intros Hin%list_elem_of_In. vm_compute in Hin. intuition discriminate.
Qed.

Lemma join_replay_before_add_witness :
  room_heap σ_r1 !! 1%nat = Some (mkRoom "r1" [0%nat] (JNum 0))
  ∧ (1%nat ∉ [0%nat])
  ∧ ∃ σ',
      Room_join 1%nat 1%nat σ_r1 = Ok () σ'
      ∧ trace σ'
        = trace σ_r1
          ++ [RoomEmit 1 (RJoin 1); SocketWrite 8 [16; 1];
              SocketWrite 8 ([0] ++ bytes_of_string "alice" ++ [0]);
              SocketWrite 8 [35; 0]; SocketWrite 8 [35; 0];
              SocketWrite 8 [34; 0; 5; 5];
              SocketWrite 8 [37; 0; 0; 1]; SocketWrite 8 [37; 0; 64; 0];
              SocketWrite 8 [37; 0; 128; 0]; SocketWrite 8 [37; 0; 192; 0];
              SocketWrite 8 [38; 0; 48]; SocketWrite 8 [65; 0; 10; 20; 30; 40];
              SocketWrite 7 ([17; 1] ++ bytes_of_string "bob" ++ [0]);
              SocketWrite 7 [128; 1]]
      ∧ clients (room_heap σ' !!! 1%nat) = [0%nat; 1%nat]
      ∧ client_heap σ' = client_heap σ_r1.
Proof.
  assert (HR : room_heap σ_r1 !! 1%nat = Some (mkRoom "r1" [0%nat] (JNum 0)))
    by (vm_compute; reflexivity).
  assert (Hc : 1%nat ∉ [0%nat]) by (by intros ?%list_elem_of_singleton).
  split; [exact HR|]. split; [exact Hc|].
  destruct (proj2 (join_replay_before_add σ_r1 1%nat 1%nat _ HR) Hc)
    as (σ' & Hrun & Htrace & Hclients & Hheap & _).
  - vm_compute. eauto.
  - repeat constructor; vm_compute; eauto.
  - exists σ'. split; [exact Hrun|]. split; [|split; [exact Hclients|exact Hheap]].
    rewrite Htrace. vm_compute. reflexivity.
Defined.

Lemma brush_shape_cycle_witness :
  (1 ≤ 4)%nat
  ∧ ∃ σ' C',
      ex_main_loop 5 0%nat [35; 35; 35; 35] σ_alice = Some (Suspended [] σ')
      ∧ client_heap σ' !! 0%nat = Some C'
      ∧ brush C' = Nat.iter 4 (λ b, b `mod` 3 + 1) 0
      ∧ brush C' = (Z.of_nat 4 - 1) `mod` 3 + 1
      ∧ brush C' ∈ [1; 2; 3].
Proof.
  split; [lia|].
  apply (brush_shape_cycle ex_constants accept2 accept2 4 σ_alice 0%nat
           (client_heap σ_alice !!! 0%nat)).
  - lia.
  - vm_compute. reflexivity.
  - vm_compute. reflexivity.
  - vm_compute. reflexivity.
Defined.

Lemma connection_cap_witness :
  (∃ i σ',
     Server_connectionHandler 7%nat initial_state = Ok () σ'
     ∧ 0 ≤ i < 256
     ∧ server_clients initial_state !! Some i = None
     ∧ client_heap initial_state !! fresh (dom (client_heap initial_state)) = None
     ∧ client_heap σ'
       = <[fresh (dom (client_heap initial_state)) := new_Client 7 (Some i)]>
           (client_heap initial_state)
     ∧ server_clients σ'
       = <[Some i := fresh (dom (client_heap initial_state))]> (server_clients initial_state)
     ∧ size (server_clients σ') = S (size (server_clients initial_state))
     ∧ trace σ' = trace initial_state ++ [SetTimeout 7 90000])
  ∧ size (server_clients σ_full) = 255%nat
  ∧ Server_connectionHandler 9%nat σ_full
    = Ok () (add_trace σ_full
        [SocketWrite 9 ([0] ++ bytes_of_string "Server is full (255/255)" ++ [0]);
         SocketEnd 9]).
Proof.
  assert (Hfull : size (server_clients σ_full) = 255%nat) by (vm_compute; reflexivity).
  split; [|split; [exact Hfull|]].
  - apply (proj1 (connection_cap initial_state 7%nat)). vm_compute. lia.
  - exact (proj2 (connection_cap σ_full 9%nat) Hfull).
Defined.

Lemma kick_refused_without_authority_witness :
  room (client_heap σ_both !!! 1%nat) = Some 1%nat
  ∧ op (room_heap σ_both !!! 1%nat) ≠ num_val (cid (client_heap σ_both !!! 1%nat))
  ∧ ∃ act message,
      ex_iteration 1%nat
        (21 :: bytes_of_string "alice" ++ 0 :: bytes_of_string "bye" ++ 0 :: []) = Got act []
      ∧ act σ_both = Ok () (add_trace σ_both
                              [SocketWrite (socket (client_heap σ_both !!! 1%nat))
                                 (server_message_frame message)])
      ∧ message = (if decide (name (room_heap σ_both !!! 1%nat) = "null")
                   then "You can't kick people from the lobby"
                   else "You can't kick people from here").
Proof.
  assert (Hroom : room (client_heap σ_both !!! 1%nat) = Some 1%nat)
    by (vm_compute; reflexivity).
  assert (Hop : op (room_heap σ_both !!! 1%nat)
                ≠ num_val (cid (client_heap σ_both !!! 1%nat)))
    by (vm_compute; discriminate).
  split; [exact Hroom|]. split; [exact Hop|].
  apply (kick_refused_without_authority ex_constants accept2 accept2 σ_both 1%nat
           (bytes_of_string "alice") (bytes_of_string "bye") [] 1%nat).
  - repeat constructor; vm_compute; discriminate.
  - repeat constructor; vm_compute; discriminate.
  - vm_compute. reflexivity.
  - vm_compute. discriminate.
  - exact Hroom.
  - right. exact Hop.
Defined.

Lemma stamp_of_length_zero_stalls_witness :
  connected (client_heap σ_r1 !!! 0%nat) = true
  ∧ ex_iteration 0%nat ([66; 1; 2; 3; 0; 0; 0] ++ [35]) = Wait
  ∧ ex_main_loop 10 0%nat ([66; 1; 2; 3; 0; 0; 0] ++ [35]) σ_r1
    = Some (Suspended ([66; 1; 2; 3; 0; 0; 0] ++ [35]) σ_r1).
Proof.
  assert (Hc : connected (client_heap σ_r1 !!! 0%nat) = true) by (vm_compute; reflexivity).
  split; [exact Hc|].
  exact (stamp_of_length_zero_stalls ex_constants accept2 accept2 σ_r1 0%nat 1 2 3 [35]
           9%nat Hc).
Defined.

(** A stamp of length 1, by contrast, is relayed to the other member. *)
Example stamp_of_length_one_relayed :
  last (trace (after_input 0%nat [66; 1; 2; 3; 0; 0; 1; 99] σ_both))
  = Some (SocketWrite 8 [66; 0; 1; 2; 3; 0; 0; 1; 99]).
Proof. vm_compute. reflexivity. Qed.


(** * Further facts *)

(** ** Invariants, in general *)

Section Keeps.

Variable I : State → Prop.

Hypothesis I_effect : ∀ e, keeps I (do_effect e).
Hypothesis I_rooms : ∀ f, keeps I (set_server_rooms f).
Hypothesis I_Room_new : ∀ n, keeps I (Room_new n).
Hypothesis I_delete : ∀ k, keeps I (set_server_clients (delete k)).
Hypothesis I_set_room : ∀ c v, keeps I (update_client c (set_room v)).
Hypothesis I_brushSize : ∀ c d,
  Forall is_byte d → (1 ≤ length d ≤ 2)%nat → keeps I (update_client c (set_brushSize d)).
Hypothesis I_brush : ∀ c,
  keeps I (update_client c (λ C, set_brush (brush C `mod` 3 + 1) C)).
Hypothesis I_select : ∀ c a d,
  is_byte a → Forall is_byte d → (length d ≤ 1)%nat →
  keeps I (update_client c
             (λ C, set_brushSelection (<[a / 64 + 1 := a :: d]> (brushSelection C)) C)).
Hypothesis I_isChat : ∀ c, keeps I (update_client c (set_isChat true)).
Hypothesis I_replaceMode : ∀ c d,
  Forall is_byte d → (1 ≤ length d ≤ 1)%nat → keeps I (update_client c (set_replaceMode d)).
Hypothesis I_deco : ∀ c d,
  Forall is_byte d → (1 ≤ length d ≤ 4)%nat → keeps I (update_client c (set_deco d)).

Lemma keeps_ret {A} (a : A) : keeps I (ret a).
Proof. by intros σ. Qed.
Lemma keeps_throw {A} e : keeps I (@throw A e).
Proof. by intros σ. Qed.
Lemma keeps_bind {A B} (m : M A) (k : A → M B) :
  keeps I m → (∀ a, keeps I (k a)) → keeps I (bind m k).
Proof.
  intros Hm Hk σ Hσ. unfold bind. specialize (Hm σ Hσ).
  destruct (m σ) as [a σ'|e σ']; [by apply Hk|done].
Qed.
Lemma keeps_get_state : keeps I get_state.
Proof. by intros σ. Qed.
Lemma keeps_the_client c : keeps I (the_client c).
Proof. by intros σ. Qed.
Lemma keeps_the_room r : keeps I (the_room r).
Proof. by intros σ. Qed.
Lemma keeps_socket_write s d : keeps I (socket_write s d).
Proof. apply I_effect. Qed.
Lemma keeps_socket_end s : keeps I (socket_end s).
Proof. apply I_effect. Qed.
Lemma keeps_Buffer_from_string o : keeps I (Buffer_from_string o).
Proof. destruct o; [apply keeps_ret|apply keeps_throw]. Qed.
Lemma keeps_for_of {A} (l : list A) (body : A → M unit) :
  (∀ x, keeps I (body x)) → keeps I (for_of l body).
Proof.
  intros Hb. induction l as [|x l IH]; [apply keeps_ret|].
  cbn [for_of]. apply keeps_bind; [apply Hb|by intros _].
Qed.

Create HintDb keeps discriminated.
Hint Resolve keeps_ret keeps_throw keeps_bind keeps_get_state keeps_the_client
  keeps_the_room keeps_socket_write keeps_socket_end keeps_Buffer_from_string
  keeps_for_of I_effect I_rooms I_Room_new I_delete I_set_room I_brush I_isChat : keeps.
Hint Extern 2 (keeps _ (match ?x with _ => _ end)) => destruct x : keeps.
Hint Extern 2 (keeps _ (let _ := _ in _)) => cbv zeta : keeps.

Ltac keeps := eauto 100 with keeps.

Lemma keeps_except_id e : keeps I (except_id e).
Proof. unfold except_id. keeps. Qed.
Hint Resolve keeps_except_id : keeps.
Lemma keeps_Room_send r buf e : keeps I (Room_send r buf e).
Proof. unfold Room_send. keeps. Qed.
Hint Resolve keeps_Room_send : keeps.
Lemma keeps_requestSync_loop l c : keeps I (requestSync_loop l c).
Proof. induction l as [|m l IH]; cbn [requestSync_loop]; keeps. Qed.
Hint Resolve keeps_requestSync_loop : keeps.
Lemma keeps_Room_requestSync r c : keeps I (Room_requestSync r c).
Proof. unfold Room_requestSync. keeps. Qed.
Lemma keeps_spread_selection M_ i : keeps I (spread_selection M_ i).
Proof. unfold spread_selection. keeps. Qed.
Hint Resolve keeps_Room_requestSync keeps_spread_selection : keeps.
Lemma keeps_replay_member s m : keeps I (replay_member s m).
Proof. unfold replay_member. keeps. Qed.
Hint Resolve keeps_replay_member : keeps.

(** The two methods that change a room keep what every change of a room
    keeps. *)
Section AnyRoom.

Hypothesis I_room : ∀ r f, keeps I (update_room r f).

Lemma keeps_Room_join r c : keeps I (Room_join r c).
Proof using I_effect I_room. unfold Room_join. eauto 100 using I_room with keeps. Qed.
Lemma keeps_Room_part r c : keeps I (Room_part r c).
Proof using I_effect I_room. unfold Room_part. eauto 100 using I_room with keeps. Qed.

End AnyRoom.

Hypothesis I_Room_join : ∀ r c, keeps I (Room_join r c).
Hypothesis I_Room_part : ∀ r c, keeps I (Room_part r c).
Hint Resolve I_Room_join I_Room_part : keeps.

Lemma keeps_Server_join c r : keeps I (Server_join c r).
Proof. unfold Server_join. keeps. Qed.
Lemma keeps_Server_part c r : keeps I (Server_part c r).
Proof. unfold Server_part. keeps. Qed.
Lemma keeps_Server_disconnect c r : keeps I (Server_disconnect c r).
Proof. unfold Server_disconnect. keeps. Qed.
Hint Resolve keeps_Server_join keeps_Server_part keeps_Server_disconnect : keeps.
Lemma keeps_Client_serverMessage c m r g b : keeps I (Client_serverMessage c m r g b).
Proof. unfold Client_serverMessage. keeps. Qed.
Lemma keeps_Client_sendToRoom c m i : keeps I (Client_sendToRoom c m i).
Proof. unfold Client_sendToRoom. keeps. Qed.
Lemma keeps_Client_join c r : keeps I (Client_join c r).
Proof. unfold Client_join. keeps. Qed.
Lemma keeps_Client_part c : keeps I (Client_part c).
Proof. unfold Client_part. keeps. Qed.
Hint Resolve keeps_Client_serverMessage keeps_Client_sendToRoom keeps_Client_join
  keeps_Client_part : keeps.
Lemma keeps_Client_disconnect c r : keeps I (Client_disconnect c r).
Proof. unfold Client_disconnect. keeps. Qed.
Hint Resolve keeps_Client_disconnect : keeps.
Lemma keeps_Client_kick c s r : keeps I (Client_kick c s r).
Proof. unfold Client_kick. keeps. Qed.
Hint Resolve keeps_Client_kick : keeps.
Lemma keeps_relay c cmd data : keeps I (relay c cmd data).
Proof. unfold relay. keeps. Qed.
Lemma keeps_room_send_unchecked c buf : keeps I (room_send_unchecked c buf).
Proof. unfold room_send_unchecked. keeps. Qed.
Hint Resolve keeps_relay keeps_room_send_unchecked : keeps.
Lemma keeps_kick_first c members nick_ reason : keeps I (kick_first c members nick_ reason).
Proof. unfold kick_first. keeps. Qed.
Hint Resolve keeps_kick_first : keeps.
Lemma keeps_kick_command c nick_ reason : keeps I (kick_command c nick_ reason).
Proof. unfold kick_command. keeps. Qed.
Lemma keeps_sync_reply data stamp : keeps I (sync_reply data stamp).
Proof. unfold sync_reply. keeps. Qed.
Hint Resolve keeps_kick_command keeps_sync_reply : keeps.

Lemma keeps_select_element c a d :
  is_byte a → Forall is_byte d → (length d ≤ 1)%nat →
  keeps I (select_element c (a :: d)).
Proof.
  intros Ha Hd Hlen. unfold select_element.
  change ((a :: d) !!! 0%nat) with a. cbv zeta.
  destruct (negb _ && negb _); [|keeps].
  apply keeps_bind; [by apply I_select|keeps].
Qed.

Lemma reads_keep_rret act : keeps I act → reads_keep I (rret act).
Proof. intros Hact inp act' rest _ [= <- _]. done. Qed.

Lemma reads_keep_readBytes ended n (k : list Z → Reader (M unit)) :
  (∀ d, Forall is_byte d → (1 ≤ length d ≤ Z.to_nat n)%nat → reads_keep I (k d)) →
  reads_keep I (rbind (readBytes ended n) k).
Proof.
  intros Hk inp act rest Hinp. unfold rbind, readBytes.
  destruct (socket_read ended n inp) as [[d inp']|] eqn:Hread; [|done].
  destruct (socket_read_bytes _ _ _ _ _ Hinp Hread) as (Hd & Hinp' & Hlen & _).
  by apply Hk.
Qed.

Lemma reads_keep_readUntilNull (k : list Z → Reader (M unit)) :
  (∀ d, reads_keep I (k d)) → reads_keep I (rbind readUntilNull k).
Proof.
  intros Hk inp act rest Hinp. unfold rbind, readUntilNull.
  destruct (readUntilNull_loop [] inp) as [d inp'|] eqn:Hread; [|done].
  apply Hk. by eapply readUntilNull_loop_bytes.
Qed.

Ltac reads_keep_case :=
  lazy beta iota;
  repeat first
    [ apply reads_keep_readUntilNull; intros ?
    | apply reads_keep_readBytes; intros ? ? ? ];
  apply reads_keep_rret.

Section KeepsSession.

Variable constants : Constants.
Variable hooks_connect : Client → bool.
Variable hooks_join : Client → string → bool.
Variable hooks_message : Client → string → bool.

Lemma keeps_chat c cmd shown message : keeps I (chat hooks_message c cmd shown message).
Proof. unfold chat. keeps. Qed.
Lemma keeps_sync_properties_reply c data :
  keeps I (sync_properties_reply constants c data).
Proof. unfold sync_properties_reply. keeps. Qed.
Hint Resolve keeps_chat keeps_sync_properties_reply : keeps.

Lemma reads_keep_dispatch ended c :
  Forall (λ x, reads_keep I (dispatch constants hooks_join hooks_message ended c x))
    (seqZ 0 256).
Proof.
  let l := eval vm_compute in (seqZ 0 256) in change (seqZ 0 256) with l.
  repeat (apply Forall_cons_2;
          [unfold dispatch; reads_keep_case; try solve [keeps]|]); [|by apply Forall_nil].
  match goal with Hd : Forall is_byte ?d', Hlen : (1 ≤ length ?d' ≤ _)%nat |- _ =>
    destruct d' as [|a d']; [cbn in Hlen; lia|];
    apply Forall_cons in Hd as [Ha Hd];
    apply keeps_select_element; [done|done|cbn in Hlen; lia] end.
Qed.

Lemma reads_keep_iteration ended c :
  reads_keep I (iteration_on constants hooks_join hooks_message ended c).
Proof.
  unfold iteration_on. apply reads_keep_readBytes. intros cmd Hcmd Hlen.
  destruct cmd as [|x cmd]; [cbn in Hlen; lia|].
  apply Forall_cons in Hcmd as [Hx _]. change ((x :: cmd) !!! 0%nat) with x.
  pose proof (reads_keep_dispatch ended c) as Hall.
  rewrite Forall_forall in Hall. apply Hall.
  apply elem_of_seqZ. unfold is_byte in Hx. lia.
Qed.

Section WithNick.

Hypothesis I_initial : ∀ c, keeps I (update_client c (set_initial false)).
Hypothesis I_version : ∀ c v, keeps I (update_client c (set_version v)).
Hypothesis I_nick : ∀ c n, keeps I (update_client c (set_nick (Some n))).

Lemma keeps_handshake c buf : keeps I (handshake constants hooks_connect c buf).
Proof using I_initial I_version I_nick I_effect I_Room_join I_Room_part I_rooms I_Room_new
  I_delete I_set_room.
  unfold handshake. eauto 100 using I_initial, I_version, I_nick with keeps.
Qed.

End WithNick.

Hypothesis I_initial_state : I initial_state.
Hypothesis I_connection : ∀ s, keeps I (Server_connectionHandler s).
Hypothesis I_handshake : ∀ c buf, keeps I (handshake constants hooks_connect c buf).
Hypothesis I_connected : ∀ c, keeps I (update_client c (set_connected false)).

Lemma keeps_step σ σ' :
  step constants hooks_connect hooks_join hooks_message σ σ' → I σ → I σ'.
Proof.
  intros Hstep Hσ.
  destruct Hstep
    as [σ s|σ c buf _ _|σ c ended inp act rest _ Hinp Hact|σ c _|σ c message _|σ c _|σ c _].
  - by apply I_connection.
  - by apply I_handshake.
  - by apply (reads_keep_iteration ended c inp act rest Hinp Hact).
  - unfold on_timeout. by apply keeps_Client_disconnect.
  - unfold on_error. by apply keeps_Client_disconnect.
  - unfold on_end. by apply keeps_Client_disconnect.
  - unfold on_close. by apply I_connected.
Qed.

Lemma keeps_reachable σ :
  reachable constants hooks_connect hooks_join hooks_message σ → I σ.
Proof.
  induction 1 as [|σ σ' _ IH Hstep]; [done|]. by eapply keeps_step.
Qed.

End KeepsSession.

End Keeps.

(** ** The cap *)

Lemma cap_same_table {A} (m : M A) :
  (∀ σ, server_clients (state_of (m σ)) = server_clients σ) → keeps under_cap m.
Proof. intros Hm σ Hσ. unfold under_cap. by rewrite Hm. Qed.

Lemma cap_delete k : keeps under_cap (set_server_clients (delete k)).
Proof.
  intros σ Hσ. unfold under_cap in *. cbn [set_server_clients state_of server_clients].
  rewrite map_size_delete. destruct (server_clients σ !! k); simpl; lia.
Qed.

Lemma cap_connection s : keeps under_cap (Server_connectionHandler s).
Proof.
  intros σ Hσ. unfold under_cap in *. unfold Server_connectionHandler.
  unfold bind at 1. unfold get_state at 1. cbv beta iota.
  case_bool_decide as Hfull; [done|].
  unfold bind, Client_new, the_client, set_server_clients.
  cbn [state_of server_clients]. rewrite map_size_insert.
  destruct (_ !! _); simpl; lia.
Qed.

(** The store after the handshake has noted its first two fields. *)
Lemma cap_update_client c f : keeps under_cap (update_client c f).
Proof. by apply cap_same_table. Qed.

(** X1.  In every store the server can reach, the client table has at
    most 255 entries. *)
Theorem table_never_exceeds_cap (constants : Constants) (hooks_connect : Client → bool)
    (hooks_join hooks_message : Client → string → bool) (σ : State) :
  reachable constants hooks_connect hooks_join hooks_message σ →
  (size (server_clients σ) ≤ 255)%nat.
Proof.
  apply (keeps_reachable under_cap); intros;
    try (by apply cap_same_table); try apply cap_delete; try apply cap_connection;
    try (apply keeps_Room_join; intros; by apply cap_same_table);
    try (apply keeps_Room_part; intros; by apply cap_same_table).
  - unfold under_cap. cbn. rewrite map_size_empty. lia.
  - apply keeps_handshake; intros; try (by apply cap_same_table);
      try (apply keeps_Room_join; intros; by apply cap_same_table);
      try (apply keeps_Room_part; intros; by apply cap_same_table);
      apply cap_delete.
Qed.

(** ** The table is keyed by id *)

Lemma keyed_same {A} (m : M A) :
  (∀ σ, client_heap (state_of (m σ)) = client_heap σ
        ∧ server_clients (state_of (m σ)) = server_clients σ) →
  keeps table_keyed_by_id m.
Proof.
  intros Hm σ Hσ k c. destruct (Hm σ) as [-> ->]. apply Hσ.
Qed.

Lemma keyed_update c f :
  (∀ C, cid (f C) = cid C) → keeps table_keyed_by_id (update_client c f).
Proof.
  intros Hf σ Hσ k c' Hk. cbn [update_client state_of server_clients client_heap] in *.
  destruct (Hσ k c' Hk) as (i & C & -> & Hi & HC & Hid).
  destruct (decide (c = c')) as [->|Hne].
  - exists i, (f C). rewrite lookup_alter_eq, HC. by rewrite Hf.
  - exists i, C. by rewrite lookup_alter_ne.
Qed.

Lemma keyed_delete k : keeps table_keyed_by_id (set_server_clients (delete k)).
Proof.
  intros σ Hσ k' c Hk. cbn [set_server_clients state_of server_clients client_heap] in *.
  apply lookup_delete_Some in Hk as [_ Hk]. by apply Hσ.
Qed.

Lemma keyed_connection s : keeps table_keyed_by_id (Server_connectionHandler s).
Proof.
  intros σ Hσ. unfold Server_connectionHandler.
  unfold bind at 1. unfold get_state at 1. cbv beta iota.
  case_bool_decide as Hfull; [by apply (keyed_same (socket_write _ _ ;;; socket_end _))|].
  destruct (find_id_free (server_clients σ)) as (i & Hfind & Hi & Hfree); [lia|].
  unfold bind, Client_new, the_client, set_server_clients.
  cbn [state_of server_clients client_heap room_heap server_rooms trace].
  rewrite lookup_total_insert_eq, Hfind. cbn [cid new_Client].
  intros k c Hk. cbn [server_clients client_heap] in *.
  apply lookup_insert_Some in Hk as [[<- <-]|[Hne Hk]].
  - exists i, (new_Client s (Some i)). by rewrite lookup_insert_eq.
  - destruct (Hσ k c Hk) as (j & C & -> & Hj & HC & Hid).
    exists j, C. rewrite lookup_insert_ne; [done|].
    intros <-. pose proof (is_fresh (dom (client_heap σ))) as Hfresh.
    apply Hfresh, elem_of_dom. by eexists.
Qed.

Lemma keyed_reachable (constants : Constants) (hooks_connect : Client → bool)
    (hooks_join hooks_message : Client → string → bool) (σ : State) :
  reachable constants hooks_connect hooks_join hooks_message σ → table_keyed_by_id σ.
Proof.
  apply (keeps_reachable table_keyed_by_id); intros;
    try (by apply keyed_same);
    try (by apply keyed_update); try apply keyed_delete; try apply keyed_connection;
    try (apply keeps_Room_join; intros; by apply keyed_same);
    try (apply keeps_Room_part; intros; by apply keyed_same).
  - intros k c Hk. cbn in Hk. by rewrite lookup_empty in Hk.
  - apply keeps_handshake; intros;
      try (by apply keyed_same);
      try (by apply keyed_update);
      try (apply keeps_Room_join; intros; by apply keyed_same);
      try (apply keeps_Room_part; intros; by apply keyed_same);
      apply keyed_delete.
Qed.

(** X2.  In every store the server can reach, every key of the client
    table is a number from 0 to 255 (never [undefined]) and is the id of
    the client stored under it. *)
Theorem table_ids_are_bytes (constants : Constants) (hooks_connect : Client → bool)
    (hooks_join hooks_message : Client → string → bool) (σ : State)
    (k : option Z) (c : nat) :
  reachable constants hooks_connect hooks_join hooks_message σ →
  server_clients σ !! k = Some c →
  ∃ i C, k = Some i ∧ 0 ≤ i < 256 ∧ client_heap σ !! c = Some C ∧ cid C = Some i.
Proof. intros Hσ. by apply (keyed_reachable constants hooks_connect hooks_join hooks_message). Qed.

(** ** The mirrors *)

Lemma mirrors_same_heap {A} (m : M A) :
  (∀ σ, client_heap (state_of (m σ)) = client_heap σ) → keeps mirrors_ok m.
Proof. intros Hm σ Hσ c C. rewrite Hm. apply Hσ. Qed.

Lemma mirrors_update c f :
  (∀ C, mirror_ok C → mirror_ok (f C)) → keeps mirrors_ok (update_client c f).
Proof.
  intros Hf σ Hσ c' C'. cbn [update_client state_of client_heap].
  rewrite lookup_alter. case_decide as Hc; [|apply Hσ]. subst c'.
  destruct (client_heap σ !! c) as [C|] eqn:HC; [|done].
  intros [= <-]. apply Hf. by eapply Hσ.
Qed.

Lemma bytes_intro (l : list Z) :
  forallb (λ z, (0 <=? z) && (z <? 256)) l = true → Forall is_byte l.
Proof.
  intros Hl. apply Forall_forall. intros z Hz%list_elem_of_In.
  rewrite forallb_forall in Hl. specialize (Hl z Hz). unfold is_byte. lia.
Qed.

Lemma mirror_ok_new s i : mirror_ok (new_Client s i).
Proof.
  unfold mirror_ok. cbn [new_Client brush brushSize brushSelection replaceMode deco].
  split; [lia|]. split; [cbn [length]; lia|]. split; [by apply bytes_intro|].
  split; [|split].
  - repeat (apply map_Forall_insert_2;
              [split; [lia|split; [cbn [length]; lia|by apply bytes_intro]]|]).
    apply map_Forall_empty.
  - repeat (apply Forall_cons_2; [by eexists|]). by apply Forall_nil.
  - split; [done|]. split; [by apply bytes_intro|].
    split; [cbn [length]; lia|by apply bytes_intro].
Qed.

Lemma mirror_ok_select C a d :
  is_byte a → Forall is_byte d → (length d ≤ 1)%nat → mirror_ok C →
  mirror_ok (set_brushSelection (<[a / 64 + 1 := a :: d]> (brushSelection C)) C).
Proof.
  intros Ha Hd Hlen (Hbr & Hs1 & Hs2 & Hsel & Hdef & Hrest). unfold mirror_ok.
  cbn [brush brushSize brushSelection replaceMode deco set_brushSelection].
  split; [done|]. split; [done|]. split; [done|]. split; [|split; [|done]].
  - apply map_Forall_insert_2; [|done]. unfold is_byte in Ha.
    assert (0 ≤ a / 64 ≤ 3).
    { split; [apply Z.div_pos; lia|].
      assert (a / 64 < 4) by (apply Z.div_lt_upper_bound; lia). lia. }
    split; [lia|]. split; [cbn [length]; lia|].
    apply Forall_cons_2; [exact Ha|exact Hd].
  - eapply Forall_impl; [exact Hdef|]. intros i Hi. cbv beta.
    rewrite lookup_insert. case_decide; [by eexists|done].
Qed.

Lemma mirrors_connection s : keeps mirrors_ok (Server_connectionHandler s).
Proof.
  intros σ Hσ. unfold Server_connectionHandler.
  unfold bind at 1. unfold get_state at 1. cbv beta iota.
  case_bool_decide as Hfull; [by apply (mirrors_same_heap (socket_write _ _ ;;; socket_end _))|].
  unfold bind, Client_new, the_client, set_server_clients.
  cbn [state_of server_clients client_heap room_heap server_rooms trace]. intros c C.
  cbn [client_heap]. rewrite lookup_insert. case_decide; [|apply Hσ].
  intros [= <-]. apply mirror_ok_new.
Qed.

Lemma mirrors_reachable (constants : Constants) (hooks_connect : Client → bool)
    (hooks_join hooks_message : Client → string → bool) (σ : State) :
  reachable constants hooks_connect hooks_join hooks_message σ → mirrors_ok σ.
Proof.
  apply (keeps_reachable mirrors_ok); intros;
    try (by apply mirrors_same_heap);
    try (apply keeps_Room_join; intros; by apply mirrors_same_heap);
    try (apply keeps_Room_part; intros; by apply mirrors_same_heap);
    try apply mirrors_connection;
    try (apply mirrors_update; intros C HC;
         first [ exact HC | by apply mirror_ok_select | idtac ]).
  - destruct HC as (Hbr & Hs1 & Hs2 & Hrest).
    split; [exact Hbr|]. split; [exact H0|]. split; [exact H|exact Hrest].
  - destruct HC as (Hbr & Hrest). split; [|exact Hrest]. cbn [brush set_brush].
    pose proof (Z.mod_pos_bound (brush C) 3). lia.
  - destruct HC as (Hbr & Hs1 & Hs2 & Hsel & Hdef & Hr1 & Hr2 & Hd).
    split; [exact Hbr|]. split; [exact Hs1|]. split; [exact Hs2|].
    split; [exact Hsel|]. split; [exact Hdef|].
    split; [cbn [replaceMode set_replaceMode]; lia|]. split; [exact H|exact Hd].
  - destruct HC as (Hbr & Hs1 & Hs2 & Hsel & Hdef & Hr1 & Hr2 & Hd1 & Hd2).
    split; [exact Hbr|]. split; [exact Hs1|]. split; [exact Hs2|].
    split; [exact Hsel|]. split; [exact Hdef|].
    split; [exact Hr1|]. split; [exact Hr2|]. split; [exact H0|exact H].
  - intros c C HC'. cbn in HC'. by rewrite lookup_empty in HC'.
  - apply keeps_handshake; intros;
      try (by apply mirrors_same_heap);
      try (apply keeps_Room_join; intros; by apply mirrors_same_heap);
      try (apply keeps_Room_part; intros; by apply mirrors_same_heap);
      apply mirrors_update; intros C HC; exact HC.
Qed.

(** X3.  In every store the server can reach, whatever bytes the sockets
    delivered and wherever their streams ended, the state every [Client]
    keeps for the join replay is within bounds: the brush shape is from 0
    to 3, the brush size has one or two bytes, the selections have one or
    two bytes each and sit at indices from 0 to 4 with the indices 0 to 3
    all present, the replace mode has one byte and the decoration colour
    one to four. *)
Theorem mirrors_stay_well_formed (constants : Constants) (hooks_connect : Client → bool)
    (hooks_join hooks_message : Client → string → bool) (σ : State) (c : nat) (C : Client) :
  reachable constants hooks_connect hooks_join hooks_message σ →
  client_heap σ !! c = Some C →
  mirror_ok C.
Proof.
  intros Hσ. by apply (mirrors_reachable constants hooks_connect hooks_join hooks_message).
Qed.

(** ** The members of a room have identified *)

Lemma named_same {A} (m : M A) :
  (∀ σ, client_heap (state_of (m σ)) = client_heap σ
        ∧ room_heap (state_of (m σ)) = room_heap σ) →
  keeps members_named m.
Proof. intros Hm σ Hσ r R x. destruct (Hm σ) as [-> ->]. apply Hσ. Qed.

Lemma named_update c f :
  (∀ C, is_Some (nick C) → is_Some (nick (f C))) → keeps members_named (update_client c f).
Proof.
  intros Hf σ Hσ r R m HR Hm. cbn [update_client state_of client_heap room_heap] in *.
  destruct (Hσ r R m HR Hm) as (C & HC & Hn).
  destruct (decide (m = c)) as [->|Hne].
  - exists (f C). rewrite lookup_alter_eq, HC. split; [done|by apply Hf].
  - exists C. by rewrite lookup_alter_ne.
Qed.

Lemma named_room_sub r f :
  (∀ R, clients (f R) ⊆ clients R) → keeps members_named (update_room r f).
Proof.
  intros Hf σ Hσ r' R' m HR Hm. cbn [update_room state_of client_heap room_heap] in *.
  destruct (decide (r' = r)) as [->|Hne].
  - rewrite lookup_alter_eq in HR.
    destruct (room_heap σ !! r) as [R|] eqn:HR0; [|done].
    injection HR as <-. apply (Hσ r R m HR0). by apply Hf.
  - rewrite lookup_alter_ne in HR by done. by apply (Hσ r' R' m).
Qed.

Lemma named_set_op r v : keeps members_named (update_room r (set_op v)).
Proof. by apply named_room_sub. Qed.

Lemma named_Set_delete r c :
  keeps members_named (update_room r (λ R, set_clients (Set_delete c (clients R)) R)).
Proof.
  apply named_room_sub. intros R x. cbn [clients set_clients]. unfold Set_delete.
  by intros [_ Hx]%list_elem_of_filter.
Qed.

Lemma named_Room_new n : keeps members_named (Room_new n).
Proof.
  intros σ Hσ r R m HR Hm. cbn [Room_new state_of client_heap room_heap] in *.
  apply lookup_insert_Some in HR as [[<- <-]|[_ HR]].
  - by apply elem_of_nil in Hm.
  - by apply (Hσ r R m).
Qed.

Lemma named_connection s : keeps members_named (Server_connectionHandler s).
Proof.
  intros σ Hσ. unfold Server_connectionHandler.
  unfold bind at 1. unfold get_state at 1. cbv beta iota.
  case_bool_decide as Hfull; [by apply (named_same (socket_write _ _ ;;; socket_end _))|].
  unfold bind, Client_new, the_client, set_server_clients.
  cbn [state_of server_clients client_heap room_heap server_rooms trace].
  intros r R m HR Hm. cbn [client_heap room_heap] in *.
  destruct (Hσ r R m HR Hm) as (C & HC & Hn). exists C. split; [|done].
  rewrite lookup_insert_ne; [done|]. intros <-.
  apply (is_fresh (dom (client_heap σ))), elem_of_dom. by eexists.
Qed.

Lemma with_same c {A} (m : M A) :
  (∀ σ, client_heap (state_of (m σ)) = client_heap σ
        ∧ room_heap (state_of (m σ)) = room_heap σ) →
  keeps (named_with c) m.
Proof.
  intros Hm σ [Hσ Hc]. split; [by apply named_same|].
  destruct (Hm σ) as [-> _]. exact Hc.
Qed.

Lemma with_set_op c r v : keeps (named_with c) (update_room r (set_op v)).
Proof. intros σ [Hσ Hc]. split; [by apply named_set_op|exact Hc]. Qed.

(** The last line of [Room.join]: the joiner has a nick. *)
Lemma with_Set_add c r :
  keeps (named_with c) (update_room r (λ R, set_clients (Set_add c (clients R)) R)).
Proof.
  intros σ [Hσ Hc]. split; [|exact Hc].
  intros r' R' m HR Hm. cbn [update_room state_of client_heap room_heap] in *.
  destruct (decide (r' = r)) as [->|Hne].
  - rewrite lookup_alter_eq in HR.
    destruct (room_heap σ !! r) as [R|] eqn:HR0; [|done].
    injection HR as <-. cbn [clients set_clients] in Hm. unfold Set_add in Hm.
    destruct (Set_has c (clients R)); [by apply (Hσ r R m)|].
    apply elem_of_app in Hm as [Hm|Hm]; [by apply (Hσ r R m)|].
    apply list_elem_of_singleton in Hm as ->. exact Hc.
  - rewrite lookup_alter_ne in HR by done. by apply (Hσ r' R' m).
Qed.

(** What [Room.join] does before it reads the nick of the joiner keeps
    whatever the effects and a change of the operator keep. *)
Lemma keeps_join_replay (I : State → Prop) r c (R : Room) (C : Client) (k : M unit) :
  (∀ e, keeps I (do_effect e)) →
  (∀ v, keeps I (update_room r (set_op v))) →
  keeps I k →
  keeps I
    ((if bool_decide (length (clients R) = 0%nat)
      then update_room r (set_op (num_val (cid C))) else ret ()) ;;;
     do_effect (RoomEmit r (RJoin c)) ;;;
     socket_write (socket C) (Buffer_from [16; Z.of_nat (length (clients R))]) ;;;
     for_of (clients R) (λ m,
       M_ <- the_client m ;;
       nm <- Buffer_from_string (nick M_) ;;
       socket_write (socket C) (Buffer_from ([to_uint8 (cid M_)] ++ nm ++ [0]))) ;;;
     for_of (clients R) (replay_member (socket C)) ;;;
     k).
Proof.
  intros He Hop Hk.
  apply keeps_bind; [case_bool_decide; [apply Hop|apply keeps_ret]|intros _].
  apply keeps_bind; [apply He|intros _].
  apply keeps_bind; [by apply keeps_socket_write|intros _].
  apply keeps_bind.
  { apply keeps_for_of. intros m. apply keeps_bind; [apply keeps_the_client|intros M_].
    apply keeps_bind; [apply keeps_Buffer_from_string|intros nm].
    by apply keeps_socket_write. }
  intros _. apply keeps_bind; [|intros _; exact Hk].
  apply keeps_for_of. intros m. by apply keeps_replay_member.
Qed.

(** [Room.join] adds the joiner after it has turned its nick into a
    buffer, which throws when there is none. *)
Lemma named_Room_join r c : keeps members_named (Room_join r c).
Proof.
  intros σ Hσ. unfold Room_join. unfold bind at 1. unfold the_room at 1. cbv beta iota.
  destruct (Set_has c (clients (room_heap σ !!! r))); [exact Hσ|].
  unfold bind at 1. unfold the_client at 1. cbv beta iota.
  generalize (room_heap σ !!! r). intros R.
  assert (HC : is_Some (nick (client_heap σ !!! c)) →
               ∃ C, client_heap σ !! c = Some C ∧ is_Some (nick C)).
  { rewrite lookup_total_alt. destruct (client_heap σ !! c) as [C|]; [by eauto|].
    by intros [? [=]]. }
  revert HC. generalize (client_heap σ !!! c). intros C HC.
  destruct (nick C) as [n|] eqn:Hn.
  - assert (Hc : named_with c σ) by (split; [exact Hσ|by apply HC]).
    match goal with |- members_named (state_of (?b σ)) =>
      enough (Hk : keeps (named_with c) b) by exact (proj1 (Hk σ Hc)) end.
    apply keeps_join_replay; [intros e; by apply with_same|apply with_set_op|].
    apply keeps_bind; [apply keeps_Buffer_from_string|intros nc].
    apply keeps_bind; [apply keeps_Room_send; intros e; by apply with_same|intros _].
    apply keeps_bind; [apply keeps_Room_requestSync; intros e; by apply with_same|intros _].
    apply with_Set_add.
  - match goal with |- members_named (state_of (?b σ)) =>
      enough (Hk : keeps members_named b) by exact (Hk σ Hσ) end.
    apply keeps_join_replay; [intros e; by apply named_same|apply named_set_op|].
    intros σ' Hσ'. exact Hσ'.
Qed.

Lemma named_Room_part r c : keeps members_named (Room_part r c).
Proof.
  unfold Room_part.
  apply keeps_bind; [by apply named_same|intros _].
  apply keeps_bind; [apply named_Set_delete|intros _].
  apply keeps_bind; [apply keeps_the_room|intros R].
  apply keeps_bind; [apply keeps_the_client|intros C].
  apply keeps_bind; [destruct (strict_eq _ _); [apply named_set_op|apply keeps_ret]|intros _].
  apply keeps_Room_send. intros e. by apply named_same.
Qed.

Lemma named_reachable (constants : Constants) (hooks_connect : Client → bool)
    (hooks_join hooks_message : Client → string → bool) (σ : State) :
  reachable constants hooks_connect hooks_join hooks_message σ → members_named σ.
Proof.
  apply (keeps_reachable members_named); intros;
    try (by apply named_same);
    try (by apply named_update);
    try apply named_Room_join; try apply named_Room_part;
    try apply named_Room_new; try apply named_connection.
  - intros r R m HR. cbn in HR. by rewrite lookup_empty in HR.
  - apply keeps_handshake; intros;
      try (by apply named_same);
      try (by apply named_update);
      try apply named_Room_join; try apply named_Room_part;
      apply named_Room_new.
Qed.

(** In every store the server can reach, the members of a room can be
    replayed to a joiner: each is a client that has a nick and its four
    selections. *)
Lemma members_replayable (constants : Constants) (hooks_connect : Client → bool)
    (hooks_join hooks_message : Client → string → bool) (σ : State) (r : nat) (R : Room) :
  reachable constants hooks_connect hooks_join hooks_message σ →
  room_heap σ !! r = Some R →
  Forall (λ m, replayable (client_heap σ !!! m)) (clients R).
Proof.
  intros Hσ HR. apply Forall_forall. intros m Hm.
  destruct (named_reachable _ _ _ _ _ Hσ r R m HR Hm) as (C & HC & Hn).
  rewrite (lookup_total_correct _ _ _ HC). split; [exact Hn|].
  by destruct (mirrors_reachable _ _ _ _ _ Hσ m C HC) as (_ & _ & _ & _ & Hsel & _).
Qed.

(** So in such a store [Room.join] of a client with a nick that is not a
    member returns, with the effects of [join_effects]. *)
Lemma Room_join_reachable (constants : Constants) (hooks_connect : Client → bool)
    (hooks_join hooks_message : Client → string → bool) (σ : State) (r c : nat) (R : Room) :
  reachable constants hooks_connect hooks_join hooks_message σ →
  room_heap σ !! r = Some R →
  c ∉ clients R →
  is_Some (nick (client_heap σ !!! c)) →
  Room_join r c σ
  = Ok () (add_trace (with_rooms σ (<[r := joined_room σ c R]> (room_heap σ)))
             (join_effects σ r c)).
Proof.
  intros Hσ HR Hc Hn. apply Room_join_spec; [done..|].
  by eapply members_replayable.
Qed.

(** ** Framing *)

Lemma readUntilNull_loop_inv : ∀ inp data d rest,
  readUntilNull_loop data inp = Got d rest →
  ∃ d', d = data ++ d' ∧ inp = d' ++ 0 :: rest ∧ Forall (λ x, x ≠ 0) d'.
Proof.
  induction inp as [|x inp IH]; intros data d rest; cbn [readUntilNull_loop]; [done|].
  destruct (x =? 0) eqn:Hx.
  - apply Z.eqb_eq in Hx as ->. intros [= <- <-].
    exists []. by rewrite app_nil_r.
  - apply Z.eqb_neq in Hx. intros Hrun.
    destruct (IH _ _ _ Hrun) as (d' & -> & -> & Hd').
    exists (x :: d'). rewrite <- app_assoc. split; [done|]. split; [done|].
    by apply Forall_cons_2.
Qed.

Lemma readUntilNull_loop_wait : ∀ inp data,
  readUntilNull_loop data inp = Wait ↔ 0 ∉ inp.
Proof.
  induction inp as [|x inp IH]; intros data; cbn [readUntilNull_loop].
  - split; [intros _; apply not_elem_of_nil|done].
  - destruct (x =? 0) eqn:Hx.
    + apply Z.eqb_eq in Hx as ->. split; [done|]. intros []. apply elem_of_cons. by left.
    + apply Z.eqb_neq in Hx. rewrite IH, not_elem_of_cons.
      split; [intros Hin; split; [lia|exact Hin]|intros [_ Hin]; exact Hin].
Qed.

Lemma readUntilNull_got inp d rest :
  readUntilNull inp = Got d rest ↔ inp = d ++ 0 :: rest ∧ Forall (λ x, x ≠ 0) d.
Proof.
  split.
  - intros Hrun. destruct (readUntilNull_loop_inv _ _ _ _ Hrun) as (d' & -> & -> & Hd').
    done.
  - intros [-> Hd]. by apply readUntilNull_app.
Qed.

(** While the stream is open, [readBytes(n)] returns the first [n] bytes
    once that many have arrived. *)
Lemma readBytes_got n inp d rest :
  readBytes false n inp = Got d rest ↔ 0 < n ∧ inp = d ++ rest ∧ Z.of_nat (length d) = n.
Proof.
  unfold readBytes, socket_read.
  destruct (n <=? 0) eqn:Hn0; [apply Z.leb_le in Hn0|apply Z.leb_gt in Hn0].
  { split; [done|lia]. }
  destruct (n <=? Z.of_nat (length inp)) eqn:Hn; [apply Z.leb_le in Hn|apply Z.leb_gt in Hn].
  - split.
    + intros [= <- <-]. split; [done|]. rewrite take_drop. split; [done|].
      rewrite length_take. lia.
    + intros (_ & -> & Hlen). f_equal.
      * rewrite <- Hlen, Nat2Z.id. by rewrite take_app_length.
      * rewrite <- Hlen, Nat2Z.id. by rewrite drop_app_length.
  - cbn [andb]. split; [done|].
    intros (_ & -> & Hlen). rewrite length_app in Hn. lia.
Qed.

(** X4.  [readUntilNull] frames the handshake record and the strings
    exactly.  It resolves on a buffer that holds a zero byte, and then
    with the bytes before the first zero, the zero consumed and the bytes
    behind it left in the buffer; without a zero byte it stays pending,
    whatever has arrived. *)
Theorem readUntilNull_frames (inp d rest : list Z) :
  (readUntilNull inp = Got d rest ↔ inp = d ++ 0 :: rest ∧ Forall (λ x, x ≠ 0) d)
  ∧ (readUntilNull inp = Wait ↔ 0 ∉ inp).
Proof.
  split; [apply readUntilNull_got|apply readUntilNull_loop_wait].
Qed.

(** A reader that resolves on a buffer resolves alike when more bytes
    have arrived behind it. *)
Lemma readBytes_more n inp more d rest :
  readBytes false n inp = Got d rest →
  readBytes false n (inp ++ more) = Got d (rest ++ more).
Proof.
  intros Hrun. apply (readBytes_got n inp d rest) in Hrun as (Hn & -> & Hlen).
  apply (readBytes_got n). rewrite <- app_assoc. done.
Qed.

Lemma readUntilNull_more inp more d rest :
  readUntilNull inp = Got d rest → readUntilNull (inp ++ more) = Got d (rest ++ more).
Proof.
  intros Hrun. destruct (readUntilNull_loop_inv _ _ _ _ Hrun) as (d' & -> & -> & Hd').
  rewrite <- app_assoc. by apply readUntilNull_app.
Qed.

Lemma stable_rret {A} (a : A) : reads_stable (rret a).
Proof. by intros inp more a' rest [= <- <-]. Qed.

Lemma stable_readBytes {B} n (k : list Z → Reader B) :
  (∀ d, reads_stable (k d)) → reads_stable (rbind (readBytes false n) k).
Proof.
  intros Hk inp more a rest. unfold rbind.
  destruct (readBytes false n inp) as [d inp'|] eqn:Hread; [|done].
  rewrite (readBytes_more _ _ more _ _ Hread). apply Hk.
Qed.

Lemma stable_readUntilNull {B} (k : list Z → Reader B) :
  (∀ d, reads_stable (k d)) → reads_stable (rbind readUntilNull k).
Proof.
  intros Hk inp more a rest. unfold rbind.
  destruct (readUntilNull inp) as [d inp'|] eqn:Hread; [|done].
  rewrite (readUntilNull_more _ more _ _ Hread). apply Hk.
Qed.

Ltac stable_case :=
  lazy beta iota zeta;
  repeat first
    [ apply stable_readUntilNull; intros ?
    | apply stable_readBytes; intros ? ];
  apply stable_rret.

Section Turns.

Variable constants : Constants.
Variable hooks_join : Client → string → bool.
Variable hooks_message : Client → string → bool.

Lemma stable_dispatch c cmd :
  reads_stable (dispatch constants hooks_join hooks_message false c cmd).
Proof.
  unfold dispatch.
  destruct cmd as [|p|p]; [stable_case| |stable_case].
  do 9 (try (destruct p as [p|p|]; try solve [stable_case])).
Qed.

Lemma stable_iteration c : reads_stable (iteration constants hooks_join hooks_message c).
Proof.
  unfold iteration, iteration_on. apply stable_readBytes. intros d. apply stable_dispatch.
Qed.


Lemma main_loop_fuel fuel1 : ∀ fuel2 c inp σ,
  Forall is_byte inp →
  (length inp < fuel1)%nat → (length inp < fuel2)%nat →
  main_loop constants hooks_join hooks_message fuel1 c inp σ
  = main_loop constants hooks_join hooks_message fuel2 c inp σ.
Proof.
  induction fuel1 as [|fuel1 IH]; intros fuel2 c inp σ Hinp H1 H2; [lia|].
  destruct fuel2 as [|fuel2]; [lia|].
  cbn [main_loop]. destruct (connected _); [|done].
  destruct (iteration _ _ _ _ inp) as [act rest|] eqn:Hit; [|done].
  destruct (iteration_consumes _ _ _ c inp act rest Hinp Hit) as [Hlen Hrest].
  destruct (act σ) as [? σ'|e σ']; [|done]. apply IH; [done|lia|lia].
Qed.


Lemma main_loop_pending fuel : ∀ c inp σ pending σ',
  Forall is_byte inp →
  main_loop constants hooks_join hooks_message fuel c inp σ = Some (Suspended pending σ') →
  (length pending ≤ length inp)%nat ∧ Forall is_byte pending.
Proof.
  induction fuel as [|fuel IH]; intros c inp σ pending σ' Hinp; [done|].
  cbn [main_loop]. destruct (connected _); [|done].
  destruct (iteration _ _ _ _ inp) as [act rest|] eqn:Hit; [|by intros [= <- <-]].
  destruct (iteration_consumes _ _ _ c inp act rest Hinp Hit) as [Hlen Hrest].
  destruct (act σ) as [? σ1|e σ1]; [|done]. intros Hrun.
  destruct (IH _ _ _ _ _ Hrest Hrun) as [Hle Hp]. split; [lia|done].
Qed.

Lemma main_loop_resume fuel : ∀ c inp more σ pending σ' fuel2,
  Forall is_byte inp → Forall is_byte more →
  main_loop constants hooks_join hooks_message fuel c inp σ = Some (Suspended pending σ') →
  (length (inp ++ more) < fuel2)%nat →
  main_loop constants hooks_join hooks_message fuel2 c (inp ++ more) σ
  = main_loop constants hooks_join hooks_message fuel2 c (pending ++ more) σ'.
Proof.
  induction fuel as [|fuel IH]; intros c inp more σ pending σ' fuel2 Hinp Hmore; [done|].
  cbn [main_loop]. destruct (connected (client_heap σ !!! c)) eqn:Hconn; [|done].
  destruct (iteration _ _ _ _ inp) as [act rest|] eqn:Hit; [|by intros [= <- <-]].
  destruct (iteration_consumes _ _ _ c inp act rest Hinp Hit) as [Hlen Hrest].
  destruct (act σ) as [? σ1|e σ1] eqn:Hact; [|done]. intros Hrun Hfuel.
  destruct fuel2 as [|fuel2]; [lia|].
  destruct (main_loop_pending _ _ _ _ _ _ Hrest Hrun) as [Hle Hp].
  rewrite length_app in Hfuel.
  transitivity (main_loop constants hooks_join hooks_message fuel2 c (pending ++ more) σ').
  - cbn [main_loop]. rewrite Hconn, (stable_iteration _ _ more _ _ Hit), Hact.
    apply (IH _ _ _ _ _ _ _ Hrest Hmore Hrun). rewrite length_app. lia.
  - apply main_loop_fuel; [by apply Forall_app_2|rewrite length_app; lia..].
Qed.

(** X5.  How the bytes of a client are cut into deliveries does not matter:
    when the loop has run over [inp] and is suspended with [pending]
    unread, the arrival of [more] leads where the loop over [inp ++ more]
    from the start leads. *)
Theorem main_loop_chunks (c : nat) (inp more pending : list Z) (σ σ' : State) :
  Forall is_byte inp → Forall is_byte more →
  main_loop constants hooks_join hooks_message (S (length inp)) c inp σ
  = Some (Suspended pending σ') →
  main_loop constants hooks_join hooks_message (S (length (inp ++ more))) c (inp ++ more) σ
  = main_loop constants hooks_join hooks_message (S (length (pending ++ more))) c
      (pending ++ more) σ'.
Proof.
  intros Hinp Hmore Hrun.
  destruct (main_loop_pending _ _ _ _ _ _ Hinp Hrun) as [Hle Hp].
  rewrite (main_loop_resume _ _ _ more _ _ _ (S (length (inp ++ more))) Hinp Hmore Hrun);
    [|lia].
  apply main_loop_fuel; [by apply Forall_app_2|rewrite !length_app; lia..].
Qed.

End Turns.

(** ** Rooms *)

Lemma filter_agree {A} (P Q : A → Prop) `{∀ x, Decision (P x)} `{∀ x, Decision (Q x)}
    (l : list A) :
  (∀ x, x ∈ l → P x ↔ Q x) → filter P l = filter Q l.
Proof.
  induction l as [|x l IH]; intros HPQ; [done|].
  rewrite !filter_cons.
  assert (Hx : P x ↔ Q x) by (apply HPQ; by left).
  rewrite IH by (intros y Hy; apply HPQ; by right).
  destruct (decide (P x)), (decide (Q x)); tauto || done.
Qed.

Lemma NoDup_fmap_elem_inj {A B} (f : A → B) (l : list A) x y :
  NoDup (f <$> l) → x ∈ l → y ∈ l → f x = f y → x = y.
Proof.
  intros Hnd [i Hi]%list_elem_of_lookup [j Hj]%list_elem_of_lookup Hf.
  assert (i = j) as ->.
  { eapply NoDup_lookup; [exact Hnd| |].
    - rewrite list_lookup_fmap, Hi. done.
    - rewrite list_lookup_fmap, Hj. simpl. by rewrite Hf. }
  congruence.
Qed.

Lemma send_targets_others σ l c :
  NoDup ((λ m, num_val (cid (client_heap σ !!! m))) <$> l) → c ∈ l →
  send_targets σ l (Some c) = filter (λ m, m ≠ c) l.
Proof.
  intros Hnd Hc. unfold send_targets. apply filter_agree. intros m Hm.
  cbn [except_val]. split.
  - intros Hne ->. done.
  - intros Hne Heq. apply Hne. by eapply NoDup_fmap_elem_inj.
Qed.

Lemma send_targets_default σ l :
  Forall (λ m, is_Some (cid (client_heap σ !!! m))) l →
  send_targets σ l None = l.
Proof.
  intros Hl. unfold send_targets. induction Hl as [|m l [i Hm] Hl IH]; [done|].
  rewrite filter_cons, decide_True, IH; [done|].
  cbn [except_val]. by rewrite Hm.
Qed.

(** X6.  When the members of a room have pairwise different ids,
    [Room.send(buf, c)] for a member [c] writes [buf] once to every other
    member, in the order of the member set, and nothing to [c]; and
    [Room.send(buf)] writes [buf] to every member (each has an id). *)
Theorem send_reaches_all_but_sender (σ : State) (r c : nat) (buf : list Z) :
  NoDup (member_ids σ (room_heap σ !!! r)) →
  c ∈ clients (room_heap σ !!! r) →
  Forall (λ m, is_Some (cid (client_heap σ !!! m))) (clients (room_heap σ !!! r)) →
  Room_send r buf (Some c) σ
  = Ok () (add_trace σ
      ((λ m, SocketWrite (socket (client_heap σ !!! m)) buf)
         <$> filter (λ m, m ≠ c) (clients (room_heap σ !!! r))))
  ∧ Room_send r buf None σ
    = Ok () (add_trace σ
        ((λ m, SocketWrite (socket (client_heap σ !!! m)) buf)
           <$> clients (room_heap σ !!! r))).
Proof.
  intros Hnd Hc Hids. rewrite !Room_send_spec. unfold send_writes.
  rewrite send_targets_others by done. by rewrite send_targets_default.
Qed.

Lemma find_split {A} (p : A → bool) (l : list A) :
  match List.find p l with
  | None => Forall (λ x, p x = false) l
  | Some m => ∃ pre post, l = pre ++ m :: post ∧ Forall (λ x, p x = false) pre ∧ p m = true
  end.
Proof.
  induction l as [|x l IH]; cbn [List.find]; [by apply Forall_nil|].
  destruct (p x) eqn:Hx.
  - exists [], l. split; [done|]. split; [by apply Forall_nil|done].
  - destruct (List.find p l) as [m|].
    + destruct IH as (pre & post & -> & Hpre & Hm).
      exists (x :: pre), post. split; [done|]. split; [by apply Forall_cons_2|done].
    + by apply Forall_cons_2.
Qed.

(** X7.  [Room.requestSync(c)] asks at most one member: the first in the
    order of the member set that is not in chat mode and has another id
    than [c] is written [[128, c.id]]; when there is none, nothing is
    written. *)
Theorem request_sync_asks_first (σ : State) (r c : nat) :
  let skipped m := isChat (client_heap σ !!! m) = true
                   ∨ cid (client_heap σ !!! m) = cid (client_heap σ !!! c) in
  (Forall skipped (clients (room_heap σ !!! r))
   ∧ Room_requestSync r c σ = Ok () σ)
  ∨ (∃ pre m post,
       clients (room_heap σ !!! r) = pre ++ m :: post
       ∧ Forall skipped pre
       ∧ ¬ skipped m
       ∧ Room_requestSync r c σ
         = Ok () (add_trace σ
             [SocketWrite (socket (client_heap σ !!! m))
                (Buffer_from [128; to_uint8 (cid (client_heap σ !!! c))])])).
Proof.
  intros skipped.
  pose proof (emits_run _ _ _ (emits_Room_requestSync σ r c)) as Hrun.
  unfold sync_writes, sync_target in Hrun.
  set (p := λ m, negb (isChat (client_heap σ !!! m))
                 && negb (strict_eq (num_val (cid (client_heap σ !!! c)))
                                    (num_val (cid (client_heap σ !!! m))))) in *.
  assert (Hp : ∀ m, p m = false ↔ skipped m).
  { intros m. unfold p, skipped, strict_eq.
    destruct (isChat (client_heap σ !!! m)); cbn [negb andb]; [split; [by left|done]|].
    case_bool_decide as Heq; cbn [negb].
    - split; [|done]. intros _. right. symmetry. by apply num_val_inj.
    - split; [done|]. intros [?|Hid]; [done|]. by rewrite Hid in Heq. }
  pose proof (find_split p (clients (room_heap σ !!! r))) as Hfind.
  destruct (List.find p (clients (room_heap σ !!! r))) as [m|].
  - right. destruct Hfind as (pre & post & Hl & Hpre & Hm).
    exists pre, m, post. split; [done|]. split.
    + eapply Forall_impl; [exact Hpre|]. intros x. apply Hp.
    + split; [|done]. intros Hs%Hp. congruence.
  - left. rewrite add_trace_nil in Hrun. split; [|done].
    eapply Forall_impl; [exact Hfind|]. intros x. apply Hp.
Qed.

Lemma Set_delete_added c l : c ∉ l → Set_delete c (l ++ [c]) = l.
Proof.
  intros Hc. unfold Set_delete. rewrite filter_app, filter_cons, decide_False by naive_solver.
  cbn. rewrite app_nil_r. induction l as [|x l IH]; [done|].
  apply not_elem_of_cons in Hc as [Hx Hc].
  rewrite filter_cons, decide_True by done. by rewrite IH.
Qed.

(** X8.  [Room.join(c)] followed by [Room.part(c)], for a client that was
    not a member: the member set is what it was and no client has
    changed.  The operator is what it was unless the room was empty (then
    it is [undefined], not the [null] of a new room) or the old operator
    had the id of [c] (then the first member, as an object, is elected). *)
Theorem room_join_part_round_trip (σ : State) (r c : nat) (R : Room) :
  room_heap σ !! r = Some R →
  c ∉ clients R →
  is_Some (nick (client_heap σ !!! c)) →
  Forall (λ m, replayable (client_heap σ !!! m)) (clients R) →
  ∃ σ1 σ2,
    Room_join r c σ = Ok () σ1
    ∧ Room_part r c σ1 = Ok () σ2
    ∧ client_heap σ2 = client_heap σ
    ∧ server_clients σ2 = server_clients σ
    ∧ server_rooms σ2 = server_rooms σ
    ∧ room_heap σ2
      = <[r := mkRoom (name R) (clients R)
                 (if bool_decide (clients R = []) then JUndefined
                  else if strict_eq (op R) (num_val (cid (client_heap σ !!! c)))
                       then Set_first (clients R) else op R)]> (room_heap σ).
Proof.
  intros HR Hc Hnick Hmem.
  eexists _, _. split; [by apply Room_join_spec|].
  split.
  { apply Room_part_spec. cbn [add_trace with_rooms room_heap]. apply lookup_insert_eq. }
  cbn [add_trace with_rooms client_heap server_clients server_rooms room_heap].
  split; [done|]. split; [done|]. split; [done|].
  rewrite insert_insert_eq. f_equal.
  unfold parted_room, joined_room. cbn [name clients op client_heap].
  rewrite Set_delete_added by done. f_equal.
  destruct (clients R) as [|m l] eqn:Hl.
  - rewrite bool_decide_eq_true_2 by done.
    rewrite (bool_decide_eq_true_2 ([] = [])) by done.
    unfold strict_eq. by rewrite bool_decide_eq_true_2.
  - rewrite bool_decide_eq_false_2 by done.
    by rewrite (bool_decide_eq_false_2 (m :: l = [])).
Qed.

(** ** The tables of the server *)

Lemma find_seqZ_first (p : Z → bool) (n : nat) : ∀ a,
  match List.find p (seqZ a (Z.of_nat n)) with
  | Some i => a ≤ i < a + Z.of_nat n ∧ p i = true ∧ ∀ j, a ≤ j < i → p j = false
  | None => ∀ j, a ≤ j < a + Z.of_nat n → p j = false
  end.
Proof.
  induction n as [|n IH]; intros a.
  - cbn. intros j Hj. lia.
  - rewrite Nat2Z.inj_succ, seqZ_cons by lia. cbn [List.find].
    replace (Z.pred (Z.succ (Z.of_nat n))) with (Z.of_nat n) by lia.
    destruct (p a) eqn:Ha.
    + split; [lia|]. split; [done|]. intros j Hj. lia.
    + specialize (IH (Z.succ a)).
      destruct (List.find p (seqZ (Z.succ a) (Z.of_nat n))) as [i|].
      * destruct IH as (Hi & Hpi & Hlow). split; [lia|]. split; [done|].
        intros j Hj. destruct (decide (j = a)) as [->|]; [done|]. apply Hlow. lia.
      * intros j Hj. destruct (decide (j = a)) as [->|]; [done|]. apply IH. lia.
Qed.

Lemma find_id_first table :
  match find_id table with
  | Some i => 0 ≤ i < 256 ∧ table !! Some i = None
              ∧ ∀ j, 0 ≤ j < i → is_Some (table !! Some j)
  | None => ∀ j, 0 ≤ j < 256 → is_Some (table !! Some j)
  end.
Proof.
  unfold find_id.
  pose proof (find_seqZ_first (λ i, bool_decide (table !! Some i = None)) 256 0) as H.
  change (Z.of_nat 256) with 256 in H.
  destruct (List.find _ (seqZ 0 256)) as [i|].
  - destruct H as (Hi & Hpi & Hlow). split; [lia|].
    split; [by apply bool_decide_eq_true_1 in Hpi|].
    intros j Hj. specialize (Hlow j Hj). apply bool_decide_eq_false_1 in Hlow.
    by destruct (table !! Some j).
  - intros j Hj. specialize (H j). apply bool_decide_eq_false_1 in H; [|lia].
    by destruct (table !! Some j).
Qed.

(** X9.  The id the constructor picks is the lowest number from 0 to 255
    that is not a key of the client table; it picks none (the id stays
    [undefined]) only when all 256 are keys. *)
Theorem find_id_lowest_free (table : gmap (option Z) nat) :
  match find_id table with
  | Some i => 0 ≤ i < 256 ∧ table !! Some i = None
              ∧ ∀ j, 0 ≤ j < i → is_Some (table !! Some j)
  | None => ∀ j, 0 ≤ j < 256 → is_Some (table !! Some j)
  end.
Proof. apply find_id_first. Qed.

(** X10.  [disconnect] gives the id back: after it the id of the client is
    no key of the table, whatever the table held under it, and the next
    constructor picks that id or a lower one. *)
Theorem disconnect_frees_id (σ : State) (c : nat) (i : Z) (reason : option string) :
  cid (client_heap σ !!! c) = Some i →
  is_byte i →
  ∃ σ' j,
    Client_disconnect c reason σ = Ok () σ'
    ∧ server_clients σ' = delete (Some i) (server_clients σ)
    ∧ find_id (server_clients σ') = Some j
    ∧ j ≤ i.
Proof.
  intros Hid Hi.
  destruct (Client_disconnect_first σ c reason) as (σ' & Hrun & _ & _ & _ & Htable).
  rewrite Hid in Htable.
  pose proof (find_id_first (server_clients σ')) as Hfind.
  destruct (find_id (server_clients σ')) as [j|] eqn:Hj'.
  - exists σ', j. split; [done|]. split; [done|]. split; [done|].
    destruct Hfind as (Hj & _ & Hlow).
    destruct (decide (j ≤ i)) as [|Hgt]; [done|].
    destruct (Hlow i) as [x Hx]; [unfold is_byte in Hi; lia|].
    by rewrite Htable, lookup_delete_eq in Hx.
  - destruct (Hfind i Hi) as [x Hx]. by rewrite Htable, lookup_delete_eq in Hx.
Qed.

(** What [Client.join(n)] emits when it creates the room. *)
Lemma Client_join_new σ c n :
  server_rooms σ !! n = None →
  is_Some (nick (client_heap σ !!! c)) →
  Client_join c n σ = Ok () (created_room σ c n).
Proof.
  intros Hn Hnick. unfold Client_join, Server_join.
  unfold bind at 1. unfold bind at 1. unfold bind at 1. unfold get_state at 1.
  cbv beta iota. rewrite Hn.
  unfold bind at 1. unfold Room_new at 1. cbv beta iota zeta.
  unfold bind at 1. unfold set_server_rooms at 1. cbv beta iota.
  unfold bind at 1. unfold do_effect at 1. cbv beta iota.
  unfold ret at 1. cbv beta iota.
  cbn [client_heap room_heap server_clients server_rooms trace].
  set (r := fresh (dom (room_heap σ))).
  unfold bind at 1.
  erewrite Room_join_spec; cycle 1.
  { cbn [room_heap]. apply lookup_insert_eq. }
  { cbn [new_Room clients]. apply not_elem_of_nil. }
  { cbn [client_heap]. exact Hnick. }
  { cbn [new_Room clients]. by apply Forall_nil. }
  unfold bind, do_effect, ret, update_client, created_room.
  fold r.
  unfold join_effects, joined_room, add_trace, with_rooms, sync_writes, sync_target, send_writes,
    send_targets.
  cbn [client_heap room_heap server_clients server_rooms trace].
  rewrite lookup_total_insert_eq. cbn [new_Room clients name op length fmap list_fmap
    List.find app mbind list_bind].
  rewrite filter_nil. cbn [fmap list_fmap app].
  rewrite insert_insert_eq, bool_decide_eq_true_2 by done.
  f_equal. f_equal. rewrite <- !app_assoc. done.
Qed.

(** X11.  [Client.join(n)] for a name that is not in the room table
    creates the room: a new [Room] with that name is put in the table, the
    joiner is its only member and its operator, ['roomCreate'] comes
    before the two ['join'] events, and the joiner is written the empty
    roster [[16, 0]] and nothing else. *)
Theorem join_creates_room (σ : State) (c : nat) (n : string) :
  server_rooms σ !! n = None →
  is_Some (nick (client_heap σ !!! c)) →
  ∃ σ' r,
    Client_join c n σ = Ok () σ'
    ∧ room_heap σ !! r = None
    ∧ server_rooms σ' = <[n := r]> (server_rooms σ)
    ∧ room_heap σ' = <[r := mkRoom n [c] (num_val (cid (client_heap σ !!! c)))]> (room_heap σ)
    ∧ client_heap σ' = alter (set_room (Some r)) c (client_heap σ)
    ∧ server_clients σ' = server_clients σ
    ∧ trace σ' = trace σ ++
        [ServerEmit (SRoomCreate r); RoomEmit r (RJoin c);
         SocketWrite (socket (client_heap σ !!! c)) [16; 0];
         ServerEmit (SJoin c r); ClientEmit c (CJoin n)].
Proof.
  intros Hn Hnick. exists (created_room σ c n), (fresh (dom (room_heap σ))).
  split; [by apply Client_join_new|].
  split; [apply not_elem_of_dom, is_fresh|]. done.
Qed.

Lemma Client_part_spec σ c r R :
  room (client_heap σ !!! c) = Some r →
  room_heap σ !! r = Some R →
  Client_part c σ = Ok () (parted σ c r R).
Proof.
  intros Hroom HR. unfold Client_part, Server_part.
  unfold bind at 1. unfold do_effect at 1. cbv beta iota.
  unfold bind at 1. unfold the_client at 1. cbv beta iota.
  cbn [client_heap]. rewrite Hroom.
  unfold bind at 1. unfold bind at 1. unfold do_effect at 1. cbv beta iota.
  unfold bind at 1.
  erewrite Room_part_spec by (cbn [room_heap]; exact HR).
  unfold bind at 1. unfold the_room at 1. cbv beta iota.
  cbn [add_trace with_rooms room_heap client_heap server_clients server_rooms trace].
  rewrite lookup_total_insert_eq. unfold parted.
  cbn [parted_room clients name].
  rewrite (bool_decide_ext (length (Set_delete c (clients R)) = 0%nat)
             (Set_delete c (clients R) = [])) by apply length_zero_iff_nil.
  case_bool_decide as Hempty.
  - unfold bind, do_effect, set_server_rooms, update_client, add_trace, with_rooms, with_clients.
    cbn [client_heap room_heap server_clients server_rooms trace].
    f_equal. f_equal. rewrite <- !app_assoc. cbn [app]. try rewrite app_nil_r. reflexivity.
  - unfold ret, update_client, add_trace, with_rooms, with_clients.
    cbn [client_heap room_heap server_clients server_rooms trace].
    f_equal. f_equal. rewrite <- !app_assoc. cbn [app]. try rewrite app_nil_r. reflexivity.
Qed.

(** X12.  [Client.part()] of a client in a room: the client leaves the
    member set and its [room] becomes [null]; the others are written
    [[18, id]]; and exactly when no member is left the room is removed
    from the room table under its name, after ['delete'] on the room and
    ['roomDelete'] on the server. *)
Theorem part_deletes_empty_room (σ : State) (c r : nat) (R : Room) :
  room (client_heap σ !!! c) = Some r →
  room_heap σ !! r = Some R →
  ∃ σ',
    Client_part c σ = Ok () σ'
    ∧ client_heap σ' = alter (set_room None) c (client_heap σ)
    ∧ server_clients σ' = server_clients σ
    ∧ clients (room_heap σ' !!! r) = Set_delete c (clients R)
    ∧ server_rooms σ'
      = (if bool_decide (Set_delete c (clients R) = [])
         then delete (name R) (server_rooms σ) else server_rooms σ)
    ∧ trace σ' = trace σ ++
        [ClientEmit c CPart; ServerEmit (SPart c (Some r)); RoomEmit r (RPart c)]
        ++ send_writes σ (Set_delete c (clients R))
             (Buffer_from [18; to_uint8 (cid (client_heap σ !!! c))]) (Some c)
        ++ (if bool_decide (Set_delete c (clients R) = [])
            then [RoomEmit r RDelete; ServerEmit (SRoomDelete r)] else []).
Proof.
  intros Hroom HR. exists (parted σ c r R). split; [by apply Client_part_spec|].
  unfold parted. cbn [client_heap server_clients room_heap server_rooms trace].
  rewrite lookup_total_insert_eq. done.
Qed.

(** X13.  [Client.join(n)] for a new name and then [Client.part()]: the
    room table is what it was (the room is created and deleted again),
    the client table is what it was, and the client is in no room. *)
Theorem join_part_round_trip (σ : State) (c : nat) (n : string) (C : Client) :
  client_heap σ !! c = Some C →
  is_Some (nick C) →
  server_rooms σ !! n = None →
  ∃ σ1 σ2,
    Client_join c n σ = Ok () σ1
    ∧ Client_part c σ1 = Ok () σ2
    ∧ server_rooms σ2 = server_rooms σ
    ∧ server_clients σ2 = server_clients σ
    ∧ client_heap σ2 = <[c := set_room None C]> (client_heap σ).
Proof.
  intros HC Hnick Hn.
  pose proof (lookup_total_correct _ _ _ HC) as HC'.
  set (r := fresh (dom (room_heap σ))).
  exists (created_room σ c n).
  exists (parted (created_room σ c n) c r (mkRoom n [c] (num_val (cid C)))).
  split; [apply Client_join_new; [done|by rewrite HC']|].
  split.
  { apply Client_part_spec.
    - unfold created_room. cbn [client_heap].
      rewrite lookup_total_alter_eq, HC. done.
    - unfold created_room. cbn [room_heap]. fold r. rewrite HC'. apply lookup_insert_eq. }
  unfold parted, created_room.
  cbn [client_heap server_clients room_heap server_rooms name clients].
  unfold Set_delete. rewrite filter_cons, decide_False, filter_nil by (intros H; by apply H).
  rewrite bool_decide_eq_true_2 by done.
  split; [by rewrite delete_insert_eq, delete_id|]. split; [done|].
  rewrite (alter_lookup_insert (set_room (Some r)) _ _ C) by done.
  by rewrite alter_insert_eq.
Qed.

(** ** The handshake *)

Lemma turned_away_spec σ c frame reason :
  room (client_heap σ !!! c) = None →
  (socket_write (socket (client_heap σ !!! c)) (bytes_of_string frame) ;;;
   Client_disconnect c (Some reason) ;;; ret false) σ
  = Ok false (turned_away σ c frame reason).
Proof.
  intros Hroom. unfold Client_disconnect, Server_disconnect.
  unfold socket_write, socket_end, bind, do_effect, the_client, set_server_clients.
  cbn [client_heap room_heap server_clients server_rooms trace default].
  rewrite Hroom. unfold ret, turned_away. by rewrite <- !app_assoc.
Qed.

Lemma alter_total_field {B} (P : Client → B) (f : Client → Client) (h : gmap nat Client) c :
  (∀ X, P (f X) = P X) → P (alter f c h !!! c) = P (h !!! c).
Proof.
  intros Hf. rewrite lookup_total_alter_eq, lookup_total_alt.
  destruct (h !! c); simpl; [apply Hf|done].
Qed.

Lemma noted_client σ c v :
  socket (client_heap (noted σ c v) !!! c) = socket (client_heap σ !!! c)
  ∧ cid (client_heap (noted σ c v) !!! c) = cid (client_heap σ !!! c)
  ∧ room (client_heap (noted σ c v) !!! c) = room (client_heap σ !!! c)
  ∧ nick (client_heap (noted σ c v) !!! c) = nick (client_heap σ !!! c).
Proof.
  unfold noted. cbn [with_clients client_heap].
  rewrite (alter_total_field socket), (alter_total_field socket) by done.
  rewrite (alter_total_field cid), (alter_total_field cid) by done.
  rewrite (alter_total_field room), (alter_total_field room) by done.
  rewrite (alter_total_field nick), (alter_total_field nick) by done.
  done.
Qed.

Lemma named_client σ c n :
  socket (client_heap (named σ c n) !!! c) = socket (client_heap σ !!! c)
  ∧ cid (client_heap (named σ c n) !!! c) = cid (client_heap σ !!! c)
  ∧ room (client_heap (named σ c n) !!! c) = room (client_heap σ !!! c).
Proof.
  unfold named. cbn [with_clients client_heap].
  rewrite (alter_total_field socket) by done.
  rewrite (alter_total_field cid) by done.
  rewrite (alter_total_field room) by done.
  done.
Qed.

Lemma named_other σ c n d :
  d ≠ c → client_heap (named σ c n) !!! d = client_heap σ !!! d.
Proof. intros Hd. unfold named. cbn [with_clients client_heap]. by rewrite lookup_total_alter_ne. Qed.

Lemma noted_other σ c v d :
  d ≠ c → client_heap (noted σ c v) !!! d = client_heap σ !!! d.
Proof.
  intros Hd. unfold noted. cbn [with_clients client_heap].
  by rewrite !lookup_total_alter_ne.
Qed.

Section HandshakeFacts.

Variable constants : Constants.
Variable hooks_connect : Client → bool.

(** The handshake up to the test of the version. *)
Lemma handshake_start σ c buf :
  handshake constants hooks_connect c buf σ
  = (let major := buf !! 0%nat in
     let minor := buf !! 1%nat in
     let scriptVer := buf !! 2%nat in
     let C := client_heap (noted σ c [major; minor; scriptVer]) !!! c in
     if js_lt major (MAJOR_MIN constants)
        || js_eq major (MAJOR_MIN constants) && js_lt minor (MINOR_MIN constants)
     then
       socket_write (socket C) (bytes_of_string
         (NUL +:+ "Client out of date (expected at least " +:+ pretty (MAJOR_MIN constants)
              +:+ "." +:+ pretty (MINOR_MIN constants) +:+ ")" +:+ NUL)) ;;;
       Client_disconnect c (Some ("Old version: " +:+ show_num major +:+ "." +:+ show_num minor)) ;;;
       ret false
     else if js_gt major (MAJOR_MAX constants)
        || js_eq major (MAJOR_MAX constants) && js_gt minor (MINOR_MAX constants)
     then
       socket_write (socket C) (bytes_of_string
         (NUL +:+ "Client too new (expected at most " +:+ pretty (MAJOR_MAX constants)
              +:+ "." +:+ pretty (MINOR_MAX constants) +:+ ")" +:+ NUL)) ;;;
       Client_disconnect c (Some ("New version: " +:+ show_num major +:+ "." +:+ show_num minor)) ;;;
       ret false
     else if negb (js_eq scriptVer (SCRIPT constants))
     then throw (TypeError "Cannot read properties of undefined (reading 'SCRIPT')")
     else
       let nick_ := toString (drop 3 buf) in
       update_client c (set_nick (Some nick_)) ;;;
       if negb (match_name nick_) then
         socket_write (socket C) (bytes_of_string (NUL +:+ "Bad nickname" +:+ NUL)) ;;;
         Client_disconnect c (Some "Invalid nickname") ;;;
         ret false
       else if 32 <? str_length nick_ then
         socket_write (socket C) (bytes_of_string (NUL +:+ "Nick too long" +:+ NUL)) ;;;
         update_client c (set_nick (Some (String.substring 0 64 nick_))) ;;;
         Client_disconnect c (Some ("Nick was too long (" +:+ pretty (str_length nick_) +:+ ")")) ;;;
         ret false
       else
         σ <- get_state ;;
         if nick_taken σ c nick_ then
           socket_write (socket C)
             (bytes_of_string (NUL +:+ "This nick is already on the server" +:+ NUL)) ;;;
           Client_disconnect c (Some ("Nick taken (" +:+ nick_ +:+ ")")) ;;;
           ret false
         else
           socket_write (socket C) [1] ;;;
           do_effect (ClientEmit c CIdentified) ;;;
           do_effect (ServerEmit (SNewClient c)) ;;;
           C' <- the_client c ;;
           if negb (hooks_connect C') then ret false
           else Client_join c "null" ;;; ret true)
    (noted σ c [buf !! 0%nat; buf !! 1%nat; buf !! 2%nat]).
Proof. reflexivity. Qed.

Lemma in_window_tests major minor :
  in_window constants major minor →
  (major <? MAJOR_MIN constants)
    || (major =? MAJOR_MIN constants) && (minor <? MINOR_MIN constants) = false
  ∧ (MAJOR_MAX constants <? major)
    || (major =? MAJOR_MAX constants) && (MINOR_MAX constants <? minor) = false.
Proof.
  intros [Hlo Hhi]. split; apply orb_false_intro; try apply andb_false_iff; lia.
Qed.

(** The handshake of a record in the window with the script version of
    the server, from the point where the nick is stored. *)
Lemma handshake_nick σ c major minor nickb :
  in_window constants major minor →
  handshake constants hooks_connect c (major :: minor :: SCRIPT constants :: nickb) σ
  = (let nick_ := toString nickb in
     let σ1 := noted σ c [Some major; Some minor; Some (SCRIPT constants)] in
     let C := client_heap σ1 !!! c in
     (if negb (match_name nick_) then
        socket_write (socket C) (bytes_of_string (NUL +:+ "Bad nickname" +:+ NUL)) ;;;
        Client_disconnect c (Some "Invalid nickname") ;;;
        ret false
      else if 32 <? str_length nick_ then
        socket_write (socket C) (bytes_of_string (NUL +:+ "Nick too long" +:+ NUL)) ;;;
        update_client c (set_nick (Some (String.substring 0 64 nick_))) ;;;
        Client_disconnect c (Some ("Nick was too long (" +:+ pretty (str_length nick_) +:+ ")")) ;;;
        ret false
      else
        σ <- get_state ;;
        if nick_taken σ c nick_ then
          socket_write (socket C)
            (bytes_of_string (NUL +:+ "This nick is already on the server" +:+ NUL)) ;;;
          Client_disconnect c (Some ("Nick taken (" +:+ nick_ +:+ ")")) ;;;
          ret false
        else
          socket_write (socket C) [1] ;;;
          do_effect (ClientEmit c CIdentified) ;;;
          do_effect (ServerEmit (SNewClient c)) ;;;
          C' <- the_client c ;;
          if negb (hooks_connect C') then ret false
          else Client_join c "null" ;;; ret true) (named σ1 c nick_)).
Proof.
  intros Hwin. rewrite handshake_start.
  cbn [lookup list_lookup drop]. cbv zeta. cbn [js_lt js_gt js_eq].
  destruct (in_window_tests _ _ Hwin) as [-> ->].
  rewrite Z.eqb_refl. cbn [negb]. reflexivity.
Qed.

(** X14.  A record whose version is below the window, or else above it, is
    turned away: the client is written the string that names the bound
    between two zero bytes and is disconnected with the version it sent as
    the reason; its nick is not read. *)
Theorem handshake_rejects_version (σ : State) (c : nat) (major minor : Z)
    (tail : list Z) :
  room (client_heap σ !!! c) = None →
  let v := [Some major; Some minor; tail !! 0%nat] in
  (too_old constants major minor →
   handshake constants hooks_connect c (major :: minor :: tail) σ
   = Ok false (turned_away (noted σ c v) c
       (NUL +:+ "Client out of date (expected at least " +:+ pretty (MAJOR_MIN constants)
            +:+ "." +:+ pretty (MINOR_MIN constants) +:+ ")" +:+ NUL)
       ("Old version: " +:+ pretty major +:+ "." +:+ pretty minor)))
  ∧ (¬ too_old constants major minor → too_new constants major minor →
     handshake constants hooks_connect c (major :: minor :: tail) σ
     = Ok false (turned_away (noted σ c v) c
         (NUL +:+ "Client too new (expected at most " +:+ pretty (MAJOR_MAX constants)
              +:+ "." +:+ pretty (MINOR_MAX constants) +:+ ")" +:+ NUL)
         ("New version: " +:+ pretty major +:+ "." +:+ pretty minor))).
Proof.
  intros Hroom v. rewrite handshake_start.
  cbn [lookup list_lookup]. cbv zeta. cbn [js_lt js_gt js_eq]. fold v.
  destruct (noted_client σ c v) as (Hs & Hid & Hr & Hn).
  split.
  - intros Hold.
    replace ((major <? MAJOR_MIN constants)
             || (major =? MAJOR_MIN constants) && (minor <? MINOR_MIN constants))
      with true.
    2:{ symmetry. apply orb_true_iff. destruct Hold as [?|[? ?]]; [left|right]; [lia|].
        apply andb_true_iff. lia. }
    apply turned_away_spec. by rewrite Hr.
  - intros Hold Hnew.
    replace ((major <? MAJOR_MIN constants)
             || (major =? MAJOR_MIN constants) && (minor <? MINOR_MIN constants))
      with false.
    2:{ symmetry. apply orb_false_iff. unfold too_old in Hold. split; [lia|].
        apply andb_false_iff. lia. }
    replace ((MAJOR_MAX constants <? major)
             || (major =? MAJOR_MAX constants) && (MINOR_MAX constants <? minor))
      with true.
    2:{ symmetry. apply orb_true_iff. destruct Hnew as [?|[? ?]]; [left|right]; [lia|].
        apply andb_true_iff. lia. }
    apply turned_away_spec. by rewrite Hr.
Qed.

(** X15.  A record in the window with the right script version whose nick
    is empty or has a character outside [[A-Za-z0-9_-]] is turned away
    with the string [Bad nickname]; the nick it sent stays in the
    [Client]. *)
Theorem handshake_rejects_bad_nick (σ : State) (c : nat) (major minor : Z)
    (nickb : list Z) :
  room (client_heap σ !!! c) = None →
  in_window constants major minor →
  match_name (toString nickb) = false →
  handshake constants hooks_connect c (major :: minor :: SCRIPT constants :: nickb) σ
  = Ok false
      (turned_away
         (named (noted σ c [Some major; Some minor; Some (SCRIPT constants)]) c
            (toString nickb))
         c (NUL +:+ "Bad nickname" +:+ NUL) "Invalid nickname").
Proof.
  intros Hroom Hwin Hbad. rewrite handshake_nick by done. cbv zeta.
  rewrite Hbad. cbn [negb].
  set (σ1 := noted σ c _). set (n := toString nickb).
  destruct (noted_client σ c [Some major; Some minor; Some (SCRIPT constants)])
    as (Hs & Hid & Hr & Hn).
  destruct (named_client σ1 c n) as (Hs' & Hid' & Hr').
  rewrite <- Hs'. apply turned_away_spec. rewrite Hr'. unfold σ1. by rewrite Hr.
Qed.

(** X16.  A well-formed nick of more than 32 characters is turned away
    with the string [Nick too long]; the [Client] keeps the first 64
    characters of it and the reason gives its length. *)
Theorem handshake_rejects_long_nick (σ : State) (c : nat) (major minor : Z)
    (nickb : list Z) :
  room (client_heap σ !!! c) = None →
  in_window constants major minor →
  match_name (toString nickb) = true →
  32 < str_length (toString nickb) →
  handshake constants hooks_connect c (major :: minor :: SCRIPT constants :: nickb) σ
  = Ok false
      (turned_away
         (named (noted σ c [Some major; Some minor; Some (SCRIPT constants)]) c
            (String.substring 0 64 (toString nickb)))
         c (NUL +:+ "Nick too long" +:+ NUL)
         ("Nick was too long (" +:+ pretty (str_length (toString nickb)) +:+ ")")).
Proof.
  intros Hroom Hwin Hgood Hlong. rewrite handshake_nick by done. cbv zeta.
  rewrite Hgood. cbn [negb]. rewrite (proj2 (Z.ltb_lt _ _) Hlong).
  set (σ1 := noted σ c _). set (n := toString nickb).
  destruct (noted_client σ c [Some major; Some minor; Some (SCRIPT constants)])
    as (Hs & Hid & Hr & Hn).
  destruct (named_client σ1 c n) as (Hs' & Hid' & Hr').
  destruct (named_client σ1 c (String.substring 0 64 n)) as (Hs2 & Hid2 & Hr2).
  unfold Client_disconnect, Server_disconnect.
  unfold socket_write, socket_end, bind, do_effect, the_client, set_server_clients,
    update_client.
  cbn [client_heap room_heap server_clients server_rooms trace default named with_clients].
  unfold turned_away, named. cbn [client_heap room_heap server_clients server_rooms trace
    with_clients].
  assert (Hr1 : room (client_heap σ1 !!! c) = None) by (unfold σ1; by rewrite Hr).
  rewrite !(alter_total_field room) by done.
  rewrite !(alter_total_field cid) by done.
  rewrite !(alter_total_field socket) by done.
  rewrite Hr1. unfold ret.
  f_equal. f_equal.
  - rewrite alter_alter_eq. apply alter_ext. done.
  - by rewrite <- !app_assoc.
Qed.

Lemma nick_taken_true σ c n :
  nick_in_use σ c n → nick_taken σ c n = true.
Proof.
  intros (k & d & Hk & Hne & _ & Hn). unfold nick_taken.
  apply existsb_exists. exists (k, d). split.
  - apply list_elem_of_In, elem_of_map_to_list. done.
  - cbn [fst snd]. apply andb_true_iff. split; [by apply bool_decide_eq_true_2|].
    apply negb_true_iff. unfold strict_eq. apply bool_decide_eq_false_2.
    intros Heq. by apply Hne, num_val_inj.
Qed.

Lemma nick_taken_false σ c n :
  (∀ k d, server_clients σ !! k = Some d → k ≠ cid (client_heap σ !!! c) →
          nick (client_heap σ !!! d) ≠ Some n) →
  nick_taken σ c n = false.
Proof.
  intros Hfree. unfold nick_taken.
  destruct (existsb _ _) eqn:Hex; [|done].
  apply existsb_exists in Hex as ([k d] & Hin & Hp).
  apply list_elem_of_In, elem_of_map_to_list in Hin.
  cbn [fst snd] in Hp. apply andb_true_iff in Hp as [Hn Hk].
  apply bool_decide_eq_true_1 in Hn. apply negb_true_iff in Hk.
  unfold strict_eq in Hk. apply bool_decide_eq_false_1 in Hk.
  exfalso. apply (Hfree k d); [done| |done]. intros ->. done.
Qed.

(** X17.  A well-formed nick that another entry of the client table has
    is turned away with the string [This nick is already on the server]. *)
Theorem handshake_rejects_taken_nick (σ : State) (c : nat) (major minor : Z)
    (nickb : list Z) :
  room (client_heap σ !!! c) = None →
  in_window constants major minor →
  match_name (toString nickb) = true →
  str_length (toString nickb) ≤ 32 →
  nick_in_use σ c (toString nickb) →
  handshake constants hooks_connect c (major :: minor :: SCRIPT constants :: nickb) σ
  = Ok false
      (turned_away
         (named (noted σ c [Some major; Some minor; Some (SCRIPT constants)]) c
            (toString nickb))
         c (NUL +:+ "This nick is already on the server" +:+ NUL)
         ("Nick taken (" +:+ toString nickb +:+ ")")).
Proof.
  intros Hroom Hwin Hgood Hshort Huse. rewrite handshake_nick by done. cbv zeta.
  rewrite Hgood. cbn [negb]. rewrite (proj2 (Z.ltb_ge _ _) Hshort).
  set (σ1 := noted σ c _). set (n := toString nickb).
  destruct (noted_client σ c [Some major; Some minor; Some (SCRIPT constants)])
    as (Hs & Hid & Hr & Hn).
  destruct (named_client σ1 c n) as (Hs' & Hid' & Hr').
  unfold bind at 1. unfold get_state at 1. cbv beta iota.
  rewrite nick_taken_true.
  - rewrite <- Hs'. apply turned_away_spec. rewrite Hr'. unfold σ1. by rewrite Hr.
  - destruct Huse as (k & d & Hk & Hne & Hd & Hnd). exists k, d.
    split; [done|]. rewrite Hid'. unfold σ1. rewrite Hid. split; [done|]. split; [done|].
    rewrite named_other by done. by rewrite noted_other.
Qed.

(** X18.  A well-formed nick of at most 32 characters that no other entry
    of the client table has is accepted: the client is written the byte 1,
    ['identified'] and ['newClient'] are emitted, and the client joins the
    room ["null"], unless the [connect] hook refuses it, in which case it
    stays connected and in no room. *)
Theorem handshake_accepts (σ : State) (c : nat) (major minor : Z) (nickb : list Z) :
  in_window constants major minor →
  match_name (toString nickb) = true →
  str_length (toString nickb) ≤ 32 →
  nick_free σ c (toString nickb) →
  let σ' := welcomed σ c [Some major; Some minor; Some (SCRIPT constants)]
              (toString nickb) in
  handshake constants hooks_connect c (major :: minor :: SCRIPT constants :: nickb) σ
  = if hooks_connect (client_heap σ' !!! c)
    then (Client_join c "null" ;;; ret true) σ'
    else Ok false σ'.
Proof.
  intros Hwin Hgood Hshort Hfree. rewrite handshake_nick by done. cbv zeta.
  rewrite Hgood. cbn [negb]. rewrite (proj2 (Z.ltb_ge _ _) Hshort).
  set (σ1 := noted σ c _). set (n := toString nickb).
  destruct (noted_client σ c [Some major; Some minor; Some (SCRIPT constants)])
    as (Hs & Hid & Hr & Hn).
  destruct (named_client σ1 c n) as (Hs' & Hid' & Hr').
  unfold bind at 1. unfold get_state at 1. cbv beta iota.
  rewrite nick_taken_false.
  - unfold welcomed. fold σ1. fold n. rewrite Hs'.
    unfold socket_write, bind at 1 2 3 4, do_effect, the_client.
    cbn [client_heap room_heap server_clients server_rooms trace].
    unfold add_trace. cbn [client_heap]. rewrite <- !app_assoc. cbn [app].
    destruct (hooks_connect _); reflexivity.
  - intros k d Hk Hne. rewrite Hid' in Hne. unfold σ1 in Hne. rewrite Hid in Hne.
    destruct (Hfree k d Hk Hne) as [Hd Hnd].
    rewrite named_other by done. unfold σ1. by rewrite noted_other.
Qed.

(** X19.  A record of fewer than three bytes is never accepted: either its
    version lies outside the window and the client is disconnected, or the
    missing script version differs from the one of the server and the
    handshake throws, with nothing written. *)
Theorem handshake_short_record (σ : State) (c : nat) (buf : list Z) :
  (length buf < 3)%nat →
  (∃ σ', handshake constants hooks_connect c buf σ = Ok false σ'
         ∧ server_clients σ' = delete (cid (client_heap σ !!! c)) (server_clients σ))
  ∨ handshake constants hooks_connect c buf σ
    = Throw (TypeError "Cannot read properties of undefined (reading 'SCRIPT')")
        (noted σ c [buf !! 0%nat; buf !! 1%nat; None]).
Proof.
  intros Hlen. rewrite handshake_start. cbv zeta.
  assert (Hs : buf !! 2%nat = None) by (apply lookup_ge_None; lia).
  rewrite Hs. cbn [js_eq negb].
  set (σ1 := noted σ c _).
  destruct (noted_client σ c [buf !! 0%nat; buf !! 1%nat; None]) as (_ & Hid & _ & _).
  fold σ1 in Hid.
  assert (Hout : ∀ frame reason, ∃ σ',
    (socket_write (socket (client_heap σ1 !!! c)) (bytes_of_string frame) ;;;
     Client_disconnect c (Some reason) ;;; ret false) σ1 = Ok false σ'
    ∧ server_clients σ' = delete (cid (client_heap σ !!! c)) (server_clients σ)).
  { intros frame reason. unfold bind at 1. unfold socket_write, do_effect at 1.
    cbv beta iota. unfold bind at 1.
    match goal with |- context [Client_disconnect c ?x ?s] =>
      destruct (Client_disconnect_first s c x) as (σ' & -> & _ & _ & _ & Ht) end.
    exists σ'. split; [done|]. rewrite Ht. cbn [client_heap server_clients].
    by rewrite Hid. }
  destruct (_ || _); [left; apply Hout|].
  destruct (_ || _); [left; apply Hout|].
  right. reflexivity.
Qed.

End HandshakeFacts.

(** ** The cases of the loop *)

Lemma byte_ascii_byte z : is_byte z → byte_of_ascii (ascii_of_byte z) = z.
Proof.
  intros [Hlo Hhi]. unfold byte_of_ascii, ascii_of_byte.
  rewrite N_ascii_embedding by lia. lia.
Qed.

Lemma bytes_toString l : Forall is_byte l → bytes_of_string (toString l) = l.
Proof.
  induction 1 as [|z l Hz Hl IH]; [done|].
  cbn [toString bytes_of_string]. by rewrite byte_ascii_byte, IH.
Qed.

Lemma to_uint8_byte o : is_byte (to_uint8 o).
Proof.
  unfold is_byte. destruct o as [z|]; cbn [to_uint8]; [|lia].
  apply Z.mod_pos_bound. lia.
Qed.

Lemma readBytes_3 ended a b c rest :
  readBytes ended 3 (a :: b :: c :: rest) = Got [a; b; c] rest.
Proof. apply (readBytes_app ended [a; b; c]). done. Qed.

Lemma readBytes_4 ended a b c d rest :
  readBytes ended 4 (a :: b :: c :: d :: rest) = Got [a; b; c; d] rest.
Proof. apply (readBytes_app ended [a; b; c; d]). done. Qed.

Section LoopFacts.

Variable constants : Constants.
Variable hooks_join : Client → string → bool.
Variable hooks_message : Client → string → bool.

Lemma iteration_chat c cmd message rest :
  cmd = 19 ∨ cmd = 20 →
  Forall (λ x, x ≠ 0) message →
  iteration constants hooks_join hooks_message c (cmd :: message ++ 0 :: rest)
  = Got (chat hooks_message c cmd
           (λ m, if decide (cmd = 19) then m else "* " +:+ m) (toString message)) rest.
Proof.
  intros Hcmd Hm. unfold iteration, iteration_on, rbind. rewrite readBytes_1.
  change ([cmd] !!! 0%nat) with cmd.
  destruct Hcmd as [-> | ->]; unfold dispatch, rbind; cbv beta iota;
    by rewrite readUntilNull_app.
Qed.

(** X20.  A chat message (19) or an emote (20) of printable characters and
    at most 200 of them, which the [message] hook lets pass, from a client
    in a room: the server emits ['chat'] (the emote with ["* "] before the
    text) and every other member of the room is written the opcode, the
    id of the sender, the bytes of the message as they came and a zero
    byte. *)
Theorem chat_is_relayed (σ : State) (c r : nat) (cmd : Z) (message rest : list Z) :
  cmd = 19 ∨ cmd = 20 →
  Forall is_byte message →
  Forall (λ x, x ≠ 0) message →
  match_printable (toString message) = true →
  str_length (toString message) ≤ 200 →
  hooks_message (client_heap σ !!! c) (toString message) = true →
  room (client_heap σ !!! c) = Some r →
  ∃ act,
    iteration constants hooks_join hooks_message c (cmd :: message ++ 0 :: rest)
    = Got act rest
    ∧ act σ
      = Ok () (add_trace σ
          (ServerEmit (SChat c (if decide (cmd = 19) then toString message
                                else "* " +:+ toString message))
           :: send_writes σ (clients (room_heap σ !!! r))
                ([cmd; to_uint8 (cid (client_heap σ !!! c))] ++ message ++ [0])
                (Some c))).
Proof.
  intros Hcmd Hbytes Hm Hp Hl Hhook Hroom.
  eexists. split; [by apply iteration_chat|].
  unfold chat. rewrite Hp. cbn [negb]. rewrite (proj2 (Z.ltb_ge _ _) Hl).
  unfold bind at 1. unfold the_client at 1. cbv beta iota. rewrite Hhook. cbn [negb].
  unfold bind at 1. unfold do_effect at 1. cbv beta iota.
  unfold bind at 1. unfold the_client at 1. cbv beta iota.
  unfold room_send_unchecked. unfold bind at 1. unfold the_client at 1. cbv beta iota.
  cbn [client_heap]. rewrite Hroom. rewrite Room_send_spec.
  rewrite bytes_toString by done.
  rewrite Buffer_from_bytes.
  2:{ apply Forall_cons_2; [destruct Hcmd as [-> | ->]; unfold is_byte; lia|].
      apply Forall_cons_2; [apply to_uint8_byte|].
      apply Forall_app_2; [done|]. apply Forall_cons_2; [unfold is_byte; lia|].
      by apply Forall_nil. }
  unfold add_trace. cbn [client_heap room_heap server_clients server_rooms trace].
  f_equal. f_equal. by rewrite <- app_assoc.
Qed.

(** X21.  A chat message or an emote that is not relayed: one with a
    character outside the printable range is answered by the server
    message [Invalid characters in message], a printable one of more than
    200 characters by [Message too long], and one the [message] hook
    refuses by nothing at all.  In the three cases nothing reaches the
    room and no ['chat'] is emitted. *)
Theorem chat_is_refused (σ : State) (c : nat) (cmd : Z) (message rest : list Z) :
  cmd = 19 ∨ cmd = 20 →
  Forall (λ x, x ≠ 0) message →
  ∃ act,
    iteration constants hooks_join hooks_message c (cmd :: message ++ 0 :: rest)
    = Got act rest
    ∧ (match_printable (toString message) = false →
       act σ = Ok () (add_trace σ [SocketWrite (socket (client_heap σ !!! c))
                 (server_message_frame "Invalid characters in message")]))
    ∧ (match_printable (toString message) = true →
       200 < str_length (toString message) →
       act σ = Ok () (add_trace σ [SocketWrite (socket (client_heap σ !!! c))
                 (server_message_frame "Message too long")]))
    ∧ (match_printable (toString message) = true →
       str_length (toString message) ≤ 200 →
       hooks_message (client_heap σ !!! c) (toString message) = false →
       act σ = Ok () σ).
Proof.
  intros Hcmd Hm. eexists. split; [by apply iteration_chat|].
  unfold chat. split; [|split].
  - intros ->. reflexivity.
  - intros -> Hl. cbn [negb]. rewrite (proj2 (Z.ltb_lt _ _) Hl). reflexivity.
  - intros -> Hl Hhook. cbn [negb]. rewrite (proj2 (Z.ltb_ge _ _) Hl).
    unfold bind, the_client. by rewrite Hhook.
Qed.

Lemma iteration_join c r rest :
  Forall (λ x, x ≠ 0) r →
  iteration constants hooks_join hooks_message c (16 :: r ++ 0 :: rest)
  = Got (if negb (match_name (toString r)) || (32 <? str_length (toString r)) then
           Client_serverMessage c "Invalid room name" 127 255 255
         else
           C <- the_client c ;;
           if negb (hooks_join C (toString r)) then ret ()
           else Client_part c ;;; Client_join c (toString r)) rest.
Proof.
  intros Hr. unfold iteration, iteration_on, rbind. rewrite readBytes_1.
  change ([16] !!! 0%nat) with 16. unfold dispatch, rbind. cbv beta iota.
  by rewrite readUntilNull_app.
Qed.

(** X22.  Once a client is in no room (after [disconnect], while its
    socket is not yet closed), the commands that read the room without a
    test throw: a join (the server has emitted ['part'] with [null]), a
    chat message the hook lets pass (the server has emitted ['chat']) and
    a kick with a valid reason.  Nothing is written to any socket. *)
Theorem roomless_commands_throw (σ : State) (c : nat) (cmd : Z) (text other rest : list Z) :
  room (client_heap σ !!! c) = None →
  Forall (λ x, x ≠ 0) text →
  Forall (λ x, x ≠ 0) other →
  (match_name (toString text) = true → str_length (toString text) ≤ 32 →
   hooks_join (client_heap σ !!! c) (toString text) = true →
   ∃ act, iteration constants hooks_join hooks_message c (16 :: text ++ 0 :: rest)
          = Got act rest
          ∧ act σ = Throw (TypeError "Cannot read properties of null (reading 'part')")
                      (add_trace σ [ClientEmit c CPart; ServerEmit (SPart c None)]))
  ∧ (cmd = 19 ∨ cmd = 20 →
     match_printable (toString text) = true → str_length (toString text) ≤ 200 →
     hooks_message (client_heap σ !!! c) (toString text) = true →
     ∃ act, iteration constants hooks_join hooks_message c (cmd :: text ++ 0 :: rest)
            = Got act rest
            ∧ act σ = Throw (TypeError "Cannot read properties of null (reading 'send')")
                        (add_trace σ [ServerEmit (SChat c
                           (if decide (cmd = 19) then toString text
                            else "* " +:+ toString text))]))
  ∧ (match_printable (toString other) = true → str_length (toString other) ≤ 200 →
     ∃ act, iteration constants hooks_join hooks_message c
              (21 :: text ++ 0 :: other ++ 0 :: rest) = Got act rest
            ∧ act σ = Throw (TypeError "Cannot read properties of null (reading 'name')") σ).
Proof.
  intros Hroom Htext Hother. split; [|split].
  - intros Hn Hl Hhook. eexists. split; [by apply iteration_join|].
    rewrite Hn. cbn [negb orb]. rewrite (proj2 (Z.ltb_ge _ _) Hl).
    unfold bind at 1. unfold the_client at 1. cbv beta iota. rewrite Hhook. cbn [negb].
    unfold Client_part, Server_part, bind, do_effect, the_client, throw.
    cbn [client_heap]. rewrite Hroom. unfold add_trace.
    cbn [client_heap room_heap server_clients server_rooms trace].
    rewrite <- ?app_assoc. reflexivity.
  - intros Hcmd Hp Hl Hhook. eexists. split; [by apply iteration_chat|].
    unfold chat. rewrite Hp. cbn [negb]. rewrite (proj2 (Z.ltb_ge _ _) Hl).
    unfold bind at 1. unfold the_client at 1. cbv beta iota. rewrite Hhook. cbn [negb].
    unfold room_send_unchecked, bind, do_effect, the_client, throw.
    cbn [client_heap]. by rewrite Hroom.
  - intros Hp Hl. eexists. split; [by apply iteration_kick|].
    unfold kick_command. rewrite Hp. cbn [negb]. rewrite (proj2 (Z.ltb_ge _ _) Hl).
    unfold bind, the_client, throw. by rewrite Hroom.
Qed.

(** X23.  An invalid room name (empty, with a character outside
    [[A-Za-z0-9_-]], or of more than 32 characters) is answered by the
    server message [Invalid room name]; a valid one the [join] hook
    refuses by nothing.  The client stays where it is. *)
Theorem join_is_refused (σ : State) (c : nat) (r rest : list Z) :
  Forall (λ x, x ≠ 0) r →
  ∃ act,
    iteration constants hooks_join hooks_message c (16 :: r ++ 0 :: rest) = Got act rest
    ∧ (match_name (toString r) = false ∨ 32 < str_length (toString r) →
       act σ = Ok () (add_trace σ [SocketWrite (socket (client_heap σ !!! c))
                 (server_message_frame "Invalid room name")]))
    ∧ (match_name (toString r) = true → str_length (toString r) ≤ 32 →
       hooks_join (client_heap σ !!! c) (toString r) = false →
       act σ = Ok () σ).
Proof.
  intros Hr. eexists. split; [by apply iteration_join|]. split.
  - intros Hbad.
    replace (negb (match_name (toString r)) || (32 <? str_length (toString r))) with true.
    + reflexivity.
    + symmetry. apply orb_true_iff. destruct Hbad as [-> | Hl]; [by left|right].
      by apply Z.ltb_lt.
  - intros -> Hl Hhook. cbn [negb orb]. rewrite (proj2 (Z.ltb_ge _ _) Hl).
    unfold bind, the_client. by rewrite Hhook.
Qed.

(** X24.  A join command with a valid name that is not in the room table,
    from a client in a room: the client parts its room (which is deleted
    when it was alone in it) and then creates and joins the new room, of
    which it is the operator. *)
Theorem join_moves_to_new_room (σ : State) (c r : nat) (C : Client) (R : Room)
    (n rest : list Z) :
  Forall (λ x, x ≠ 0) n →
  match_name (toString n) = true →
  str_length (toString n) ≤ 32 →
  hooks_join C (toString n) = true →
  client_heap σ !! c = Some C →
  room C = Some r →
  is_Some (nick C) →
  room_heap σ !! r = Some R →
  server_rooms σ !! toString n = None →
  ∃ act,
    iteration constants hooks_join hooks_message c (16 :: n ++ 0 :: rest) = Got act rest
    ∧ act σ = Ok () (created_room (parted σ c r R) c (toString n)).
Proof.
  intros Hn Hname Hl Hhook HC Hroom Hnick HR Hfree.
  pose proof (lookup_total_correct _ _ _ HC) as HC'.
  eexists. split; [by apply iteration_join|].
  rewrite Hname. cbn [negb orb]. rewrite (proj2 (Z.ltb_ge _ _) Hl).
  unfold bind at 1. unfold the_client at 1. cbv beta iota. rewrite HC', Hhook. cbn [negb].
  unfold bind at 1. rewrite (Client_part_spec σ c r R) by (by rewrite ?HC').
  apply Client_join_new.
  - unfold parted. cbn [server_rooms]. case_bool_decide; [|done].
    rewrite lookup_delete_None. by right.
  - unfold parted. cbn [client_heap].
    rewrite (alter_total_field nick) by done. by rewrite HC'.
Qed.

Lemma Client_kick_spec σ c m r R reason :
  room (client_heap σ !!! m) = Some r →
  room_heap σ !! r = Some R →
  Client_kick m c (if decide (reason = EmptyString) then None else Some reason) σ
  = Ok () (parted (kicked σ c m reason) m r R).
Proof.
  intros Hroom HR. unfold Client_kick.
  replace (default "No reason given"
             (if decide (reason = EmptyString) then None else Some reason))
    with (kick_reason reason) by (unfold kick_reason; by case_decide).
  cbv zeta.
  unfold bind at 1. unfold the_client at 1. cbv beta iota.
  unfold bind at 1. rewrite Client_serverMessage_spec.
  unfold bind at 1. unfold do_effect at 1. cbv beta iota.
  unfold bind at 1. unfold the_client at 1. cbv beta iota.
  cbn [add_trace client_heap room_heap server_clients server_rooms trace].
  unfold Client_disconnect, Server_disconnect. cbn [default].
  unfold bind at 1. unfold do_effect at 1. cbv beta iota.
  unfold bind at 1. unfold bind at 1. unfold do_effect at 1. cbv beta iota.
  unfold bind at 1. unfold the_client at 1. cbv beta iota.
  unfold set_server_clients at 1. cbv beta iota.
  unfold bind at 1. unfold the_client at 1. cbv beta iota.
  unfold bind at 1. unfold socket_end, do_effect at 1. cbv beta iota.
  unfold bind at 1. unfold the_client at 1. cbv beta iota.
  cbn [client_heap room_heap server_clients server_rooms trace].
  rewrite Hroom.
  erewrite Client_part_spec; [|cbn [client_heap]; exact Hroom|cbn [room_heap]; exact HR].
  f_equal. unfold parted, kicked.
  cbn [client_heap room_heap server_clients server_rooms trace].
  f_equal. rewrite <- !app_assoc. reflexivity.
Qed.

(** X25.  A kick with a valid reason from the operator of a room other
    than the lobby.  The first member with the nick is written the red
    server message that names the operator and the reason ([No reason
    given] for an empty one), gets ['kicked'], is disconnected with that
    reason and parts the room; the id it had is free again.  When no
    member has the nick nothing happens at all. *)
Theorem kick_by_operator (σ : State) (c r : nat) (R : Room) (nick_ reason rest : list Z) :
  Forall (λ x, x ≠ 0) nick_ →
  Forall (λ x, x ≠ 0) reason →
  match_printable (toString reason) = true →
  str_length (toString reason) ≤ 200 →
  room (client_heap σ !!! c) = Some r →
  room_heap σ !! r = Some R →
  name R ≠ "null" →
  op R = num_val (cid (client_heap σ !!! c)) →
  Forall (λ m, room (client_heap σ !!! m) = Some r) (clients R) →
  ∃ act,
    iteration constants hooks_join hooks_message c
      (21 :: nick_ ++ 0 :: reason ++ 0 :: rest) = Got act rest
    ∧ match List.find (λ m, bool_decide (nick (client_heap σ !!! m) = Some (toString nick_)))
              (clients R) with
      | Some m => act σ = Ok () (parted (kicked σ c m (toString reason)) m r R)
      | None => act σ = Ok () σ
      end.
Proof.
  intros Hn Hr Hp Hl Hroom HR Hname Hop Hmem.
  pose proof (lookup_total_correct _ _ _ HR) as HR'.
  eexists. split; [by apply iteration_kick|].
  assert (Hrun : kick_command c (toString nick_) (toString reason) σ
                 = kick_first c (clients R) (toString nick_) (toString reason) σ).
  { unfold kick_command. rewrite Hp. cbn [negb]. rewrite (proj2 (Z.ltb_ge _ _) Hl).
    unfold bind at 1. unfold the_client at 1. cbv beta iota. rewrite Hroom.
    unfold bind at 1. unfold the_room at 1. cbv beta iota. rewrite HR'.
    rewrite bool_decide_eq_false_2 by done.
    unfold strict_eq. by rewrite bool_decide_eq_true_2. }
  rewrite Hrun. unfold kick_first, bind, get_state.
  destruct (List.find _ (clients R)) as [m|] eqn:Hfind; [|done].
  apply List.find_some in Hfind as [Hin _].
  apply Client_kick_spec; [|done].
  rewrite Forall_forall in Hmem. apply Hmem. by apply list_elem_of_In.
Qed.

(** X26.  A sync-properties reply (130) names its target by id in the
    client table of the server, not in the room of the sender: the target
    is written the three bytes [[command, sender id, value]] wherever it
    is, when the command is on the list of the constants; a reply to an
    id that is not in the table, or with another command, is dropped. *)
Theorem sync_properties_reply_reaches_table (σ : State) (c : nat) (t command v : Z)
    (rest : list Z) :
  is_byte command → is_byte v →
  ∃ act,
    iteration constants hooks_join hooks_message c (130 :: t :: command :: v :: rest)
    = Got act rest
    ∧ act σ
      = Ok () (match server_clients σ !! Some t with
               | Some d =>
                   if bool_decide (command ∈ VALID_130 constants)
                   then add_trace σ
                          [SocketWrite (socket (client_heap σ !!! d))
                             [command; to_uint8 (cid (client_heap σ !!! c)); v]]
                   else σ
               | None => σ
               end).
Proof.
  intros Hcommand Hv. eexists. split.
  { unfold iteration, iteration_on, rbind. rewrite readBytes_1.
    change ([130] !!! 0%nat) with 130. unfold dispatch, rbind. cbv beta iota.
    rewrite readBytes_3. reflexivity. }
  unfold sync_properties_reply. unfold bind at 1. unfold get_state at 1. cbv beta iota.
  change ([t; command; v] !!! 0%nat) with t.
  change ([t; command; v] !! 1%nat) with (Some command).
  change ([t; command; v] !! 2%nat) with (Some v).
  destruct (server_clients σ !! Some t) as [d|]; [|done].
  cbv beta iota. case_bool_decide; cbn [negb]; [|done].
  unfold bind, the_client. rewrite Buffer_from_bytes.
  - cbn [to_uint8]. rewrite (Z.mod_small v) by exact Hv. done.
  - apply Forall_cons_2; [done|]. apply Forall_cons_2; [apply to_uint8_byte|].
    apply Forall_cons_2; [apply to_uint8_byte|]. by apply Forall_nil.
Qed.

(** X27.  A sync reply (128) with a stamp of [size] bytes, [size]
    positive: the client the table has under the id of the header is
    written [129], the three size bytes and the stamp; for an id that is
    not in the table the reply is read and dropped.  With the three size
    bytes zero the turn never ends, whatever follows. *)
Theorem sync_reply_is_forwarded (σ : State) (c : nat) (t s0 s1 s2 : Z)
    (stamp rest : list Z) :
  is_byte s0 → is_byte s1 → is_byte s2 → Forall is_byte stamp →
  (stamp ≠ [] → Z.of_nat (length stamp) = be24 s0 s1 s2 →
   ∃ act,
     iteration constants hooks_join hooks_message c
       (128 :: t :: s0 :: s1 :: s2 :: stamp ++ rest) = Got act rest
     ∧ act σ
       = Ok () (match server_clients σ !! Some t with
                | Some d => add_trace σ
                              [SocketWrite (socket (client_heap σ !!! d))
                                 ([129; s0; s1; s2] ++ stamp)]
                | None => σ
                end))
  ∧ iteration constants hooks_join hooks_message c (128 :: t :: 0 :: 0 :: 0 :: rest) = Wait.
Proof.
  intros H0 H1 H2 Hstamp. split.
  - intros Hne Hlen. eexists. split.
    { unfold iteration, iteration_on, rbind. rewrite readBytes_1.
      change ([128] !!! 0%nat) with 128. unfold dispatch, rbind. cbv beta iota.
      rewrite readBytes_4.
      change ([t; s0; s1; s2] !!! 1%nat) with s0.
      change ([t; s0; s1; s2] !!! 2%nat) with s1.
      change ([t; s0; s1; s2] !!! 3%nat) with s2.
      cbv zeta. rewrite <- Hlen. rewrite readBytes_app by done. reflexivity. }
    unfold sync_reply. unfold bind at 1. unfold get_state at 1. cbv beta iota.
    change ([t; s0; s1; s2] !!! 0%nat) with t.
    destruct (server_clients σ !! Some t) as [d|]; [|done].
    unfold bind, the_client. cbn [drop]. rewrite Buffer_from_bytes; [done|].
    apply Forall_cons_2; [unfold is_byte; lia|].
    apply Forall_cons_2; [done|]. apply Forall_cons_2; [done|].
    by apply Forall_cons_2.
  - unfold iteration, iteration_on, rbind. rewrite readBytes_1.
    change ([128] !!! 0%nat) with 128. unfold dispatch, rbind. cbv beta iota.
    rewrite readBytes_4. reflexivity.
Qed.

Lemma dispatch_unknown ended c cmd :
  cmd ∉ known_opcodes →
  dispatch constants hooks_join hooks_message ended c cmd = rret (ret ()).
Proof.
  intros Hcmd. unfold dispatch.
  destruct cmd as [|p|p]; [done| |done].
  do 9 (try (destruct p as [p|p|];
             try solve [ reflexivity
                       | exfalso; apply Hcmd; apply (bool_decide_unpack _); by vm_compute ])).
Qed.

(** X28.  An opcode the switch has no case for is skipped: the turn takes
    that one byte and does nothing, and the loop goes on with the next
    byte as an opcode.  The client is not disconnected. *)
Theorem unknown_opcode_is_skipped (σ : State) (c : nat) (cmd : Z) (rest : list Z) :
  cmd ∉ known_opcodes →
  ∃ act,
    iteration constants hooks_join hooks_message c (cmd :: rest) = Got act rest
    ∧ act σ = Ok () σ.
Proof.
  intros Hcmd. exists (ret ()). split; [|done].
  unfold iteration, iteration_on, rbind. rewrite readBytes_1.
  change ([cmd] !!! 0%nat) with cmd. by rewrite dispatch_unknown.
Qed.

Lemma iteration_relay c cmd n data rest :
  (cmd, n) ∈ relay_arity → Z.of_nat (length data) = n →
  iteration constants hooks_join hooks_message c (cmd :: data ++ rest)
  = Got (relay c cmd data) rest.
Proof.
  intros Hin Hlen. unfold iteration, iteration_on, rbind. rewrite readBytes_1.
  change ([cmd] !!! 0%nat) with cmd.
  unfold relay_arity in Hin.
  repeat (apply elem_of_cons in Hin as [[= -> ->]|Hin];
          [unfold dispatch, rbind; cbv beta iota;
           first [ by destruct data
                 | rewrite <- Hlen, readBytes_app by (by destruct data); reflexivity ]|]).
  by apply elem_of_nil in Hin.
Qed.

(** X29.  The opcodes whose case only forwards: with the bytes of the
    case read, every other member of the sender's room is written the
    opcode, the id of the sender and those bytes as they came, and that
    is all: no store changes.  From a sender in no room nothing is
    written. *)
Theorem relay_forwards_verbatim (σ : State) (c : nat) (cmd n : Z)
    (data rest : list Z) :
  (cmd, n) ∈ relay_arity →
  Z.of_nat (length data) = n →
  Forall is_byte data →
  ∃ act,
    iteration constants hooks_join hooks_message c (cmd :: data ++ rest) = Got act rest
    ∧ act σ
      = Ok () (add_trace σ
          (match room (client_heap σ !!! c) with
           | Some r => send_writes σ (clients (room_heap σ !!! r))
                         ([cmd; to_uint8 (cid (client_heap σ !!! c))] ++ data) (Some c)
           | None => []
           end)).
Proof.
  intros Hin Hlen Hdata. eexists. split; [by eapply iteration_relay|].
  rewrite relay_spec. unfold room_writes. rewrite Buffer_from_bytes; [done|].
  apply Forall_cons_2.
  - unfold relay_arity in Hin.
    repeat (apply elem_of_cons in Hin as [[= -> ->]|Hin]; [unfold is_byte; lia|]).
    by apply elem_of_nil in Hin.
  - apply Forall_cons_2; [apply to_uint8_byte|done].
Qed.

End LoopFacts.

(** ** Nicks are unique in the client table *)

Lemma others_same c {A} (m : M A) :
  (∀ σ, client_heap (state_of (m σ)) = client_heap σ
        ∧ server_clients (state_of (m σ)) = server_clients σ) →
  keeps (others_unique c) m.
Proof.
  intros Hm σ [Hk Hu]. split; [by apply keyed_same|].
  destruct (Hm σ) as [-> ->]. exact Hu.
Qed.

Lemma others_delete c k : keeps (others_unique c) (set_server_clients (delete k)).
Proof.
  intros σ [Hk Hu]. split; [by apply keyed_delete|].
  cbn [set_server_clients state_of server_clients client_heap].
  intros k1 k2 c1 c2 n [_ H1]%lookup_delete_Some [_ H2]%lookup_delete_Some.
  by apply Hu.
Qed.

Lemma others_update c d f :
  (∀ C, cid (f C) = cid C) →
  (d = c ∨ ∀ C, nick (f C) = nick C) →
  keeps (others_unique c) (update_client d f).
Proof.
  intros Hid Hnick σ [Hk Hu]. split; [by apply keyed_update|].
  cbn [update_client state_of server_clients client_heap].
  intros k1 k2 c1 c2 n H1 H2 Hc1 Hc2.
  assert (Hn : ∀ x, x ≠ c → nick (alter f d (client_heap σ) !!! x) = nick (client_heap σ !!! x)).
  { intros x Hx. destruct (decide (x = d)) as [->|Hxd].
    - destruct Hnick as [->|Hnick]; [done|]. by apply (alter_total_field nick).
    - by rewrite lookup_total_alter_ne. }
  rewrite !Hn by done. by apply Hu.
Qed.

Lemma registry_same {A} (m : M A) :
  (∀ σ, client_heap (state_of (m σ)) = client_heap σ
        ∧ server_clients (state_of (m σ)) = server_clients σ) →
  keeps registry_ok m.
Proof.
  intros Hm σ [Hk Hu]. split; [by apply keyed_same|].
  unfold nicks_unique. destruct (Hm σ) as [-> ->]. exact Hu.
Qed.

Lemma registry_delete k : keeps registry_ok (set_server_clients (delete k)).
Proof.
  intros σ [Hk Hu]. split; [by apply keyed_delete|].
  unfold nicks_unique. cbn [set_server_clients state_of server_clients client_heap].
  intros k1 k2 c1 c2 n [_ H1]%lookup_delete_Some [_ H2]%lookup_delete_Some.
  by apply Hu.
Qed.

Lemma registry_update d f :
  (∀ C, cid (f C) = cid C) → (∀ C, nick (f C) = nick C) →
  keeps registry_ok (update_client d f).
Proof.
  intros Hid Hnick σ [Hk Hu]. split; [by apply keyed_update|].
  unfold nicks_unique. cbn [update_client state_of server_clients client_heap].
  intros k1 k2 c1 c2 n H1 H2.
  assert (Hn : ∀ x, nick (alter f d (client_heap σ) !!! x) = nick (client_heap σ !!! x)).
  { intros x. destruct (decide (x = d)) as [->|Hxd].
    - by apply (alter_total_field nick).
    - by rewrite lookup_total_alter_ne. }
  rewrite !Hn. by apply Hu.
Qed.

Lemma registry_connection s : keeps registry_ok (Server_connectionHandler s).
Proof.
  intros σ [Hk Hu]. split; [by apply keyed_connection|].
  revert Hu. unfold nicks_unique.
  assert (Hrun : Server_connectionHandler s σ
    = if bool_decide (255 ≤ size (server_clients σ))%nat
      then Ok () (add_trace σ
             [SocketWrite s (bytes_of_string
                (NUL +:+ "Server is full (" +:+ pretty (size (server_clients σ))
                     +:+ "/255)" +:+ NUL));
              SocketEnd s])
      else let c' := fresh (dom (client_heap σ)) in
           let C' := new_Client s (find_id (server_clients σ)) in
           Ok () (mkState (<[c' := C']> (client_heap σ)) (room_heap σ)
                    (<[find_id (server_clients σ) := c']> (server_clients σ))
                    (server_rooms σ) (trace σ ++ [SetTimeout s 90000]))).
  { unfold Server_connectionHandler. unfold bind at 1. unfold get_state at 1.
    cbv beta iota. case_bool_decide.
    - unfold socket_write, socket_end, bind, do_effect, add_trace.
      cbn [client_heap room_heap server_clients server_rooms trace].
      by rewrite <- app_assoc.
    - unfold bind, Client_new, the_client, set_server_clients.
      cbn [client_heap room_heap server_clients server_rooms trace].
      by rewrite lookup_total_insert_eq. }
  rewrite Hrun. clear Hrun.
  case_bool_decide as Hfull; [intros Hu; exact Hu|].
  cbv zeta. cbn [state_of server_clients client_heap room_heap server_rooms trace].
  set (c' := fresh (dom (client_heap σ))). set (k' := find_id (server_clients σ)).
  assert (Hold : ∀ k x, server_clients σ !! k = Some x → x ≠ c').
  { intros k x Hx ->. destruct (Hk k c' Hx) as (i & C & _ & _ & HC & _).
    apply (is_fresh (dom (client_heap σ))), elem_of_dom. by eexists. }
  intros Hu k1 k2 c1 c2 n H1 H2 Hn1 Hn2.
  apply lookup_insert_Some in H1 as [[<- <-]|[Hne1 H1]].
  { by rewrite lookup_total_insert_eq in Hn1. }
  apply lookup_insert_Some in H2 as [[<- <-]|[Hne2 H2]].
  { by rewrite lookup_total_insert_eq in Hn2. }
  rewrite lookup_total_insert_ne in Hn1 by (intros Heq; by apply (Hold _ _ H1)).
  rewrite lookup_total_insert_ne in Hn2 by (intros Heq; by apply (Hold _ _ H2)).
  by eapply Hu.
Qed.

Ltac others_side :=
  intros;
  first [ by apply others_same
        | apply others_delete
        | apply others_update; [done|by right]
        | apply keeps_Room_join; intros; by apply others_same
        | apply keeps_Room_part; intros; by apply others_same ].

Ltac registry_side :=
  intros;
  first [ by apply registry_same
        | apply registry_delete
        | by apply registry_update
        | apply keeps_Room_join; intros; by apply registry_same
        | apply keeps_Room_part; intros; by apply registry_same ].

(** A client that has been disconnected is no entry of the table. *)
Lemma disconnect_restores c reason σ :
  others_unique c σ → registry_ok (state_of (Client_disconnect c reason σ)).
Proof.
  intros HJ.
  assert (HJ' : others_unique c (state_of (Client_disconnect c reason σ))).
  { revert σ HJ. apply keeps_Client_disconnect; others_side. }
  destruct (Client_disconnect_first σ c reason) as (σ' & Hrun & _ & _ & _ & Htable).
  rewrite Hrun in *. cbn [state_of] in *.
  destruct HJ as [Hk _]. destruct HJ' as [Hk' Hu'].
  assert (Hout : ∀ k x, server_clients σ' !! k = Some x → x ≠ c).
  { intros k x Hx ->. rewrite Htable in Hx.
    apply lookup_delete_Some in Hx as [Hne Hx].
    destruct (Hk k c Hx) as (i & C & -> & _ & HC & Hid).
    apply Hne. by rewrite (lookup_total_correct _ _ _ HC). }
  split; [done|]. intros k1 k2 c1 c2 n H1 H2. apply Hu'; eauto.
Qed.

Lemma named_others c n σ : registry_ok σ → others_unique c (named σ c n).
Proof.
  intros [Hk Hu]. split.
  - by apply (keyed_update c (set_nick (Some n))).
  - unfold named. cbn [with_clients server_clients client_heap].
    intros k1 k2 c1 c2 n' H1 H2 Hc1 Hc2.
    rewrite !lookup_total_alter_ne by done. by apply Hu.
Qed.

Lemma named_free c n σ :
  others_unique c (named σ c n) →
  nick_taken (named σ c n) c n = false →
  registry_ok (named σ c n).
Proof.
  set (σ2 := named σ c n). intros [Hk Hu] Hfree. split; [done|].
  assert (Hown : ∀ k, server_clients σ2 !! k = Some c →
            k = cid (client_heap σ2 !!! c) ∧ nick (client_heap σ2 !!! c) = Some n).
  { intros k Hc. destruct (Hk k c Hc) as (i & C & -> & _ & HC & Hid).
    rewrite (lookup_total_correct _ _ _ HC). split; [done|].
    revert HC. unfold σ2, named. cbn [with_clients client_heap].
    rewrite lookup_alter_eq. destruct (client_heap σ !! c); [|done].
    by intros [= <-]. }
  assert (Hother : ∀ k x, server_clients σ2 !! k = Some x →
            nick (client_heap σ2 !!! x) = Some n → k = cid (client_heap σ2 !!! c)).
  { intros k x Hx Hn. destruct (decide (k = cid (client_heap σ2 !!! c))) as [|Hne]; [done|].
    rewrite nick_taken_true in Hfree; [done|].
    exists k, x. split; [done|]. split; [done|]. split; [|done].
    intros ->. by destruct (Hown k Hx). }
  intros k1 k2 c1 c2 n' H1 H2 Hn1 Hn2.
  destruct (decide (c1 = c)) as [->|Hc1].
  - destruct (Hown k1 H1) as [-> Hn]. rewrite Hn in Hn1. injection Hn1 as <-.
    symmetry. by eapply Hother.
  - destruct (decide (c2 = c)) as [->|Hc2].
    + destruct (Hown k2 H2) as [-> Hn]. rewrite Hn in Hn2. injection Hn2 as <-.
      by eapply Hother.
    + by eapply Hu.
Qed.

Section Registry.

Variable constants : Constants.
Variable hooks_connect : Client → bool.
Variable hooks_join : Client → string → bool.
Variable hooks_message : Client → string → bool.

Lemma registry_turned_away c s d reason σ :
  others_unique c σ →
  registry_ok (state_of ((socket_write s d ;;; Client_disconnect c reason ;;; ret false) σ)).
Proof.
  intros HJ. unfold bind at 1. unfold socket_write, do_effect at 1. cbv beta iota.
  unfold bind at 1.
  match goal with |- context [Client_disconnect c reason ?s] =>
    assert (HJ' : others_unique c s) by (revert HJ; by apply (others_same c (do_effect _)));
    pose proof (disconnect_restores c reason s HJ') as Hres;
    destruct (Client_disconnect c reason s) end; exact Hres.
Qed.

Lemma registry_handshake c buf : keeps registry_ok (handshake constants hooks_connect c buf).
Proof.
  intros σ Hσ. rewrite handshake_start. cbv zeta.
  set (σ1 := noted σ c _).
  assert (H1 : registry_ok σ1).
  { unfold σ1.
    change (noted σ c ?v)
      with (state_of (update_client c (set_version v)
                        (state_of (update_client c (set_initial false) σ)))).
    apply (registry_update c (set_version _)); [done|done|].
    by apply (registry_update c (set_initial false)). }
  clearbody σ1.
  set (sk := socket (client_heap σ1 !!! c)). clearbody sk.
  destruct (_ || _).
  { revert σ1 H1. apply keeps_bind; [apply keeps_socket_write; registry_side|intros _].
    apply keeps_bind; [apply keeps_Client_disconnect; registry_side|intros _].
    apply keeps_ret. }
  destruct (_ || _).
  { revert σ1 H1. apply keeps_bind; [apply keeps_socket_write; registry_side|intros _].
    apply keeps_bind; [apply keeps_Client_disconnect; registry_side|intros _].
    apply keeps_ret. }
  destruct (negb _); [done|].
  set (n := toString (drop 3 buf)).
  unfold bind at 1. unfold update_client at 1. cbv beta iota.
  change (mkState (alter (set_nick (Some n)) c (client_heap σ1)) (room_heap σ1)
            (server_clients σ1) (server_rooms σ1) (trace σ1)) with (named σ1 c n).
  pose proof (named_others c n σ1 H1) as HJ.
  destruct (negb (match_name n)); [by apply registry_turned_away|].
  destruct (32 <? str_length n).
  { unfold bind at 1. unfold socket_write, do_effect at 1. cbv beta iota.
    unfold bind at 1. unfold update_client at 1. cbv beta iota.
    unfold bind at 1.
    match goal with |- context [Client_disconnect c ?r ?s] =>
      assert (HJ' : others_unique c s);
      [|pose proof (disconnect_restores c r s HJ') as Hres;
        destruct (Client_disconnect c r s); exact Hres] end.
    apply (others_update c c (set_nick _)); [done|by left|].
    revert HJ. by apply (others_same c (do_effect _)). }
  unfold bind at 1. unfold get_state at 1. cbv beta iota.
  destruct (nick_taken (named σ1 c n) c n) eqn:Htaken; [by apply registry_turned_away|].
  pose proof (named_free c n σ1 HJ Htaken) as H2.
  revert H2. generalize (named σ1 c n).
  change (keeps registry_ok
    (socket_write sk [1] ;;;
     do_effect (ClientEmit c CIdentified) ;;;
     do_effect (ServerEmit (SNewClient c)) ;;;
     C' <- the_client c ;;
     if negb (hooks_connect C') then ret false else Client_join c "null" ;;; ret true)).
  apply keeps_bind; [apply keeps_socket_write; registry_side|intros _].
  apply keeps_bind; [registry_side|intros _].
  apply keeps_bind; [registry_side|intros _].
  apply keeps_bind; [apply keeps_the_client|intros C'].
  destruct (negb _); [apply keeps_ret|].
  apply keeps_bind; [apply keeps_Client_join; registry_side|intros _].
  apply keeps_ret.
Qed.

Lemma registry_reachable σ :
  reachable constants hooks_connect hooks_join hooks_message σ → registry_ok σ.
Proof.
  apply (keeps_reachable registry_ok); try registry_side.
  - split; intros ?; intros; by rewrite ?lookup_empty in *.
  - apply registry_connection.
  - apply registry_handshake.
Qed.

(** X30.  In every store the server can reach, no two entries of the
    client table hold clients with the same nick. *)
Theorem nicks_are_unique (σ : State) (k1 k2 : option Z) (c1 c2 : nat) (n : string) :
  reachable constants hooks_connect hooks_join hooks_message σ →
  server_clients σ !! k1 = Some c1 →
  server_clients σ !! k2 = Some c2 →
  nick (client_heap σ !!! c1) = Some n →
  nick (client_heap σ !!! c2) = Some n →
  k1 = k2 ∧ c1 = c2.
Proof.
  intros Hσ H1 H2 Hn1 Hn2. destruct (registry_reachable σ Hσ) as [_ Hu].
  assert (k1 = k2) as -> by (by eapply Hu). split; [done|]. congruence.
Qed.

End Registry.

(** ** More statements on the scenario *)

Lemma second_reachable : ex_reachable σ_second.
Proof.
  assert (H1 : ex_reachable σ_connected).
  { eapply reachable_step; [apply reachable_initial|]. apply step_connection. }
  assert (H2 : ex_reachable σ_alice).
  { eapply reachable_step; [exact H1|].
    apply (step_handshake ex_constants accept accept2 accept2 σ_connected 0%nat
             ([1; 2; 0] ++ bytes_of_string "alice")).
    - vm_compute. eauto.
    - apply bytes_intro. vm_compute. reflexivity. }
  eapply reachable_step; [exact H2|]. apply step_connection.
Qed.

Lemma lobby_reachable : ex_reachable σ_lobby.
Proof.
  eapply reachable_step; [exact second_reachable|].
  apply (step_handshake ex_constants accept accept2 accept2 σ_second 1%nat
           ([1; 2; 0] ++ bytes_of_string "bob")).
  - vm_compute. eauto.
  - apply bytes_intro. vm_compute. reflexivity.
Qed.

Lemma connections_reachable n :
  ex_reachable (Nat.iter n (run (Server_connectionHandler 9%nat)) initial_state).
Proof.
  induction n as [|n IH]; [apply reachable_initial|].
  cbn [Nat.iter]. eapply reachable_step; [exact IH|]. apply step_connection.
Qed.

Lemma table_never_exceeds_cap_witness :
  size (server_clients σ_full) = 255%nat
  ∧ (size (server_clients σ_full) ≤ 255)%nat.
Proof.
  split; [vm_compute; reflexivity|].
  exact (table_never_exceeds_cap ex_constants accept accept2 accept2 σ_full
           (connections_reachable 255)).
Defined.

Lemma table_ids_are_bytes_witness :
  ∃ i C, Some 1 = Some i ∧ 0 ≤ i < 256
         ∧ client_heap σ_lobby !! 1%nat = Some C ∧ cid C = Some i.
Proof.
  apply (table_ids_are_bytes ex_constants accept accept2 accept2 σ_lobby (Some 1) 1%nat).
  - exact lobby_reachable.
  - vm_compute. reflexivity.
Defined.

Lemma cut_reachable : ex_reachable σ_cut.
Proof.
  unfold σ_cut.
  destruct (iteration_on ex_constants accept2 accept2 true 0%nat [34; 5])
    as [act rest|] eqn:Hit; [|exact lobby_reachable].
  eapply reachable_step; [exact lobby_reachable|].
  apply (step_iteration ex_constants accept accept2 accept2 σ_lobby 0%nat true [34; 5]
           act rest); [vm_compute; eauto| |exact Hit].
  apply bytes_intro. vm_compute. reflexivity.
Qed.

Lemma mirrors_stay_well_formed_witness :
  brushSize (client_heap σ_cut !!! 0%nat) = [5]
  ∧ mirror_ok (client_heap σ_cut !!! 0%nat).
Proof.
  split; [vm_compute; reflexivity|].
  apply (mirrors_stay_well_formed ex_constants accept accept2 accept2 σ_cut 0%nat).
  - exact cut_reachable.
  - vm_compute. reflexivity.
Defined.

Lemma nicks_are_unique_witness :
  nick (client_heap σ_lobby !!! 1%nat) = Some "bob"
  ∧ (∀ k c, server_clients σ_lobby !! k = Some c →
            nick (client_heap σ_lobby !!! c) = Some "bob" → k = Some 1 ∧ c = 1%nat).
Proof.
  assert (Hbob : nick (client_heap σ_lobby !!! 1%nat) = Some "bob")
    by (vm_compute; reflexivity).
  split; [exact Hbob|]. intros k c Hk Hn.
  apply (nicks_are_unique ex_constants accept accept2 accept2 σ_lobby k (Some 1) c 1%nat
           "bob" lobby_reachable Hk); [vm_compute; reflexivity|exact Hn|exact Hbob].
Defined.

Lemma main_loop_chunks_witness :
  ex_main_loop 4 0%nat [35; 34; 5] σ_lobby
  = Some (Suspended [34; 5] (after_input 0%nat [35; 34; 5] σ_lobby))
  ∧ ex_main_loop 6 0%nat ([35; 34; 5] ++ [5; 35]) σ_lobby
    = ex_main_loop 5 0%nat ([34; 5] ++ [5; 35]) (after_input 0%nat [35; 34; 5] σ_lobby).
Proof.
  assert (Hrun : ex_main_loop 4 0%nat [35; 34; 5] σ_lobby
                 = Some (Suspended [34; 5] (after_input 0%nat [35; 34; 5] σ_lobby)))
    by (vm_compute; reflexivity).
  split; [exact Hrun|].
  apply (main_loop_chunks ex_constants accept2 accept2 0%nat [35; 34; 5] [5; 35] [34; 5]
           σ_lobby (after_input 0%nat [35; 34; 5] σ_lobby)).
  - apply bytes_intro. vm_compute. reflexivity.
  - apply bytes_intro. vm_compute. reflexivity.
  - exact Hrun.
Defined.

Lemma send_reaches_all_but_sender_witness :
  Room_send 1%nat [50; 0] (Some 0%nat) σ_both
  = Ok () (add_trace σ_both [SocketWrite 8 [50; 0]])
  ∧ Room_send 1%nat [50; 0] None σ_both
    = Ok () (add_trace σ_both [SocketWrite 7 [50; 0]; SocketWrite 8 [50; 0]]).
Proof.
  destruct (send_reaches_all_but_sender σ_both 1%nat 0%nat [50; 0]) as [H1 H2].
  - apply (bool_decide_unpack _). vm_compute. exact I.
  - apply (bool_decide_unpack _). vm_compute. exact I.
  - apply (bool_decide_unpack _). vm_compute. exact I.
  - split; [rewrite H1|rewrite H2]; vm_compute; reflexivity.
Defined.

Lemma room_join_part_round_trip_witness :
  ∃ σ1 σ2,
    Room_join 1%nat 1%nat σ_r1 = Ok () σ1
    ∧ Room_part 1%nat 1%nat σ1 = Ok () σ2
    ∧ client_heap σ2 = client_heap σ_r1
    ∧ server_clients σ2 = server_clients σ_r1
    ∧ server_rooms σ2 = server_rooms σ_r1
    ∧ room_heap σ2 = <[1%nat := mkRoom "r1" [0%nat] (JNum 0)]> (room_heap σ_r1).
Proof.
  destruct (room_join_part_round_trip σ_r1 1%nat 1%nat (mkRoom "r1" [0%nat] (JNum 0)))
    as (σ1 & σ2 & Hj & Hp & Hh & Hc & Hr & Hrooms).
  - vm_compute. reflexivity.
  - by intros ?%list_elem_of_singleton.
  - vm_compute. eauto.
  - repeat constructor; vm_compute; eauto.
  - exists σ1, σ2. split; [exact Hj|]. split; [exact Hp|]. split; [exact Hh|].
    split; [exact Hc|]. split; [exact Hr|]. rewrite Hrooms. f_equal.
Defined.

Lemma disconnect_frees_id_witness :
  ∃ σ' j,
    Client_disconnect 0%nat (Some "Client left") σ_lobby = Ok () σ'
    ∧ server_clients σ' = delete (Some 0) (server_clients σ_lobby)
    ∧ find_id (server_clients σ') = Some j
    ∧ j ≤ 0.
Proof.
  apply (disconnect_frees_id σ_lobby 0%nat 0 (Some "Client left")).
  - vm_compute. reflexivity.
  - unfold is_byte. lia.
Defined.

Lemma join_creates_room_witness :
  ∃ σ' r,
    Client_join 0%nat "r9" σ_lobby = Ok () σ'
    ∧ room_heap σ_lobby !! r = None
    ∧ server_rooms σ' = <["r9" := r]> (server_rooms σ_lobby)
    ∧ room_heap σ'
      = <[r := mkRoom "r9" [0%nat] (num_val (cid (client_heap σ_lobby !!! 0%nat)))]>
          (room_heap σ_lobby)
    ∧ client_heap σ' = alter (set_room (Some r)) 0%nat (client_heap σ_lobby)
    ∧ server_clients σ' = server_clients σ_lobby
    ∧ trace σ' = trace σ_lobby ++
        [ServerEmit (SRoomCreate r); RoomEmit r (RJoin 0);
         SocketWrite (socket (client_heap σ_lobby !!! 0%nat)) [16; 0];
         ServerEmit (SJoin 0 r); ClientEmit 0 (CJoin "r9")].
Proof.
  apply (join_creates_room σ_lobby 0%nat "r9").
  - vm_compute. reflexivity.
  - vm_compute. eauto.
Defined.

Lemma part_deletes_empty_room_witness :
  ∃ σ',
    Client_part 0%nat σ_r1 = Ok () σ'
    ∧ clients (room_heap σ' !!! 1%nat) = []
    ∧ server_rooms σ' = delete "r1" (server_rooms σ_r1)
    ∧ trace σ' = trace σ_r1 ++
        [ClientEmit 0 CPart; ServerEmit (SPart 0 (Some 1%nat)); RoomEmit 1 (RPart 0);
         RoomEmit 1 RDelete; ServerEmit (SRoomDelete 1)].
Proof.
  destruct (part_deletes_empty_room σ_r1 0%nat 1%nat (mkRoom "r1" [0%nat] (JNum 0)))
    as (σ' & Hrun & _ & _ & Hclients & Hrooms & Htrace).
  - vm_compute. reflexivity.
  - vm_compute. reflexivity.
  - exists σ'. split; [exact Hrun|]. split; [exact Hclients|].
    split; [exact Hrooms|]. rewrite Htrace. vm_compute. reflexivity.
Defined.

Lemma join_part_round_trip_witness :
  ∃ σ1 σ2,
    Client_join 0%nat "r9" σ_lobby = Ok () σ1
    ∧ Client_part 0%nat σ1 = Ok () σ2
    ∧ server_rooms σ2 = server_rooms σ_lobby
    ∧ server_clients σ2 = server_clients σ_lobby
    ∧ client_heap σ2
      = <[0%nat := set_room None (client_heap σ_lobby !!! 0%nat)]> (client_heap σ_lobby).
Proof.
  apply (join_part_round_trip σ_lobby 0%nat "r9" (client_heap σ_lobby !!! 0%nat)).
  - vm_compute. reflexivity.
  - vm_compute. eauto.
  - vm_compute. reflexivity.
Defined.

Lemma handshake_rejects_version_witness :
  ex_handshake 0%nat ([1; 1; 0] ++ bytes_of_string "alice") σ_connected
  = Ok false (turned_away (noted σ_connected 0%nat [Some 1; Some 1; Some 0]) 0%nat
      (NUL +:+ "Client out of date (expected at least 1.2)" +:+ NUL) "Old version: 1.1")
  ∧ ex_handshake 0%nat ([2; 0; 0] ++ bytes_of_string "alice") σ_connected
    = Ok false (turned_away (noted σ_connected 0%nat [Some 2; Some 0; Some 0]) 0%nat
        (NUL +:+ "Client too new (expected at most 1.9)" +:+ NUL) "New version: 2.0").
Proof.
  assert (Hroom : room (client_heap σ_connected !!! 0%nat) = None)
    by (vm_compute; reflexivity).
  split.
  - apply (proj1 (handshake_rejects_version ex_constants accept σ_connected 0%nat 1 1
                    (0 :: bytes_of_string "alice") Hroom)).
    right. cbn. lia.
  - apply (proj2 (handshake_rejects_version ex_constants accept σ_connected 0%nat 2 0
                    (0 :: bytes_of_string "alice") Hroom)).
    + unfold too_old. cbn. lia.
    + left. cbn. lia.
Defined.

Lemma handshake_rejects_bad_nick_witness :
  ex_handshake 0%nat ([1; 2; 0] ++ bytes_of_string "a b") σ_connected
  = Ok false
      (turned_away (named (noted σ_connected 0%nat [Some 1; Some 2; Some 0]) 0%nat "a b")
         0%nat (NUL +:+ "Bad nickname" +:+ NUL) "Invalid nickname")
  ∧ ex_handshake 0%nat [1; 2; 0] σ_connected
    = Ok false
        (turned_away
           (named (noted σ_connected 0%nat [Some 1; Some 2; Some 0]) 0%nat EmptyString)
           0%nat (NUL +:+ "Bad nickname" +:+ NUL) "Invalid nickname").
Proof.
  assert (Hroom : room (client_heap σ_connected !!! 0%nat) = None)
    by (vm_compute; reflexivity).
  assert (Hwin : in_window ex_constants 1 2) by (unfold in_window; cbn; lia).
  split.
  - apply (handshake_rejects_bad_nick ex_constants accept σ_connected 0%nat 1 2
             (bytes_of_string "a b") Hroom Hwin).
    vm_compute. reflexivity.
  - apply (handshake_rejects_bad_nick ex_constants accept σ_connected 0%nat 1 2 []
             Hroom Hwin).
    vm_compute. reflexivity.
Defined.

Lemma handshake_rejects_long_nick_witness :
  ex_handshake 0%nat ([1; 2; 0] ++ replicate 70 97) σ_connected
  = Ok false
      (turned_away
         (named (noted σ_connected 0%nat [Some 1; Some 2; Some 0]) 0%nat
            (toString (replicate 64 97)))
         0%nat (NUL +:+ "Nick too long" +:+ NUL) "Nick was too long (70)").
Proof.
  assert (Hroom : room (client_heap σ_connected !!! 0%nat) = None)
    by (vm_compute; reflexivity).
  assert (Hwin : in_window ex_constants 1 2) by (unfold in_window; cbn; lia).
  apply (handshake_rejects_long_nick ex_constants accept σ_connected 0%nat 1 2
           (replicate 70 97) Hroom Hwin).
  - vm_compute. reflexivity.
  - vm_compute. reflexivity.
Defined.

Lemma handshake_rejects_taken_nick_witness :
  nick_in_use σ_second 1%nat "alice"
  ∧ ex_handshake 1%nat ([1; 2; 0] ++ bytes_of_string "alice") σ_second
    = Ok false
        (turned_away (named (noted σ_second 1%nat [Some 1; Some 2; Some 0]) 1%nat "alice")
           1%nat (NUL +:+ "This nick is already on the server" +:+ NUL)
           "Nick taken (alice)").
Proof.
  assert (Huse : nick_in_use σ_second 1%nat "alice").
  { exists (Some 0), 0%nat. split; [vm_compute; reflexivity|].
    split; [vm_compute; discriminate|]. split; [discriminate|vm_compute; reflexivity]. }
  split; [exact Huse|].
  apply (handshake_rejects_taken_nick ex_constants accept σ_second 1%nat 1 2
           (bytes_of_string "alice")).
  - vm_compute. reflexivity.
  - unfold in_window. cbn. lia.
  - vm_compute. reflexivity.
  - vm_compute. discriminate.
  - exact Huse.
Defined.

Lemma handshake_accepts_witness :
  nick_free σ_second 1%nat "bob"
  ∧ handshake ex_constants accept 1%nat (1 :: 2 :: SCRIPT ex_constants :: bytes_of_string "bob")
      σ_second
    = if accept (client_heap (welcomed σ_second 1%nat
                                [Some 1; Some 2; Some (SCRIPT ex_constants)]
                                (toString (bytes_of_string "bob"))) !!! 1%nat)
      then (Client_join 1%nat "null" ;;; ret true)
             (welcomed σ_second 1%nat [Some 1; Some 2; Some (SCRIPT ex_constants)]
                (toString (bytes_of_string "bob")))
      else Ok false
             (welcomed σ_second 1%nat [Some 1; Some 2; Some (SCRIPT ex_constants)]
                (toString (bytes_of_string "bob"))).
Proof.
  assert (Hfree : nick_free σ_second 1%nat "bob").
  { intros k d Hk Hne. apply elem_of_map_to_list in Hk.
    vm_compute in Hk. vm_compute in Hne.
    apply elem_of_cons in Hk as [[= -> ->]|Hk]; [done|].
    apply elem_of_cons in Hk as [[= -> ->]|Hk]; [|by apply elem_of_nil in Hk].
    split; [discriminate|]. vm_compute. discriminate. }
  split; [exact Hfree|].
  assert (Hwin : in_window ex_constants 1 2) by (unfold in_window; cbn; lia).
  assert (Hname : match_name (toString (bytes_of_string "bob")) = true)
    by (vm_compute; reflexivity).
  assert (Hlen : str_length (toString (bytes_of_string "bob")) ≤ 32)
    by (vm_compute; discriminate).
  exact (handshake_accepts ex_constants accept σ_second 1%nat 1 2 (bytes_of_string "bob")
           Hwin Hname Hlen Hfree).
Defined.

Lemma handshake_short_record_witness :
  (∃ σ', ex_handshake 0%nat [1; 2] σ_connected = Ok false σ'
         ∧ server_clients σ'
           = delete (cid (client_heap σ_connected !!! 0%nat)) (server_clients σ_connected))
  ∨ ex_handshake 0%nat [1; 2] σ_connected
    = Throw (TypeError "Cannot read properties of undefined (reading 'SCRIPT')")
        (noted σ_connected 0%nat [Some 1; Some 2; None]).
Proof.
  apply (handshake_short_record ex_constants accept σ_connected 0%nat [1; 2]).
  cbn. lia.
Defined.

Lemma chat_is_relayed_witness :
  ∃ act,
    ex_iteration 0%nat (20 :: bytes_of_string "waves" ++ 0 :: []) = Got act []
    ∧ act σ_both
      = Ok () (add_trace σ_both
          [ServerEmit (SChat 0 "* waves");
           SocketWrite 8 ([20; 0] ++ bytes_of_string "waves" ++ [0])]).
Proof.
  destruct (chat_is_relayed ex_constants accept2 accept2 σ_both 0%nat 1%nat 20
              (bytes_of_string "waves") []) as (act & Hit & Hact).
  - by right.
  - apply bytes_intro. vm_compute. reflexivity.
  - repeat constructor; vm_compute; discriminate.
  - vm_compute. reflexivity.
  - vm_compute. discriminate.
  - reflexivity.
  - vm_compute. reflexivity.
  - exists act. split; [exact Hit|]. rewrite Hact. vm_compute. reflexivity.
Defined.

Lemma chat_is_refused_witness :
  (∃ act,
     ex_iteration 0%nat [19; 104; 7; 0] = Got act []
     ∧ act σ_both = Ok () (add_trace σ_both
         [SocketWrite 7 (server_message_frame "Invalid characters in message")]))
  ∧ (∃ act,
       ex_iteration 0%nat (19 :: replicate 201 97 ++ 0 :: []) = Got act []
       ∧ act σ_both = Ok () (add_trace σ_both
           [SocketWrite 7 (server_message_frame "Message too long")])).
Proof.
  split.
  - destruct (chat_is_refused ex_constants accept2 accept2 σ_both 0%nat 19 [104; 7] [])
      as (act & Hit & Hbad & _).
    + by left.
    + repeat constructor; discriminate.
    + exists act. split; [exact Hit|]. rewrite Hbad; [|vm_compute; reflexivity].
      vm_compute. reflexivity.
  - destruct (chat_is_refused ex_constants accept2 accept2 σ_both 0%nat 19
                (replicate 201 97) []) as (act & Hit & _ & Hlong & _).
    + by left.
    + apply Forall_replicate. discriminate.
    + exists act. split; [exact Hit|].
      rewrite Hlong; [|vm_compute; reflexivity|vm_compute; reflexivity].
      vm_compute. reflexivity.
Defined.

Lemma roomless_commands_throw_witness :
  room (client_heap σ_kicked !!! 1%nat) = None
  ∧ (∃ act, ex_iteration 1%nat (16 :: bytes_of_string "r1" ++ 0 :: []) = Got act []
            ∧ act σ_kicked
              = Throw (TypeError "Cannot read properties of null (reading 'part')")
                  (add_trace σ_kicked [ClientEmit 1 CPart; ServerEmit (SPart 1 None)]))
  ∧ (∃ act, ex_iteration 1%nat (19 :: bytes_of_string "r1" ++ 0 :: []) = Got act []
            ∧ act σ_kicked
              = Throw (TypeError "Cannot read properties of null (reading 'send')")
                  (add_trace σ_kicked [ServerEmit (SChat 1 "r1")]))
  ∧ (∃ act, ex_iteration 1%nat
              (21 :: bytes_of_string "r1" ++ 0 :: bytes_of_string "bye" ++ 0 :: [])
            = Got act []
            ∧ act σ_kicked
              = Throw (TypeError "Cannot read properties of null (reading 'name')") σ_kicked).
Proof.
  assert (Hroom : room (client_heap σ_kicked !!! 1%nat) = None) by (vm_compute; reflexivity).
  split; [exact Hroom|].
  destruct (roomless_commands_throw ex_constants accept2 accept2 σ_kicked 1%nat 19
              (bytes_of_string "r1") (bytes_of_string "bye") [] Hroom)
    as (Hjoin & Hchat & Hkick).
  - repeat constructor; vm_compute; discriminate.
  - repeat constructor; vm_compute; discriminate.
  - split; [|split].
    + apply Hjoin; [vm_compute; reflexivity|vm_compute; discriminate|reflexivity].
    + apply Hchat; [by left|vm_compute; reflexivity|vm_compute; discriminate|reflexivity].
    + apply Hkick; [vm_compute; reflexivity|vm_compute; discriminate].
Defined.

Lemma join_is_refused_witness :
  ∃ act,
    ex_iteration 0%nat (16 :: bytes_of_string "a b" ++ 0 :: []) = Got act []
    ∧ act σ_lobby = Ok () (add_trace σ_lobby
        [SocketWrite 7 (server_message_frame "Invalid room name")]).
Proof.
  destruct (join_is_refused ex_constants accept2 accept2 σ_lobby 0%nat
              (bytes_of_string "a b") []) as (act & Hit & Hbad & _).
  - repeat constructor; vm_compute; discriminate.
  - exists act. split; [exact Hit|]. rewrite Hbad; [|left; vm_compute; reflexivity].
    vm_compute. reflexivity.
Defined.

Lemma join_moves_to_new_room_witness :
  ∃ act,
    ex_iteration 0%nat (16 :: bytes_of_string "r1" ++ 0 :: []) = Got act []
    ∧ act σ_lobby
      = Ok () (created_room
                 (parted σ_lobby 0%nat 0%nat (mkRoom "null" [0%nat; 1%nat] (JNum 0)))
                 0%nat "r1")
    ∧ server_rooms (created_room
                      (parted σ_lobby 0%nat 0%nat (mkRoom "null" [0%nat; 1%nat] (JNum 0)))
                      0%nat "r1")
      = {[ "null" := 0%nat; "r1" := 1%nat ]}.
Proof.
  destruct (join_moves_to_new_room ex_constants accept2 accept2 σ_lobby 0%nat 0%nat
              (client_heap σ_lobby !!! 0%nat) (mkRoom "null" [0%nat; 1%nat] (JNum 0))
              (bytes_of_string "r1") []) as (act & Hit & Hact).
  - repeat constructor; vm_compute; discriminate.
  - vm_compute. reflexivity.
  - vm_compute. discriminate.
  - reflexivity.
  - vm_compute. reflexivity.
  - vm_compute. reflexivity.
  - vm_compute. eauto.
  - vm_compute. reflexivity.
  - vm_compute. reflexivity.
  - exists act. split; [exact Hit|]. split; [exact Hact|]. vm_compute. reflexivity.
Defined.

Lemma kick_by_operator_witness :
  List.find (λ m, bool_decide (nick (client_heap σ_both !!! m) = Some "bob")) [0%nat; 1%nat]
  = Some 1%nat
  ∧ ∃ act,
      ex_iteration 0%nat
        (21 :: bytes_of_string "bob" ++ 0 :: bytes_of_string "bye" ++ 0 :: []) = Got act []
      ∧ act σ_both
        = Ok () (parted (kicked σ_both 0%nat 1%nat "bye") 1%nat 1%nat
                   (mkRoom "r1" [0%nat; 1%nat] (JNum 0))).
Proof.
  assert (Hfind : List.find (λ m, bool_decide (nick (client_heap σ_both !!! m) = Some "bob"))
                    [0%nat; 1%nat] = Some 1%nat) by (vm_compute; reflexivity).
  split; [exact Hfind|].
  destruct (kick_by_operator ex_constants accept2 accept2 σ_both 0%nat 1%nat
              (mkRoom "r1" [0%nat; 1%nat] (JNum 0))
              (bytes_of_string "bob") (bytes_of_string "bye") []) as (act & Hit & Hact).
  - repeat constructor; vm_compute; discriminate.
  - repeat constructor; vm_compute; discriminate.
  - vm_compute. reflexivity.
  - vm_compute. discriminate.
  - vm_compute. reflexivity.
  - vm_compute. reflexivity.
  - discriminate.
  - vm_compute. reflexivity.
  - repeat constructor; vm_compute; reflexivity.
  - exists act. split; [exact Hit|].
    cbn [clients] in Hact.
    change (toString (bytes_of_string "bob")) with "bob" in Hact.
    rewrite Hfind in Hact. exact Hact.
Defined.

Lemma sync_properties_reply_reaches_table_witness :
  room (client_heap σ_r1 !!! 1%nat) ≠ room (client_heap σ_r1 !!! 0%nat)
  ∧ ∃ act,
      ex_iteration 1%nat [130; 0; 34; 9] = Got act []
      ∧ act σ_r1 = Ok () (add_trace σ_r1 [SocketWrite 7 [34; 1; 9]]).
Proof.
  split; [vm_compute; discriminate|].
  destruct (sync_properties_reply_reaches_table ex_constants accept2 accept2 σ_r1 1%nat
              0 34 9 []) as (act & Hit & Hact).
  - unfold is_byte. lia.
  - unfold is_byte. lia.
  - exists act. split; [exact Hit|]. rewrite Hact. vm_compute. reflexivity.
Defined.

Lemma sync_reply_is_forwarded_witness :
  (∃ act,
     ex_iteration 1%nat ([128; 0; 0; 0; 2; 7; 8] ++ [35]) = Got act [35]
     ∧ act σ_r1 = Ok () (add_trace σ_r1 [SocketWrite 7 [129; 0; 0; 2; 7; 8]]))
  ∧ ex_iteration 1%nat [128; 0; 0; 0; 0; 7; 8] = Wait.
Proof.
  destruct (sync_reply_is_forwarded ex_constants accept2 accept2 σ_r1 1%nat 0 0 0 2
              [7; 8] [35]) as [Hfwd Hstall].
  - unfold is_byte. lia.
  - unfold is_byte. lia.
  - unfold is_byte. lia.
  - apply bytes_intro. vm_compute. reflexivity.
  - split.
    + destruct Hfwd as (act & Hit & Hact); [discriminate|reflexivity|].
      exists act. split; [exact Hit|]. rewrite Hact. vm_compute. reflexivity.
    + apply (proj2 (sync_reply_is_forwarded ex_constants accept2 accept2 σ_r1 1%nat 0 0 0 0
                      [] [7; 8] ltac:(unfold is_byte; lia) ltac:(unfold is_byte; lia)
                      ltac:(unfold is_byte; lia) (Forall_nil_2 _))).
Defined.

Lemma unknown_opcode_is_skipped_witness :
  ∃ act, ex_iteration 0%nat [129; 35] = Got act [35] ∧ act σ_both = Ok () σ_both.
Proof.
  apply (unknown_opcode_is_skipped ex_constants accept2 accept2 σ_both 0%nat 129 [35]).
  apply (bool_decide_unpack _). vm_compute. exact I.
Defined.

Lemma relay_forwards_verbatim_witness :
  (∃ act,
     ex_iteration 0%nat ([32; 1; 2; 3] ++ [35]) = Got act [35]
     ∧ act σ_both = Ok () (add_trace σ_both [SocketWrite 8 [32; 0; 1; 2; 3]]))
  ∧ (∃ act,
       ex_iteration 1%nat [70] = Got act []
       ∧ act σ_kicked = Ok () σ_kicked).
Proof.
  split.
  - destruct (relay_forwards_verbatim ex_constants accept2 accept2 σ_both 0%nat 32 3
                [1; 2; 3] [35]) as (act & Hit & Hact).
    + apply (bool_decide_unpack _). vm_compute. exact I.
    + reflexivity.
    + apply bytes_intro. vm_compute. reflexivity.
    + exists act. split; [exact Hit|]. rewrite Hact. vm_compute. reflexivity.
  - destruct (relay_forwards_verbatim ex_constants accept2 accept2 σ_kicked 1%nat 70 0
                [] []) as (act & Hit & Hact).
    + apply (bool_decide_unpack _). vm_compute. exact I.
    + reflexivity.
    + by apply Forall_nil.
    + exists act. split; [exact Hit|]. rewrite Hact. vm_compute. reflexivity.
Defined.
